(** * NBA draft and game simulator: a shallow embedding

    The engine ([nba_draft_sim.py]) and the snake-draft state of the web
    front end ([app.py]) are embedded as Rocq functions.

    Modelling choices:
    - Python floats are exact rationals ([Q]).  Every comparison of the
      source is kept as a comparison; the properties proved below concern
      control flow, integer statistics and bounds, none of which depends
      on rounding.
    - The module-level random generator is a tape: the infinite sequence
      of the future results of [random.random()].  [random.seed] replaces
      the tape.
    - A Python dict is an insertion-ordered association list with unique
      keys; objects that the source compares with [is] carry an
      [obj_id]. *)

From Stdlib Require Import QArith ZArith List String Ascii Bool Lia Lqa Permutation
  Sorted.
Import ListNotations.

Local Open Scope Z_scope.

(* ------------------------------------------------------------------ *)
(** ** Numbers *)

(** [x < y] on floats, as a boolean. *)
Definition Qltb (x y : Q) : bool := negb (Qle_bool y x).

(** Python's two-argument [min(a, b)]: [b] when [b < a], else [a]. *)
Definition py_min (a b : Q) : Q := if Qltb b a then b else a.

(** Python's two-argument [max(a, b)]: [b] when [b > a], else [a]. *)
Definition py_max (a b : Q) : Q := if Qltb a b then b else a.

Definition clamp (x lo hi : Q) : Q := py_max lo (py_min hi x).

Definition scale_to_99 (val lo hi : Q) : Q :=
  if Qeq_bool hi lo then 50%Q
  else let t := ((val - lo) / (hi - lo))%Q in clamp (99 * t)%Q 0%Q 99%Q.

(** [int(x)] on a float: truncation toward zero. *)
Definition py_int (x : Q) : Z := Z.quot (Qnum x) (Zpos (Qden x)).

(** [sum(...)] over floats, left to right from [0]. *)
Definition py_sum (l : list Q) : Q := fold_left Qplus l 0%Q.

(* ------------------------------------------------------------------ *)
(** ** Dictionaries

    Insertion-ordered, unique keys: assignment to a present key
    overwrites in place, assignment to an absent key appends. *)

Section Dict.
Context {K V : Type}.
Variable eqb : K -> K -> bool.

Definition dict := list (K * V).

Fixpoint dict_get (k : K) (d : dict) : option V :=
  match d with
  | [] => None
  | (k', v) :: d' => if eqb k k' then Some v else dict_get k d'
  end.

Fixpoint dict_set (k : K) (v : V) (d : dict) : dict :=
  match d with
  | [] => [(k, v)]
  | (k', v') :: d' =>
      if eqb k k' then (k', v) :: d' else (k', v') :: dict_set k v d'
  end.

Definition dict_mem (k : K) (d : dict) : bool :=
  match dict_get k d with Some _ => true | None => false end.

(** [d.get(k, dflt)] *)
Definition dict_get_or (k : K) (dflt : V) (d : dict) : V :=
  match dict_get k d with Some v => v | None => dflt end.

End Dict.

Arguments dict : clear implicits.

(** String-keyed dictionaries. *)
Definition sdict (V : Type) := dict string V.
Definition sget {V} := @dict_get string V String.eqb.
Definition sset {V} := @dict_set string V String.eqb.
Definition smem {V} := @dict_mem string V String.eqb.
Definition sget_or {V} := @dict_get_or string V String.eqb.

(* ------------------------------------------------------------------ *)
(** ** Strings *)

Definition underscore : ascii := "_"%char.

(** [s.rsplit('_', 1)] unpacked into two names: the split at the last
    underscore; [None] when there is none (the unpacking raises). *)
Fixpoint rsplit1 (s : string) : option (string * string) :=
  match s with
  | EmptyString => None
  | String c rest =>
      match rsplit1 rest with
      | Some (a, b) => Some (String c a, b)
      | None => if Ascii.eqb c underscore then Some (EmptyString, rest) else None
      end
  end.

(** The f-string [f"{name}_{stat}"]. *)
Definition stat_key (name stat : string) : string :=
  (name ++ String underscore stat)%string.

(* ------------------------------------------------------------------ *)
(** ** Data model *)

Inductive Pos : Type := PG | SG | SF | PF | C.

Definition Pos_eq_dec (a b : Pos) : {a = b} + {a <> b}.
Proof. decide equality. Defined.

Definition Pos_eqb (a b : Pos) : bool := if Pos_eq_dec a b then true else false.

(** [pos in l] *)
Definition pos_in (pos : Pos) (l : list Pos) : bool := existsb (Pos_eqb pos) l.

Definition POSITIONS : list Pos := [PG; SG; SF; PF; C].

(** The ratings dictionary built by [build_player_ratings]; its eleven
    keys are fixed, so it is a record. *)
Record Ratings : Type := mkRatings {
  finishing : Q;
  three : Q;
  mid : Q;
  ft : Q;
  playmaking : Q;
  r_per_def : Q;
  r_int_def : Q;
  r_rebounding : Q;
  athletic : Q;
  usage : Q;
  three_tendency : Q
}.

(** The dataclass [Player].  [obj_id] stands for the identity of the
    Python object, which [is] compares; two rows of the database with
    equal fields are still two objects. *)
Record Player : Type := mkPlayer {
  obj_id : nat;
  name : string;
  pos_primary : Pos;
  pos_secondary : list Pos;
  era : string;
  ppg : Q;
  rpg : Q;
  apg : Q;
  ts : Q;
  three_pct : Q;
  ft_pct : Q;
  obpm : Q;
  dbpm : Q;
  ws48 : Q;
  three_rate : Q;
  height_in : Z;
  weight_lb : Z;
  ratings : Ratings
}.

Definition Q_eq_dec (x y : Q) : {x = y} + {x <> y}.
Proof. decide equality; [apply Pos.eq_dec | apply Z.eq_dec]. Defined.

Definition Ratings_eq_dec (x y : Ratings) : {x = y} + {x <> y}.
Proof. decide equality; apply Q_eq_dec. Defined.

(** [p is q]: the same object. *)
Definition Player_eq_dec (p q : Player) : {p = q} + {p <> q}.
Proof.
  decide equality;
    first [ apply Ratings_eq_dec | apply Z.eq_dec | apply Q_eq_dec
          | apply string_dec | apply (list_eq_dec Pos_eq_dec)
          | apply Pos_eq_dec | apply Nat.eq_dec ].
Defined.

Definition is_obj (p q : Player) : bool :=
  if Player_eq_dec p q then true else false.

(** The dataclass's generated [__eq__]: field by field, floats by value;
    the identity of the object plays no part. *)
Definition ratings_eqb (x y : Ratings) : bool :=
  Qeq_bool (finishing x) (finishing y) && Qeq_bool (three x) (three y)
  && Qeq_bool (mid x) (mid y) && Qeq_bool (ft x) (ft y)
  && Qeq_bool (playmaking x) (playmaking y)
  && Qeq_bool (r_per_def x) (r_per_def y)
  && Qeq_bool (r_int_def x) (r_int_def y)
  && Qeq_bool (r_rebounding x) (r_rebounding y)
  && Qeq_bool (athletic x) (athletic y) && Qeq_bool (usage x) (usage y)
  && Qeq_bool (three_tendency x) (three_tendency y).

Definition player_eqb (p q : Player) : bool :=
  String.eqb (name p) (name q) && Pos_eqb (pos_primary p) (pos_primary q)
  && (if list_eq_dec Pos_eq_dec (pos_secondary p) (pos_secondary q)
      then true else false)
  && String.eqb (era p) (era q)
  && Qeq_bool (ppg p) (ppg q) && Qeq_bool (rpg p) (rpg q)
  && Qeq_bool (apg p) (apg q) && Qeq_bool (ts p) (ts q)
  && Qeq_bool (three_pct p) (three_pct q) && Qeq_bool (ft_pct p) (ft_pct q)
  && Qeq_bool (obpm p) (obpm q) && Qeq_bool (dbpm p) (dbpm q)
  && Qeq_bool (ws48 p) (ws48 q) && Qeq_bool (three_rate p) (three_rate q)
  && Z.eqb (height_in p) (height_in q) && Z.eqb (weight_lb p) (weight_lb q)
  && ratings_eqb (ratings p) (ratings q).

(** ** Attribute builder *)

Definition build_player_ratings (p : Player) : Ratings :=
  let finishing := (scale_to_99 (ts p) 0.50 0.65 * 0.7
                    + scale_to_99 (ppg p) 12 32 * 0.3)%Q in
  let three := (scale_to_99 (three_pct p) 0.28 0.44 * 0.8
                + scale_to_99 (three_rate p) 0.02 0.55 * 0.2)%Q in
  let mid := ((scale_to_99 (ts p) 0.52 0.60 + scale_to_99 (ppg p) 12 30) / 2)%Q in
  let ft := scale_to_99 (ft_pct p) 0.60 0.92 in
  let playmaking := (scale_to_99 (apg p) 2.0 11.5 * 0.7
                     + scale_to_99 (obpm p) 0.0 10.5 * 0.3)%Q in
  let per_def := (scale_to_99 (dbpm p) 0.0 4.8 * 0.7
                  + scale_to_99 (ws48 p) 0.10 0.26 * 0.3)%Q in
  let int_def := (scale_to_99 (dbpm p) 0.0 4.8 * 0.6
                  + scale_to_99 (rpg p) 3.5 13.0 * 0.4)%Q in
  let reb := (scale_to_99 (rpg p) 3.5 13.0 * 0.7
              + scale_to_99 (inject_Z (height_in p)) 72 86 * 0.3)%Q in
  let athletic := (scale_to_99 (ws48 p) 0.10 0.26 * 0.5
                   + scale_to_99 (ts p) 0.50 0.65 * 0.5)%Q in
  let usage := clamp (0.25 + (ppg p - 15) * 0.015)%Q 0.10 0.40 in
  let three_tendency := clamp (three_rate p) 0.00 0.60 in
  mkRatings finishing three mid ft playmaking per_def int_def reb athletic
            usage three_tendency.

(** A freshly constructed [Player] has an empty [ratings] dictionary,
    which nothing reads before it is filled in. *)
Definition no_ratings : Ratings := mkRatings 0 0 0 0 0 0 0 0 0 0 0.

Definition set_ratings (p : Player) (r : Ratings) : Player :=
  mkPlayer (obj_id p) (name p) (pos_primary p) (pos_secondary p) (era p)
           (ppg p) (rpg p) (apg p) (ts p) (three_pct p) (ft_pct p) (obpm p)
           (dbpm p) (ws48 p) (three_rate p) (height_in p) (weight_lb p) r.

(** [Player(...)] at row [i] of the database. *)
Definition new_player (i : nat) (name : string) (pp : Pos) (ps : list Pos)
    (era : string) (ppg rpg apg ts tp ftp obpm dbpm ws48 tr : Q)
    (h w : Z) : Player :=
  mkPlayer i name pp ps era ppg rpg apg ts tp ftp obpm dbpm ws48 tr h w
           no_ratings.

(** ** Player database *)

Definition PLAYER_ROWS : list Player := [
    new_player 0 "Michael Jordan" SG [SF] "90s"
      30.1 6.2 5.3 0.569 0.327 0.835 7.9 1.3 0.250 0.12 78 198;
    new_player 1 "LeBron James" SF [PF; PG] "10s"
      27.1 7.5 7.3 0.594 0.345 0.735 6.8 1.9 0.232 0.28 81 250;
    new_player 2 "Kareem Abdul-Jabbar" C [PF] "70s"
      24.6 11.2 3.6 0.592 0.000 0.721 5.7 2.2 0.228 0.00 86 225;
    new_player 3 "Magic Johnson" PG [SG] "80s"
      19.5 7.2 11.2 0.610 0.303 0.848 6.9 1.0 0.225 0.18 81 215;
    new_player 4 "Larry Bird" SF [PF] "80s"
      24.3 10.0 6.3 0.564 0.375 0.886 5.6 2.0 0.203 0.24 81 220;
    new_player 5 "Shaquille O'Neal" C [PF] "00s"
      23.7 10.9 2.5 0.586 0.045 0.527 4.4 2.0 0.208 0.01 85 325;
    new_player 6 "Tim Duncan" PF [C] "00s"
      19.0 10.8 3.0 0.551 0.179 0.696 2.9 3.5 0.209 0.02 83 250;
    new_player 7 "Kobe Bryant" SG [SF] "00s"
      25.0 5.2 4.7 0.555 0.329 0.837 4.5 0.7 0.170 0.28 78 212;
    new_player 8 "Hakeem Olajuwon" C [PF] "90s"
      21.8 11.1 2.5 0.552 0.202 0.712 3.6 2.7 0.178 0.02 84 255;
    new_player 9 "Stephen Curry" PG [SG] "10s"
      24.7 4.7 6.4 0.628 0.428 0.910 7.7 0.8 0.212 0.55 74 190;
    new_player 10 "Kevin Durant" SF [PF] "10s"
      27.3 7.1 4.3 0.635 0.388 0.886 5.7 1.8 0.214 0.36 82 240;
    new_player 11 "Giannis Antetokounmpo" PF [C; SF] "20s"
      24.1 10.3 4.7 0.611 0.286 0.690 6.6 2.2 0.208 0.20 83 242;
    new_player 12 "Nikola Jokic" C [PF] "20s"
      20.9 10.7 6.9 0.644 0.364 0.829 10.4 2.0 0.260 0.28 83 284;
    new_player 13 "Wilt Chamberlain" C [PF] "60s"
      30.1 22.9 4.4 0.540 0.000 0.511 5.0 2.0 0.248 0.00 84 275;
    new_player 14 "Bill Russell" C [PF] "60s"
      15.1 22.5 4.3 0.493 0.000 0.561 1.5 4.8 0.193 0.00 82 215;
    new_player 15 "Jerry West" SG [PG] "60s"
      27.0 5.8 6.7 0.580 0.000 0.814 6.1 1.1 0.213 0.02 75 175;
    new_player 16 "Oscar Robertson" PG [SG] "60s"
      25.7 7.5 9.5 0.550 0.000 0.838 6.3 1.2 0.207 0.02 77 205;
    new_player 17 "Dirk Nowitzki" PF [C] "00s"
      20.7 7.5 2.4 0.580 0.384 0.879 3.8 0.7 0.178 0.32 84 245;
    new_player 18 "Kevin Garnett" PF [C] "00s"
      17.8 10.0 3.7 0.547 0.275 0.789 4.6 3.0 0.184 0.10 83 240;
    new_player 19 "Karl Malone" PF [C] "90s"
      25.0 10.1 3.6 0.577 0.274 0.742 4.8 1.4 0.205 0.07 81 250;
    new_player 20 "Charles Barkley" PF [SF] "90s"
      22.1 11.7 3.9 0.612 0.266 0.735 5.5 0.8 0.216 0.08 78 252;
    new_player 21 "Dwyane Wade" SG [PG] "00s"
      22.0 4.7 5.4 0.554 0.293 0.765 4.0 1.6 0.159 0.15 76 220;
    new_player 22 "Allen Iverson" SG [PG] "00s"
      26.7 3.7 6.2 0.518 0.313 0.780 3.8 (-0.5) 0.102 0.32 72 165;
    new_player 23 "Kawhi Leonard" SF [SG] "20s"
      19.9 6.4 3.0 0.600 0.386 0.857 4.8 2.3 0.212 0.30 79 225;
    new_player 24 "Chris Paul" PG [SG] "10s"
      17.5 4.5 9.4 0.589 0.371 0.873 6.9 2.3 0.247 0.30 72 175;
    new_player 25 "James Harden" SG [PG] "10s"
      24.6 5.6 7.1 0.610 0.366 0.860 5.7 0.7 0.222 0.50 77 220;
    new_player 26 "Russell Westbrook" PG [SG] "10s"
      22.0 7.3 8.4 0.520 0.308 0.785 3.5 0.5 0.137 0.25 75 200;
    new_player 27 "Paul Pierce" SF [SG] "00s"
      19.7 5.6 3.5 0.568 0.369 0.806 3.6 1.3 0.178 0.31 79 235;
    new_player 28 "Ray Allen" SG [SF] "00s"
      18.9 4.1 3.4 0.583 0.400 0.892 3.3 0.8 0.157 0.43 77 205;
    new_player 29 "Reggie Miller" SG [SF] "90s"
      18.2 3.0 3.0 0.614 0.395 0.888 3.1 0.7 0.172 0.40 78 185;
    new_player 30 "Steve Nash" PG [SG] "00s"
      14.3 3.0 8.5 0.607 0.428 0.904 5.4 (-0.5) 0.212 0.32 75 178;
    new_player 31 "Jason Kidd" PG [SG] "00s"
      12.6 6.3 8.7 0.515 0.349 0.750 3.6 2.6 0.179 0.30 76 210;
    new_player 32 "Gary Payton" PG [SG] "90s"
      16.3 3.9 6.7 0.533 0.317 0.729 3.2 1.7 0.159 0.18 76 180;
    new_player 33 "Vince Carter" SG [SF] "00s"
      16.7 4.3 3.1 0.548 0.374 0.798 2.2 0.6 0.118 0.30 78 220;
    new_player 34 "Tracy McGrady" SG [SF] "00s"
      19.6 5.6 4.4 0.538 0.338 0.747 4.3 0.5 0.151 0.28 80 225;
    new_player 35 "Carmelo Anthony" SF [PF] "10s"
      22.5 6.2 2.7 0.545 0.353 0.814 2.3 0.0 0.104 0.29 80 238;
    new_player 36 "Chris Bosh" PF [C] "10s"
      19.2 8.5 2.0 0.567 0.339 0.800 2.2 1.0 0.158 0.22 83 235;
    new_player 37 "Dwight Howard" C [PF] "10s"
      15.7 11.8 1.3 0.609 0.180 0.568 1.4 2.8 0.150 0.02 83 265;
    new_player 38 "Yao Ming" C [PF] "00s"
      19.0 9.2 1.6 0.614 0.100 0.833 3.3 1.5 0.200 0.01 88 310;
    new_player 39 "Manu Ginobili" SG [PG] "00s"
      13.3 3.5 3.8 0.580 0.370 0.826 4.7 0.9 0.193 0.30 78 205;
    new_player 40 "Tony Parker" PG [SG] "00s"
      15.5 2.7 5.6 0.551 0.327 0.751 2.3 (-0.3) 0.120 0.12 74 185;
    new_player 41 "Pau Gasol" PF [C] "10s"
      17.0 9.2 3.2 0.579 0.298 0.752 2.4 1.5 0.174 0.10 84 250;
    new_player 42 "Alonzo Mourning" C [PF] "00s"
      17.1 8.5 1.1 0.565 0.100 0.692 1.4 3.3 0.160 0.01 82 240;
    new_player 43 "Dennis Rodman" PF [SF] "90s"
      7.3 13.1 1.8 0.520 0.230 0.584 1.3 2.8 0.161 0.05 79 210;
    new_player 44 "Dikembe Mutombo" C [PF] "00s"
      9.8 10.3 0.9 0.523 0.000 0.685 (-0.4) 3.0 0.147 0.00 85 245;
    new_player 45 "Andre Iguodala" SF [SG] "10s"
      11.3 4.9 4.2 0.544 0.329 0.707 2.1 1.9 0.128 0.21 78 215;
    new_player 46 "Shane Battier" SF [PF] "00s"
      8.6 4.2 1.8 0.580 0.385 0.747 1.0 1.7 0.102 0.40 80 220;
    new_player 47 "Trevor Ariza" SF [SG] "10s"
      10.4 4.8 2.1 0.530 0.351 0.774 0.5 1.3 0.092 0.45 80 215;
    new_player 48 "PJ Tucker" PF [SF] "20s"
      6.9 5.5 1.3 0.566 0.363 0.760 0.3 1.4 0.090 0.50 77 245;
    new_player 49 "Patrick Beverley" PG [SG] "10s"
      8.5 3.4 3.2 0.525 0.372 0.756 0.9 1.9 0.103 0.38 73 180;
    new_player 50 "Derrick White" SG [PG] "20s"
      12.4 3.4 4.1 0.586 0.368 0.869 1.5 1.5 0.121 0.35 76 190;
    new_player 51 "Marcus Smart" PG [SG] "20s"
      10.6 3.5 4.6 0.525 0.325 0.782 1.8 1.9 0.105 0.40 76 220;
    new_player 52 "Robert Horry" PF [SF] "00s"
      7.0 4.8 2.1 0.533 0.341 0.728 0.8 1.0 0.096 0.30 82 240;
    new_player 53 "Derek Fisher" PG [SG] "00s"
      8.3 2.1 3.0 0.519 0.377 0.813 0.7 0.8 0.084 0.35 73 200;
    new_player 54 "Boris Diaw" PF [C] "10s"
      8.6 4.4 3.5 0.553 0.334 0.727 1.5 0.9 0.111 0.25 80 250;
    new_player 55 "Thabo Sefolosha" SG [SF] "10s"
      5.9 3.9 1.5 0.552 0.353 0.747 0.2 1.7 0.087 0.30 79 215;
    new_player 56 "Danny Green" SG [SF] "10s"
      8.7 3.4 1.5 0.561 0.401 0.797 0.8 1.5 0.110 0.50 78 215;
    new_player 57 "Tyson Chandler" C [PF] "10s"
      8.2 9.0 0.9 0.638 0.000 0.643 0.3 2.1 0.167 0.00 85 240;
    new_player 58 "Steven Adams" C [PF] "20s"
      9.2 8.2 1.6 0.595 0.000 0.528 0.7 1.3 0.138 0.01 83 265;
    new_player 59 "DeAndre Jordan" C [PF] "10s"
      9.0 10.3 1.0 0.647 0.000 0.470 0.3 1.8 0.171 0.01 83 265;
    new_player 60 "Jae Crowder" PF [SF] "20s"
      10.0 4.3 2.0 0.538 0.353 0.775 0.7 1.1 0.095 0.40 78 235;
    new_player 61 "Joe Harris" SG [SF] "20s"
      10.6 3.2 1.6 0.621 0.439 0.796 1.2 0.3 0.123 0.60 78 220;
    new_player 62 "Kyle Korver" SG [SF] "10s"
      9.7 2.8 1.7 0.604 0.429 0.878 0.8 0.3 0.130 0.60 79 212;
    new_player 63 "Kendrick Perkins" C [PF] "10s"
      5.4 5.8 0.9 0.515 0.000 0.589 (-1.4) 2.5 0.067 0.00 82 270;
    new_player 64 "Nick Collison" PF [C] "10s"
      5.9 5.2 1.0 0.552 0.100 0.768 0.3 1.1 0.089 0.01 81 255;
    new_player 65 "Iman Shumpert" SG [SF] "10s"
      7.3 3.4 1.8 0.497 0.337 0.757 (-0.5) 1.3 0.062 0.35 77 215;
    new_player 66 "Avery Bradley" SG [PG] "10s"
      11.0 2.9 1.8 0.533 0.366 0.781 0.8 1.2 0.092 0.38 74 180;
    new_player 67 "Cory Joseph" PG [SG] "20s"
      7.0 2.5 3.0 0.538 0.344 0.780 0.1 0.5 0.080 0.25 75 200;
    new_player 68 "Royce O'Neale" SF [PF] "20s"
      8.3 4.6 2.4 0.565 0.381 0.773 0.5 0.8 0.098 0.45 77 225;
    new_player 69 "Delon Wright" PG [SG] "20s"
      7.0 3.2 3.0 0.550 0.358 0.788 1.1 1.3 0.106 0.30 77 185;
    new_player 70 "Doug Christie" SG [SF] "00s"
      11.2 4.1 3.6 0.531 0.355 0.788 1.4 1.9 0.109 0.25 77 200;
    new_player 71 "Tayshaun Prince" SF [PF] "00s"
      11.1 4.3 2.4 0.528 0.370 0.757 0.5 1.5 0.093 0.28 81 215;
    new_player 72 "Raja Bell" SG [SF] "00s"
      9.9 2.9 1.7 0.552 0.406 0.780 0.3 1.1 0.091 0.45 77 210;
    new_player 73 "Jared Dudley" SF [PF] "10s"
      7.3 3.2 1.5 0.548 0.390 0.740 0.1 0.7 0.084 0.35 78 230;
    new_player 74 "Quentin Richardson" SG [SF] "00s"
      10.3 4.7 1.5 0.517 0.357 0.700 0.3 0.4 0.076 0.42 78 220;
    new_player 75 "Anthony Tolliver" PF [C] "10s"
      6.4 3.4 0.8 0.551 0.379 0.773 0.2 0.3 0.070 0.42 80 240;
    new_player 76 "Michael Cooper" SG [SF] "80s"
      8.9 3.2 4.2 0.531 0.345 0.833 1.6 1.5 0.118 0.25 77 174;
    new_player 77 "Kurt Rambis" PF [C] "80s"
      5.2 5.6 1.1 0.540 0.000 0.700 0.3 0.7 0.075 0.01 80 213;
    new_player 78 "Bill Cartwright" C [PF] "90s"
      13.2 6.3 1.4 0.531 0.000 0.779 0.2 1.0 0.108 0.01 85 245;
    new_player 79 "Horace Grant" PF [C] "90s"
      11.2 8.1 2.2 0.558 0.200 0.741 1.5 1.4 0.135 0.10 81 215;
    new_player 80 "Bryon Russell" SF [SG] "90s"
      8.9 3.7 1.3 0.530 0.379 0.757 0.6 0.8 0.097 0.35 79 215;
    new_player 81 "Luc Longley" C [PF] "90s"
      7.2 4.9 1.7 0.525 0.000 0.737 0.3 0.9 0.089 0.01 86 265;
    new_player 82 "Derek Harper" PG [SG] "90s"
      13.3 2.4 5.5 0.528 0.359 0.800 1.1 1.5 0.120 0.30 73 185;
    new_player 83 "Rick Fox" SF [PF] "00s"
      9.6 3.8 2.8 0.537 0.348 0.770 0.9 1.1 0.093 0.33 79 230;
    new_player 84 "Doug Christie" SG [SF] "00s"
      11.2 4.1 3.6 0.531 0.355 0.788 1.4 1.9 0.109 0.25 77 200;
    new_player 85 "Antonio Davis" PF [C] "90s"
      10.0 7.5 1.2 0.513 0.000 0.758 0.6 1.2 0.110 0.01 81 245;
    new_player 86 "Matt Bonner" PF [C] "00s"
      6.9 3.1 0.8 0.582 0.414 0.782 (-0.3) 0.2 0.100 0.60 82 235;
    new_player 87 "James Posey" SF [SG] "00s"
      8.6 4.7 1.6 0.530 0.369 0.795 0.5 1.0 0.102 0.38 80 215;
    new_player 88 "Eduardo Nájera" PF [SF] "00s"
      5.1 3.7 0.9 0.525 0.200 0.710 (-0.4) 1.0 0.070 0.10 80 235;
    new_player 89 "Jared Jeffries" SF [PF] "00s"
      4.8 4.1 1.3 0.493 0.265 0.685 (-0.5) 1.1 0.068 0.20 81 230;
    new_player 90 "Desmond Mason" SG [SF] "00s"
      12.1 4.5 1.6 0.519 0.303 0.780 0.2 0.6 0.091 0.18 77 222;
    new_player 91 "Keith Bogans" SG [SF] "00s"
      6.3 2.7 1.3 0.494 0.353 0.754 (-0.4) 0.6 0.073 0.35 77 215;
    new_player 92 "Rasho Nesterović" C [PF] "00s"
      6.8 5.1 0.9 0.526 0.000 0.732 0.2 1.4 0.094 0.01 84 250;
    new_player 93 "Steve Blake" PG [SG] "00s"
      6.5 2.1 4.0 0.520 0.388 0.796 0.3 0.6 0.082 0.34 75 185;
    new_player 94 "Francisco Garcia" SG [SF] "00s"
      7.9 2.6 1.4 0.531 0.362 0.805 0.1 0.4 0.087 0.38 78 195;
    new_player 95 "Reggie Evans" PF [C] "00s"
      4.1 7.1 0.4 0.510 0.000 0.540 (-1.6) 2.3 0.071 0.00 80 245;
    new_player 96 "Ish Smith" PG [SG] "20s"
      7.3 2.4 3.8 0.502 0.310 0.725 0.2 0.1 0.085 0.25 72 175;
    new_player 97 "Maxi Kleber" PF [C] "20s"
      7.3 4.2 1.1 0.552 0.366 0.795 0.6 1.2 0.108 0.48 82 230;
    new_player 98 "Royce White" PF [SF] "10s"
      3.0 2.3 1.2 0.465 0.250 0.667 (-1.2) 0.5 0.060 0.20 80 260;
    new_player 99 "Cody Zeller" C [PF] "20s"
      8.5 6.0 1.3 0.568 0.229 0.758 0.4 1.0 0.105 0.05 84 240;
    new_player 100 "Cam Payne" PG [SG] "20s"
      8.9 2.0 3.7 0.542 0.360 0.780 0.5 0.3 0.096 0.35 73 183;
    new_player 101 "Darius Bazley" PF [SF] "20s"
      7.3 4.3 0.9 0.495 0.321 0.691 (-0.8) 1.0 0.082 0.30 80 220;
    new_player 102 "Isaiah Joe" SG [PG] "20s"
      6.5 1.8 1.2 0.598 0.407 0.860 (-0.4) 0.2 0.097 0.66 75 170
  ].

(** The load-time loop [for p in PLAYER_DB: p.ratings = build_player_ratings(p)]. *)
Definition PLAYER_DB : list Player :=
  map (fun p => set_ratings p (build_player_ratings p)) PLAYER_ROWS.

(* ------------------------------------------------------------------ *)
(** ** Teams and synergy *)

(** [Team]: a name and a lineup with one player per position. *)
Record Team : Type := mkTeam {
  tname : string;
  lineup : Pos -> Player
}.

Definition all_players (t : Team) : list Player := map (lineup t) POSITIONS.

(** The dictionary returned by [team_synergy]; its seven keys are fixed. *)
Record Synergy : Type := mkSynergy {
  spacing : Q;
  rim_pressure : Q;
  ball_move : Q;
  int_def : Q;
  per_def : Q;
  rebounding : Q;
  pace : Q
}.

(** [sum(f(p) for p in players) / len(players)] *)
Definition average (f : Player -> Q) (players : list Player) : Q :=
  (py_sum (map f players) / inject_Z (Z.of_nat (List.length players)))%Q.

Definition team_synergy (t : Team) : Synergy :=
  let players := all_players t in
  let spacing :=
    average (fun p => three (ratings p) * (0.5 + three_tendency (ratings p)))%Q
            players in
  let rim_pressure := average (fun p => finishing (ratings p)) players in
  let ball_move := average (fun p => playmaking (ratings p)) players in
  let int_def :=
    average (fun p => if pos_in (pos_primary p) [PF; C]
                      then r_int_def (ratings p)
                      else (r_int_def (ratings p) * 0.8)%Q) players in
  let per_def :=
    average (fun p => if pos_in (pos_primary p) [PG; SG; SF]
                      then r_per_def (ratings p)
                      else (r_per_def (ratings p) * 0.8)%Q) players in
  let reb := average (fun p => r_rebounding (ratings p)) players in
  let pace := (96 + (ball_move - 50) * 0.1 + (spacing - 50) * 0.05)%Q in
  mkSynergy spacing rim_pressure ball_move int_def per_def reb
            (clamp pace 90 104).

(* ------------------------------------------------------------------ *)
(** ** Randomness and failure

    A computation reads draws from the tape and may raise. *)

Definition tape := nat -> Q.

Definition M (A : Type) : Type := tape -> option (A * tape).

Definition ret {A} (a : A) : M A := fun g => Some (a, g).

Definition bind {A B} (m : M A) (f : A -> M B) : M B :=
  fun g => match m g with
           | Some (a, g') => f a g'
           | None => None
           end.

Definition lift {A} (o : option A) : M A :=
  fun g => match o with Some a => Some (a, g) | None => None end.

Notation "x <- c ;; k" := (bind c (fun x => k))
  (at level 61, c at next level, right associativity).
Notation "' pat <- c ;; k" := (bind c (fun x => match x with pat => k end))
  (at level 61, pat pattern, c at next level, right associativity).

Definition tape_tl (g : tape) : tape := fun n => g (S n).

(** [random.random()] *)
Definition random : M Q := fun g => Some (g O, tape_tl g).

(** [itertools.accumulate(weights)]: the running sums. *)
Fixpoint accumulate_from (acc : Q) (ws : list Q) : list Q :=
  match ws with
  | [] => []
  | w :: ws' => (acc + w)%Q :: accumulate_from (acc + w)%Q ws'
  end.

Definition accumulate (ws : list Q) : list Q :=
  match ws with
  | [] => []
  | w :: ws' => w :: accumulate_from w ws'
  end.

(** [bisect(a, x, 0, hi)] on an ascending list: the number of entries
    among the first [hi] that are not above [x]. *)
Fixpoint bisect (a : list Q) (x : Q) (hi : nat) : nat :=
  match hi, a with
  | S hi', c :: a' => if Qltb x c then O else S (bisect a' x hi')
  | _, _ => O
  end.

(** [random.choices(population, weights=weights, k=1)[0]] as the
    standard library computes it: one draw, scaled by the total weight
    and located among the cumulative weights.  It raises on an empty
    population, on a length mismatch and on a total that is not
    positive. *)
Definition choices {A} (population : list A) (weights : list Q) : M A :=
  let n := List.length population in
  let cum_weights := accumulate weights in
  if negb (Nat.eqb (List.length cum_weights) n) then lift None
  else
    match List.last (map Some cum_weights) None with
    | None => lift None
    | Some total =>
        if Qle_bool total 0 then lift None
        else
          u <- random ;;
          lift (nth_error population
                          (bisect cum_weights (u * total)%Q (n - 1)))
    end.

(* ------------------------------------------------------------------ *)
(** ** Simulation engine *)

(** The statistics update of one possession: [Dict[str, int]]. *)
Definition Stats := sdict Z.

(** [stats[key] = stats.get(key, 0) + v] *)
Definition stat_add (key : string) (v : Z) (stats : Stats) : Stats :=
  sset key (sget_or key 0 stats + v) stats.

Definition tov_prob (off_syn def_syn : Synergy) : Q :=
  let base_tov := 0.125%Q in
  clamp (base_tov - (ball_move off_syn - 50) * 0.001
         + (per_def def_syn - 50) * 0.001)%Q 0.06 0.18.

Definition assist_prob (off_syn : Synergy) (shooter : Player) : Q :=
  let assist_raw :=
    (0.45 + (ball_move off_syn - 50) * 0.012
     + (spacing off_syn - 50) * 0.006
     + (playmaking (ratings shooter) - 50) * 0.015)%Q in
  clamp assist_raw 0.45 0.97.

Definition p3_prob (off_syn def_syn : Synergy) (shooter : Player) : Q :=
  clamp (0.05 + three_tendency (ratings shooter)
         + (spacing off_syn - 50) * 0.002
         - (per_def def_syn - 50) * 0.0015)%Q 0.03 0.65.

Definition make_prob (off_syn def_syn : Synergy) (shooter : Player)
    (is_three : bool) : Q :=
  let '(shot_skill, def_impact) :=
    if is_three then (three (ratings shooter), per_def def_syn)
    else
      let inside_bias :=
        clamp ((rim_pressure off_syn - int_def def_syn) * 0.01 + 0.5)%Q
              0.3 0.7 in
      ((inside_bias * finishing (ratings shooter)
        + (1 - inside_bias) * mid (ratings shooter))%Q,
       (0.7 * int_def def_syn + 0.3 * per_def def_syn)%Q) in
  let base := ((shot_skill - def_impact) * 0.0035 + 0.48)%Q in
  let base := if is_three then (base - 0.07)%Q else base in
  clamp base (if negb is_three then 0.30 else 0.24)%Q
             (if negb is_three then 0.73 else 0.52)%Q.

Definition foul_prob (def_syn : Synergy) (shooter : Player) : Q :=
  clamp (0.05 + (finishing (ratings shooter) - 50) * 0.002
         - (int_def def_syn - 50) * 0.001)%Q 0.03 0.18.

Definition ft_prob (def_syn : Synergy) (shooter : Player) : Q :=
  clamp (0.44 + (ft (ratings shooter) - 50) * 0.006
         - (int_def def_syn - 50) * 0.001)%Q 0.50 0.95.

Definition oreb_prob (off_syn def_syn : Synergy) : Q :=
  let off_reb_edge :=
    ((rebounding off_syn - rebounding def_syn) * 0.003 + 0.24)%Q in
  clamp off_reb_edge 0.16 0.34.

Definition putback_prob (def_syn : Synergy) (shooter : Player) : Q :=
  clamp (0.54 + (finishing (ratings shooter) - 50) * 0.004
         - (int_def def_syn - 50) * 0.003)%Q 0.40 0.80.

(** [drew_foul = (not is_three) and (random.random() < foul_prob)]: the
    draw is taken only for a two-point attempt. *)
Definition draw_foul (is_three : bool) (foul_prob : Q) : M bool :=
  if negb is_three then u <- random ;; ret (Qltb u foul_prob)
  else ret false.

(** The [if made:] branch. *)
Definition made_shot (players : list Player) (shooter : Player)
    (assisted is_three : bool) (stats : Stats) : M (Z * Stats) :=
  let points := if is_three then 3 else 2 in
  let stats := stat_add (stat_key (name shooter) "pts") points stats in
  let stats := stat_add (stat_key (name shooter) "fga") 1 stats in
  let stats := stat_add (stat_key (name shooter) "fgm") 1 stats in
  if assisted then
    let mates := filter (fun p => negb (is_obj p shooter)) players in
    let weights := map (fun tm => py_max 1.0 (playmaking (ratings tm))) mates in
    passer <- choices mates weights ;;
    ret (points, stat_add (stat_key (name passer) "ast") 1 stats)
  else ret (points, stats).

(** The loop [for _ in range(2)] over the free throws. *)
Fixpoint free_throws (n : nat) (def_syn : Synergy) (shooter : Player)
    (ft_makes : Z) : M Z :=
  match n with
  | O => ret ft_makes
  | S n' =>
      let ft_prob := ft_prob def_syn shooter in
      u <- random ;;
      free_throws n' def_syn shooter
                  (if Qltb u ft_prob then ft_makes + 1 else ft_makes)
  end.

(** From [# Rebound chance] to the end of [possession]. *)
Definition rebound_chain (off defn : Team) (off_syn def_syn : Synergy)
    (players : list Player) (shooter : Player) (stats : Stats)
    : M (Z * Stats) :=
  u <- random ;;
  let oreb := Qltb u (oreb_prob off_syn def_syn) in
  if oreb then
    let weights := map (fun p => py_max 1.0 (r_rebounding (ratings p))) players in
    boarder <- choices players weights ;;
    let stats := stat_add (stat_key (name boarder) "orb") 1 stats in
    let putback_prob := putback_prob def_syn shooter in
    u <- random ;;
    if Qltb u putback_prob then
      let stats := stat_add (stat_key (name shooter) "pts") 2 stats in
      let stats := stat_add (stat_key (name shooter) "fga") 1 stats in
      let stats := stat_add (stat_key (name shooter) "fgm") 1 stats in
      ret (2, stats)
    else
      let stats := stat_add (stat_key (name shooter) "fga") 1 stats in
      ret (0, stats)
  else
    let defenders := all_players defn in
    let weights_def :=
      map (fun p => py_max 1.0 (r_rebounding (ratings p))) defenders in
    dboarder <- choices defenders weights_def ;;
    let stats := stat_add (stat_key (name dboarder) "drb") 1 stats in
    ret (0, stats).

(** The missed-shot path: the attempt, the free throws of a drawn foul,
    then the rebound. *)
Definition missed_shot (off defn : Team) (off_syn def_syn : Synergy)
    (players : list Player) (shooter : Player) (drew_foul : bool)
    (stats : Stats) : M (Z * Stats) :=
  let stats := stat_add (stat_key (name shooter) "fga") 1 stats in
  if drew_foul then
    ft_makes <- free_throws 2 def_syn shooter 0 ;;
    if negb (Z.eqb ft_makes 0) then
      let stats := stat_add (stat_key (name shooter) "pts") ft_makes stats in
      let stats := stat_add (stat_key (name shooter) "fta") 2 stats in
      let stats := stat_add (stat_key (name shooter) "ftm") ft_makes stats in
      ret (ft_makes, stats)
    else rebound_chain off defn off_syn def_syn players shooter stats
  else rebound_chain off defn off_syn def_syn players shooter stats.

(** [possession] after the turnover check: shooter, assist, shot type,
    foul and make draws, then the made or the missed path. *)
Definition shot_attempt (off defn : Team) (off_syn def_syn : Synergy)
    (stats : Stats) : M (Z * Stats) :=
  let players := all_players off in
  let weights := map (fun p => py_max 0.05 (usage (ratings p))) players in
  shooter <- choices players weights ;;
  let assist_prob := assist_prob off_syn shooter in
  u <- random ;;
  let assisted := Qltb u assist_prob in
  let p3 := p3_prob off_syn def_syn shooter in
  u <- random ;;
  let is_three := Qltb u p3 in
  let make_prob := make_prob off_syn def_syn shooter is_three in
  let foul_prob := foul_prob def_syn shooter in
  drew_foul <- draw_foul is_three foul_prob ;;
  u <- random ;;
  let made := Qltb u make_prob in
  if made then made_shot players shooter assisted is_three stats
  else missed_shot off defn off_syn def_syn players shooter drew_foul stats.

(** [possession(off, defn)]: the points scored and the statistics
    update. *)
Definition possession (off defn : Team) : M (Z * Stats) :=
  let stats : Stats := [] in
  let off_syn := team_synergy off in
  let def_syn := team_synergy defn in
  let tov := tov_prob off_syn def_syn in
  u <- random ;;
  if Qltb u tov then ret (0, stats)
  else shot_attempt off defn off_syn def_syn stats.

(** ** The game *)

(** A box-score line and the box score. *)
Definition Row := sdict Z.
Definition Box := sdict Row.

Definition new_row : Row :=
  [("pts", 0); ("fga", 0); ("fgm", 0); ("fta", 0); ("ftm", 0);
   ("ast", 0); ("orb", 0); ("drb", 0)]%string.

(** The body of [merge_stats]'s loop for one item [(k, v)]. *)
Definition merge_one (box : Box) (k : string) (v : Z) : option Box :=
  match rsplit1 k with
  | None => None
  | Some (player_key, stat) =>
      let box := if negb (smem player_key box)
                 then sset player_key new_row box else box in
      match sget player_key box with
      | None => None
      | Some row =>
          Some (sset player_key (sset stat (sget_or stat 0 row + v) row) box)
      end
  end.

Fixpoint merge_stats (box : Box) (updates : Stats) : option Box :=
  match updates with
  | [] => Some box
  | (k, v) :: rest =>
      match merge_one box k v with
      | Some box' => merge_stats box' rest
      | None => None
      end
  end.

(** The dictionary [simulate_game] returns. *)
Record Result : Type := mkResult {
  score : Z * Z;
  box : Box;
  syn : sdict Synergy;
  possessions : Z
}.

(** The running state of the loop: both scores and the box. *)
Definition GameState : Type := (Z * Z * Box)%type.

(** One iteration of [for i in range(possessions*2)]. *)
Definition game_step (team_a team_b : Team) (i : nat) (st : GameState)
    : M GameState :=
  let '(score_a, score_b, box) := st in
  if Nat.eqb (i mod 2) 0 then
    '(pts, updates) <- possession team_a team_b ;;
    box' <- lift (merge_stats box updates) ;;
    ret (score_a + pts, score_b, box')
  else
    '(pts, updates) <- possession team_b team_a ;;
    box' <- lift (merge_stats box updates) ;;
    ret (score_a, score_b + pts, box').

Fixpoint game_loop (team_a team_b : Team) (range : list nat) (st : GameState)
    : M GameState :=
  match range with
  | [] => ret st
  | i :: range' =>
      st' <- game_step team_a team_b i st ;;
      game_loop team_a team_b range' st'
  end.

Section Game.
(** The tape [random.seed(s)] installs. *)
Variable rng_seed : Z -> tape.

(** [if seed is not None: random.seed(seed)] *)
Definition seed_rng (seed : option Z) : M unit :=
  fun g => Some (tt, match seed with Some s => rng_seed s | None => g end).

Definition simulate_game (team_a team_b : Team) (seed : option Z)
    : M Result :=
  _ <- seed_rng seed ;;
  let a_syn := team_synergy team_a in
  let b_syn := team_synergy team_b in
  let pace := ((pace a_syn + pace b_syn) / 2.0)%Q in
  let possessions := py_int pace in
  '(score_a, score_b, box) <-
    game_loop team_a team_b (seq 0 (Z.to_nat (possessions * 2)))
              (0, 0, []) ;;
  ret (mkResult (score_a, score_b) box
                (sset (tname team_b) b_syn (sset (tname team_a) a_syn []))
                (possessions * 2)).
End Game.

(** ** Reading a box score *)

(** [result['box'].get(name, {}).get(stat, 0)], as [print_box] and
    [team_box_rows] read a line. *)
Definition box_stat (box : Box) (name stat : string) : Z :=
  sget_or stat 0 (sget_or name [] box).

(** The sum of the updates of one statistic in a possession's update,
    keys split as [merge_stats] splits them. *)
Fixpoint stat_total (stat : string) (updates : Stats) : Z :=
  match updates with
  | [] => 0
  | (k, v) :: rest =>
      match rsplit1 k with
      | Some (_, s) => (if String.eqb s stat then v else 0) + stat_total stat rest
      | None => stat_total stat rest
      end
  end.

(** The sum of one statistic over the box lines of a list of players. *)
Definition team_total (box : Box) (stat : string) (players : list Player) : Z :=
  fold_right (fun p acc => box_stat box (name p) stat + acc) 0 players.

(** A string without an underscore, as every statistic's name is. *)
Fixpoint no_underscore (s : string) : bool :=
  match s with
  | EmptyString => true
  | String c rest => negb (Ascii.eqb c underscore) && no_underscore rest
  end.

(** A statistics update written as the list of its [(name, stat, value)]
    items, in insertion order. *)
Definition Item : Type := (string * string * Z)%type.

Definition stats_of (items : list Item) : Stats :=
  map (fun it : Item => let '(n, s, v) := it in (stat_key n s, v)) items.

(** What an update adds to the statistic [s] of the player named [n]. *)
Definition item_total (items : list Item) (n s : string) : Z :=
  fold_right
    (fun (it : Item) acc =>
       let '(n', s', v) := it in
       (if String.eqb n' n && String.eqb s' s then v else 0) + acc)
    0 items.

(** The seven ways a possession ends, each with the points it returns and
    the update it records. *)
Inductive outcome (off defn : Team) : Z -> list Item -> Prop :=
| out_turnover : outcome off defn 0 []
| out_made : forall shooter pts,
    In shooter (all_players off) -> pts = 2 \/ pts = 3 ->
    outcome off defn pts
      [(name shooter, "pts", pts); (name shooter, "fga", 1);
       (name shooter, "fgm", 1)]%string
| out_assisted : forall shooter passer pts,
    In shooter (all_players off) -> In passer (all_players off) ->
    passer <> shooter -> pts = 2 \/ pts = 3 ->
    outcome off defn pts
      [(name shooter, "pts", pts); (name shooter, "fga", 1);
       (name shooter, "fgm", 1); (name passer, "ast", 1)]%string
| out_free_throws : forall shooter ft_makes,
    In shooter (all_players off) -> ft_makes = 1 \/ ft_makes = 2 ->
    outcome off defn ft_makes
      [(name shooter, "fga", 1); (name shooter, "pts", ft_makes);
       (name shooter, "fta", 2); (name shooter, "ftm", ft_makes)]%string
| out_putback : forall shooter boarder,
    In shooter (all_players off) -> In boarder (all_players off) ->
    outcome off defn 2
      [(name shooter, "fga", 2); (name boarder, "orb", 1);
       (name shooter, "pts", 2); (name shooter, "fgm", 1)]%string
| out_putback_missed : forall shooter boarder,
    In shooter (all_players off) -> In boarder (all_players off) ->
    outcome off defn 0
      [(name shooter, "fga", 2); (name boarder, "orb", 1)]%string
| out_def_rebound : forall shooter dboarder,
    In shooter (all_players off) -> In dboarder (all_players defn) ->
    outcome off defn 0
      [(name shooter, "fga", 1); (name dboarder, "drb", 1)]%string.



(** A tape that replays a list of draws and then repeats [0]. *)
Definition tape_of (draws : list Q) : tape := fun n => nth n draws 0%Q.

(* ------------------------------------------------------------------ *)
(** ** Command-line draft *)

Definition list_by_position (pos : Pos) (pool : list Player) : list Player :=
  filter (fun p => Pos_eqb (pos_primary p) pos || pos_in pos (pos_secondary p))
         pool.

(** [available.remove(sel)]: the first entry equal to [sel] goes;
    [None] when there is none (the call raises). *)
Fixpoint list_remove (sel : Player) (available : list Player)
    : option (list Player) :=
  match available with
  | [] => None
  | p :: rest =>
      if player_eqb p sel then Some rest
      else match list_remove sel rest with
           | Some rest' => Some (p :: rest')
           | None => None
           end
  end.

(** The loop of [draft_team] over the positions.  The sample of options
    shown and the prompt are represented by the player selected at each
    position, who is one of the candidates; the call raises when a
    position has no candidate. *)
Fixpoint draft_positions (positions : list Pos) (sels : list Player)
    (lineup : dict Pos Player) (available : list Player)
    : option (dict Pos Player * list Player) :=
  match positions, sels with
  | [], _ => Some (lineup, available)
  | pos :: positions', sel :: sels' =>
      let candidates := list_by_position pos available in
      match candidates with
      | [] => None
      | _ :: _ =>
          if existsb (is_obj sel) candidates then
            match list_remove sel available with
            | Some available' =>
                draft_positions positions' sels'
                  (dict_set Pos_eqb pos sel lineup) available'
            | None => None
            end
          else None
      end
  | _ :: _, [] => None
  end.

Definition draft_team (sels : list Player) (available : list Player)
    : option (dict Pos Player * list Player) :=
  draft_positions POSITIONS sels [] available.

(* ------------------------------------------------------------------ *)
(** ** Web draft: the session state and the snake order

    The keys of [st.session_state] that hold the draft.  The cached
    option lists and the widget values are display state and are left
    out. *)

Definition TeamDict := dict Pos (option Player).

Record DraftState : Type := mkDraft {
  pool : list Player;
  team_a : TeamDict;
  team_b : TeamDict;
  draft_round : Z;
  draft_index : Z;
  history : list (string * Pos * Player)
}.

Definition empty_team : TeamDict := map (fun pos => (pos, None)) POSITIONS.

(** The state after the initialisation block, and after [reset_all]. *)
Definition init_state : DraftState :=
  mkDraft PLAYER_DB empty_team empty_team 1 0 [].

Definition current_team_name (st : DraftState) : string :=
  let r := draft_round st in
  let idx := draft_index st in
  if Z.eqb (r mod 2) 1
  then (if Z.eqb idx 0 then "Team A" else "Team B")
  else (if Z.eqb idx 0 then "Team B" else "Team A").

Definition team_dict (name : string) (st : DraftState) : TeamDict :=
  if String.eqb name "Team A" then team_a st else team_b st.

(** [team_dict(name)[pos] = v] *)
Definition set_team_slot (name : string) (pos : Pos) (v : option Player)
    (st : DraftState) : DraftState :=
  if String.eqb name "Team A"
  then mkDraft (pool st) (dict_set Pos_eqb pos v (team_a st)) (team_b st)
               (draft_round st) (draft_index st) (history st)
  else mkDraft (pool st) (team_a st) (dict_set Pos_eqb pos v (team_b st))
               (draft_round st) (draft_index st) (history st).

Definition unfilled_positions (name : string) (st : DraftState) : list Pos :=
  let t := team_dict name st in
  filter (fun pos => match dict_get Pos_eqb pos t with
                     | Some None => true
                     | _ => false
                     end) POSITIONS.

Definition make_pick (team_name : string) (pos : Pos) (player : Player)
    (st : DraftState) : DraftState :=
  let st := set_team_slot team_name pos (Some player) st in
  let pool' :=
    filter (fun p => negb (String.eqb (name p) (name player))) (pool st) in
  let history' := history st ++ [(team_name, pos, player)] in
  if Z.eqb (draft_index st) 0
  then mkDraft pool' (team_a st) (team_b st) (draft_round st) 1 history'
  else mkDraft pool' (team_a st) (team_b st) (draft_round st + 1) 0 history'.

Definition undo_last (st : DraftState) : DraftState :=
  match rev (history st) with
  | [] => st
  | (team_name, pos, player) :: older =>
      let history' := rev older in
      let '(round', index') :=
        if Z.eqb (draft_index st) 1 then (draft_round st, 0)
        else (Z.max 1 (draft_round st - 1), 1) in
      let st := set_team_slot team_name pos None st in
      mkDraft (pool st ++ [player]) (team_a st) (team_b st)
              round' index' history'
  end.

(** The condition under which the page offers a pick. *)
Definition draft_open (st : DraftState) : bool := Z.leb (draft_round st) 5.

(** A pick the page can send to [make_pick]: the draft is open, the
    position is an unfilled one of the team on the clock, and the
    player is a candidate for it from the pool. *)
Definition legal_pick (st : DraftState) (pos : Pos) (player : Player) : Prop :=
  draft_open st = true /\
  In pos (unfilled_positions (current_team_name st) st) /\
  In player (list_by_position pos (pool st)).

(** The [Make Pick] button. *)
Definition click_pick (st : DraftState) (pos : Pos) (player : Player)
    : DraftState :=
  make_pick (current_team_name st) pos player st.

(** The players held by the slots of a team. *)
Definition drafted_of (t : TeamDict) : list Player :=
  flat_map (fun kv : Pos * option Player =>
              match snd kv with Some p => [p] | None => [] end) t.

Definition drafted (st : DraftState) : list Player :=
  drafted_of (team_a st) ++ drafted_of (team_b st).

(** States reached from the initial one by picks and undos. *)
Inductive reachable : DraftState -> Prop :=
| reach_init : reachable init_state
| reach_pick : forall st pos player,
    reachable st -> legal_pick st pos player ->
    reachable (click_pick st pos player)
| reach_undo : forall st,
    reachable st -> history st <> [] -> reachable (undo_last st).

(** The teams on the clock over a run of picks, and the state it ends in. *)
Fixpoint clock_trace (picks : list (Pos * Player)) (st : DraftState)
    : list string :=
  match picks with
  | [] => []
  | (pos, player) :: rest =>
      current_team_name st :: clock_trace rest (click_pick st pos player)
  end.

Fixpoint run_picks (picks : list (Pos * Player)) (st : DraftState)
    : DraftState :=
  match picks with
  | [] => st
  | (pos, player) :: rest => run_picks rest (click_pick st pos player)
  end.

(** The snake order as the specification words it, to compare with the
    pointer arithmetic of [make_pick]: five rounds of two picks, Team A
    first in the odd rounds and Team B first in the even ones. *)
Definition snake_order : list (Z * string) :=
  flat_map (fun r => if Z.odd r
                     then [(r, "Team A"); (r, "Team B")]
                     else [(r, "Team B"); (r, "Team A")])%string
           [1; 2; 3; 4; 5].

(** The teams on the clock over [n] picks from the pointer
    [(draft_round, draft_index)]. *)
Fixpoint slots_from (r idx : Z) (n : nat) : list string :=
  match n with
  | O => []
  | S n' =>
      (if Z.eqb (r mod 2) 1
       then (if Z.eqb idx 0 then "Team A" else "Team B")
       else (if Z.eqb idx 0 then "Team B" else "Team A"))%string
      :: (if Z.eqb idx 0 then slots_from r 1 n' else slots_from (r + 1) 0 n')
  end.

(** [any(p is q for q in l)]: the object [p] is an entry of [l]. *)
Definition holds (l : list Player) (p : Player) : bool := existsb (is_obj p) l.

(* ------------------------------------------------------------------ *)
(** ** Vocabulary of the proofs *)

(** Every result a computation can return satisfies [Q]. *)
Definition ensures {A} (m : M A) (Q : A -> Prop) : Prop :=
  forall g a g', m g = Some (a, g') -> Q a.

(** A computation that returns from every generator state. *)
Definition succeeds {A} (m : M A) : Prop :=
  forall g, exists a g', m g = Some (a, g').

(** The statistics named by a list of items are proper statistic names. *)
Definition items_ok (items : list Item) : Prop :=
  Forall (fun it : Item => no_underscore (snd (fst it)) = true) items.

(** [stats[key] = stats.get(key, 0) + v] on the items of an update: the
    item of a key already present is raised in place, a new one goes to
    the end. *)
Fixpoint item_add (n s : string) (v : Z) (items : list Item) : list Item :=
  match items with
  | [] => [(n, s, 0 + v)]
  | (n', s', v') :: rest =>
      if String.eqb s s' && String.eqb n n'
      then (n', s', v' + v) :: rest
      else (n', s', v') :: item_add n s v rest
  end.

(** The first item of an update for the statistic [s] of the player
    named [n]. *)
Fixpoint item_get (n s : string) (items : list Item) : option Z :=
  match items with
  | [] => None
  | (n', s', v) :: rest =>
      if String.eqb s s' && String.eqb n n' then Some v else item_get n s rest
  end.

(** The postcondition of a possession: its update is a list of items in
    one of the seven outcomes. *)
Definition good (off defn : Team) (r : Z * Stats) : Prop :=
  exists items, snd r = stats_of items /\ outcome off defn (fst r) items.

(* ------------------------------------------------------------------ *)
(** ** Example inputs *)

Definition nobody : Player :=
  new_player 0 EmptyString PG [] EmptyString 0 0 0 0 0 0 0 0 0 0 0 0.

(** [PLAYER_DB[i]] *)
Definition db (i : nat) : Player := nth i PLAYER_DB nobody.

Definition example_a : Team :=
  mkTeam "Team A"
    (fun pos => match pos with
                | PG => db 3 | SG => db 0 | SF => db 1 | PF => db 6 | C => db 2
                end).

Definition example_b : Team :=
  mkTeam "Team B"
    (fun pos => match pos with
                | PG => db 9 | SG => db 7 | SF => db 4 | PF => db 12 | C => db 5
                end).

(** A stand-in for the generator: the tape a seed installs. *)
Definition example_seed (s : Z) : tape :=
  fun n => (inject_Z ((s + 7919 * Z.of_nat n * Z.of_nat n
                       + 104729 * Z.of_nat n) mod 1000) / 1000)%Q.

(** The selections of the two command-line drafts of the example: both
    take the second Doug Christie row at shooting guard. *)
Definition cli_picks_a : list Player := [db 3; db 84; db 1; db 6; db 2].
Definition cli_picks_b : list Player := [db 9; db 84; db 4; db 11; db 5].

(* ------------------------------------------------------------------ *)
(** ** Further vocabulary *)

(** The keys of a box-score line, in the order [merge_stats] creates them. *)
Definition STAT_KEYS : list string :=
  ["pts"; "fga"; "fgm"; "fta"; "ftm"; "ast"; "orb"; "drb"]%string.

(** A box whose lines are keyed by pairwise distinct names out of
    [names], each line holding exactly the eight statistics. *)
Definition box_wf (names : list string) (box : Box) : Prop :=
  NoDup (map fst box) /\
  forall n row, In (n, row) box -> In n names /\ map fst row = STAT_KEYS.

(** The sum of the updates of one statistic in the items of an outcome. *)
Definition items_stat (items : list Item) (stat : string) : Z :=
  fold_right (fun (it : Item) acc =>
                (if String.eqb (snd (fst it)) stat then snd it else 0) + acc)
             0 items.

(** The four team-level inequalities of the box, for team [x] against
    team [y]. *)
Definition team_line (box : Box) (x y : Team) : Prop :=
  0 <= team_total box "ast" (all_players x)
    <= team_total box "fgm" (all_players x) /\
  0 <= team_total box "orb" (all_players x) /\
  0 <= team_total box "drb" (all_players y) /\
  team_total box "orb" (all_players x) + team_total box "drb" (all_players y)
    <= team_total box "fga" (all_players x)
       - team_total box "fgm" (all_players x).

(** The ranges of the ratings of a player, as [build_player_ratings]
    sets them. *)
Definition rated (r : Ratings) : Prop :=
  (0 <= finishing r <= 99)%Q /\ (0 <= three r <= 99)%Q /\
  (0 <= mid r <= 99)%Q /\ (0 <= ft r <= 99)%Q /\
  (0 <= playmaking r <= 99)%Q /\ (0 <= r_per_def r <= 99)%Q /\
  (0 <= r_int_def r <= 99)%Q /\ (0 <= r_rebounding r <= 99)%Q /\
  (0 <= athletic r <= 99)%Q /\ (0.10 <= usage r <= 0.40)%Q /\
  (0 <= three_tendency r <= 0.60)%Q.

(** ** Synergy bars of the web page *)

(** The fill of one bar of [render_bars]: [pct] for the key [pace] and
    for the other keys. *)
Definition bar_pct (is_pace : bool) (val : Q) : Q :=
  if is_pace
  then py_max 0 (py_min 100 ((val - 90) * (100 / (104 - 90))))%Q
  else py_max 0 (py_min 100 val).

(** The argument [int(pct)] handed to [st.progress]. *)
Definition bar_value (is_pace : bool) (val : Q) : Z :=
  py_int (bar_pct is_pace val).

(** The test of [list_by_position]: [pos] is the primary position of
    [p] or one of its secondary positions. *)
Definition eligible (pos : Pos) (p : Player) : bool :=
  Pos_eqb (pos_primary p) pos || pos_in pos (pos_secondary p).

(** A pool without the selected players for an example of the
    command-line draft. *)
Definition small_pool : list Player :=
  [db 9; db 3; db 0; db 1; db 6; db 2; db 7].

Definition small_picks : list Player := [db 3; db 0; db 1; db 6; db 2].

(* ------------------------------------------------------------------ *)
(** ** Automatic picks *)

(** The key both automatic drafts rank candidates by: [score] in
    [auto_pick] and [overall_score] in the web page. *)
Definition overall_score (p : Player) : Q :=
  let r := ratings p in
  (finishing r + three r + mid r + playmaking r + r_per_def r + r_int_def r
   + 0.5 * r_rebounding r)%Q.

(** [max(l, key=key)] after its first item: a later item replaces the
    best one only when its key is strictly greater. *)
Fixpoint max_from (key : Player -> Q) (best : Player) (l : list Player)
    : Player :=
  match l with
  | [] => best
  | x :: l' =>
      if Qltb (key best) (key x) then max_from key x l'
      else max_from key best l'
  end.

(** [max(l, key=key)]; [None] for the [ValueError] on an empty list. *)
Definition max_by (key : Player -> Q) (l : list Player) : option Player :=
  match l with
  | [] => None
  | x :: l' => Some (max_from key x l')
  end.

(** The loop of [auto_pick] over the positions. *)
Fixpoint auto_positions (positions : list Pos) (lineup : dict Pos Player)
    (avail : list Player) : option (dict Pos Player * list Player) :=
  match positions with
  | [] => Some (lineup, avail)
  | pos :: positions' =>
      let cands := list_by_position pos avail in
      match max_by overall_score cands with
      | None => None
      | Some best =>
          match list_remove best avail with
          | Some avail' =>
              auto_positions positions' (dict_set Pos_eqb pos best lineup)
                             avail'
          | None => None
          end
      end
  end.

Definition auto_pick (avail : list Player)
    : option (dict Pos Player * list Player) :=
  auto_positions POSITIONS [] avail.

(** [sorted(l, key=key, reverse=True)]: the stable sort by decreasing
    key, as an insertion sort.  An item goes in front of the first item
    whose key is not greater than its own, so that items with equal keys
    keep the order they had. *)
Fixpoint insert_desc (key : Player -> Q) (x : Player) (l : list Player)
    : list Player :=
  match l with
  | [] => [x]
  | y :: l' =>
      if Qltb (key x) (key y) then y :: insert_desc key x l' else x :: l
  end.

Definition sorted_desc (key : Player -> Q) (l : list Player) : list Player :=
  fold_right (insert_desc key) [] l.

(** [pool_for_position] of the web page. *)
Definition pool_for_position (pool : list Player) (pos : Pos) : list Player :=
  sorted_desc overall_score (list_by_position pos pool).

(** The player the [Auto-Pick] button drafts from the options [shown]
    and the candidates [cands]; [None] when it does nothing. *)
Definition best_from_shown (shown cands : list Player) : option Player :=
  match cands with
  | [] => None
  | c :: _ =>
      match shown with
      | [] => Some c
      | _ :: _ => hd_error (sorted_desc overall_score shown)
      end
  end.

(* ------------------------------------------------------------------ *)
(** ** Web draft: lineups ready for a game *)

(** The truth value of a slot: a player is truthy, [None] is not. *)
Definition filled (v : option Player) : bool :=
  match v with Some _ => true | None => false end.

(** [ready]: [all(team_a.values()) and all(team_b.values())]. *)
Definition ready (st : DraftState) : bool :=
  forallb filled (map snd (team_a st)) && forallb filled (map snd (team_b st)).

(** [build_team], which the page calls once the draft is [ready] and
    every slot holds a player. *)
Definition build_team (name : string) (picks : TeamDict) : Team :=
  mkTeam name (fun pos => match dict_get Pos_eqb pos picks with
                          | Some (Some p) => p
                          | _ => nobody
                          end).

(** The team names of the ten slots of the snake order. *)
Definition SNAKE : list string := map snd snake_order.

(** A row of the database whose name no other row carries. *)
Definition unique_name (q : Player) : Prop :=
  forall q', In q' PLAYER_DB -> name q' = name q -> q' = q.

(** What every state of the draft satisfies. *)
Definition draft_inv (st : DraftState) : Prop :=
  (draft_index st = 0 \/ draft_index st = 1) /\
  1 <= draft_round st /\
  2 * (draft_round st - 1) + draft_index st
  = Z.of_nat (List.length (history st)) /\
  (List.length (history st) <= 10)%nat /\
  map (fun e : string * Pos * Player => fst (fst e)) (history st)
  = firstn (List.length (history st)) SNAKE /\
  map fst (team_a st) = POSITIONS /\
  map fst (team_b st) = POSITIONS /\
  NoDup (map fst (history st)) /\
  (forall T pos p,
     In T ["Team A"; "Team B"]%string ->
     (dict_get Pos_eqb pos (team_dict T st) = Some (Some p)
      <-> In (T, pos, p) (history st))) /\
  NoDup (map name (map snd (history st))) /\
  (forall q, In q (pool st) ->
             ~ In (name q) (map name (map snd (history st)))) /\
  (forall q, In q (pool st) -> In q PLAYER_DB) /\
  (forall e : string * Pos * Player,
     In e (history st) ->
     In (snd e) PLAYER_DB /\ eligible (snd (fst e)) (snd e) = true) /\
  NoDup (pool st) /\
  (forall q, In q PLAYER_DB -> unique_name q ->
             In q (pool st) \/ In q (map snd (history st))).

(** A complete draft of the web page: ten picks in snake order. *)
Definition full_draft_picks : list (Pos * Player) :=
  [(PG, db 3); (PG, db 9); (SG, db 7); (SG, db 0); (SF, db 1);
   (SF, db 4); (PF, db 12); (PF, db 6); (C, db 2); (C, db 5)].

(** Every pick of a run is one the page can send. *)
Fixpoint legal_run (picks : list (Pos * Player)) (st : DraftState) : Prop :=
  match picks with
  | [] => True
  | (pos, player) :: rest =>
      legal_pick st pos player /\ legal_run rest (click_pick st pos player)
  end.

(** ** The schedule, and lineups with repeated players *)




(** The command-line draft that takes both Doug Christie rows, row 70 at
    shooting guard and row 84 at small forward, and the one that takes
    row 84 at both positions. *)
Definition dc_picks : list Player := [db 3; db 70; db 84; db 6; db 2].
Definition dc_picks_twice : list Player := [db 3; db 84; db 84; db 6; db 2].

(** The lineup the first of these drafts builds. *)
Definition dc_team : Team :=
  mkTeam "Team A"
    (fun pos => match pos with
                | PG => db 3 | SG => db 70 | SF => db 84 | PF => db 6 | C => db 2
                end).

(** Draws for which row 70 makes a two-point basket on a pass from row
    84; every later possession is a turnover. *)
Definition dc_tape : tape := tape_of [0.9; 0.3; 0; 0.99; 0.99; 0; 0.6]%Q.

(* ================================================================== *)
(** * Verification *)

(** ** Strings and keys *)

Lemma rsplit1_no_underscore (s : string) :
  no_underscore s = true -> rsplit1 s = None.
Proof.
  induction s as [|c s IH]; simpl; intro H; [reflexivity|].
  apply andb_true_iff in H as [Hc Hs].
  rewrite (IH Hs). apply negb_true_iff in Hc. now rewrite Hc.
Qed.

Lemma rsplit1_stat_key (n s : string) :
  no_underscore s = true -> rsplit1 (stat_key n s) = Some (n, s).
Proof.
  intro Hs. unfold stat_key.
  induction n as [|c n IH]; simpl.
  - rewrite (rsplit1_no_underscore s Hs). reflexivity.
  - rewrite IH. reflexivity.
Qed.

Lemma stat_key_inj (n n' s s' : string) :
  no_underscore s = true -> no_underscore s' = true ->
  stat_key n s = stat_key n' s' -> n = n' /\ s = s'.
Proof.
  intros Hs Hs' E.
  pose proof (rsplit1_stat_key n s Hs) as H1.
  rewrite E, (rsplit1_stat_key n' s' Hs') in H1.
  now inversion H1.
Qed.

Lemma stat_key_eqb (n n' s s' : string) :
  no_underscore s = true -> no_underscore s' = true ->
  String.eqb (stat_key n s) (stat_key n' s')
  = String.eqb n n' && String.eqb s s'.
Proof.
  intros Hs Hs'.
  destruct (String.eqb_spec (stat_key n s) (stat_key n' s')) as [E|E].
  - apply stat_key_inj in E as [-> ->]; trivial.
    now rewrite !String.eqb_refl.
  - destruct (String.eqb_spec n n') as [->|]; [|reflexivity].
    destruct (String.eqb_spec s s') as [->|]; [|reflexivity].
    now elim E.
Qed.

(** ** Dictionaries *)

Lemma sget_sset_same {V} (k : string) (v : V) (d : sdict V) :
  sget k (sset k v d) = Some v.
Proof.
  unfold sget, sset.
  induction d as [|[k' v'] d IH]; simpl.
  - now rewrite String.eqb_refl.
  - destruct (String.eqb k k') eqn:E; simpl; rewrite E; auto.
Qed.

Lemma sget_sset_other {V} (k k' : string) (v : V) (d : sdict V) :
  k' <> k -> sget k' (sset k v d) = sget k' d.
Proof.
  intro Hne. unfold sget, sset.
  induction d as [|[k0 v0] d IH]; simpl.
  - apply String.eqb_neq in Hne. now rewrite Hne.
  - destruct (String.eqb k k0) eqn:E; simpl.
    + apply String.eqb_eq in E. subst k0.
      apply String.eqb_neq in Hne. now rewrite Hne.
    + destruct (String.eqb k' k0); auto.
Qed.

Lemma sget_or_sset {V} (k k' : string) (v dflt : V) (d : sdict V) :
  sget_or k' dflt (sset k v d)
  = if String.eqb k' k then v else sget_or k' dflt d.
Proof.
  unfold sget_or, dict_get_or. fold (@sget V) (@sset V).
  destruct (String.eqb_spec k' k) as [->|Hne].
  - now rewrite sget_sset_same.
  - now rewrite sget_sset_other.
Qed.

Lemma sget_or_some {V} (k : string) (v dflt : V) (d : sdict V) :
  sget k d = Some v -> sget_or k dflt d = v.
Proof. unfold sget_or, dict_get_or, sget. now intros ->. Qed.

Lemma sget_or_none {V} (k : string) (dflt : V) (d : sdict V) :
  sget k d = None -> sget_or k dflt d = dflt.
Proof. unfold sget_or, dict_get_or, sget. now intros ->. Qed.

Lemma new_row_zero (s : string) : sget_or s 0 new_row = 0.
Proof.
  unfold sget_or, dict_get_or, new_row; simpl.
  repeat match goal with
         | |- context [String.eqb ?a ?b] => destruct (String.eqb a b)
         end; reflexivity.
Qed.

(** ** Merging an update into the box *)

Lemma box_stat_some (box : Box) (n s : string) (row : Row) :
  sget n box = Some row -> box_stat box n s = sget_or s 0 row.
Proof.
  intro H. unfold box_stat. f_equal. now apply sget_or_some.
Qed.

Lemma box_stat_none (box : Box) (n s : string) :
  sget n box = None -> box_stat box n s = 0.
Proof.
  intro H. unfold box_stat.
  replace (sget_or n [] box) with (@nil (string * Z))
    by (symmetry; now apply sget_or_none).
  reflexivity.
Qed.

Lemma box_stat_sset_other (box : Box) (n n' s : string) (row : Row) :
  n' <> n -> box_stat (sset n row box) n' s = box_stat box n' s.
Proof.
  intro Hne. unfold box_stat. rewrite sget_or_sset.
  apply String.eqb_neq in Hne. now rewrite Hne.
Qed.

Lemma merge_one_stat (box : Box) (n s : string) (v : Z) :
  no_underscore s = true ->
  exists box',
    merge_one box (stat_key n s) v = Some box' /\
    forall n' s',
      box_stat box' n' s'
      = box_stat box n' s'
        + (if String.eqb n' n && String.eqb s' s then v else 0).
Proof.
  intro Hs. unfold merge_one. rewrite (rsplit1_stat_key n s Hs).
  unfold smem, dict_mem. fold (@sget Row).
  destruct (sget n box) as [row|] eqn:Hget; cbn [negb].
  - rewrite Hget. eexists; split; [reflexivity|].
    intros n' s'.
    destruct (String.eqb_spec n' n) as [->|Hne]; cbn [andb].
    + rewrite (box_stat_some _ n s' _ (sget_sset_same _ _ _)).
      rewrite (box_stat_some box n s' row Hget), sget_or_sset.
      destruct (String.eqb s' s) eqn:E; [|lia].
      apply String.eqb_eq in E. now subst.
    + rewrite box_stat_sset_other by assumption. lia.
  - rewrite sget_sset_same. eexists; split; [reflexivity|].
    intros n' s'.
    destruct (String.eqb_spec n' n) as [->|Hne]; cbn [andb].
    + rewrite (box_stat_some _ n s' _ (sget_sset_same _ _ _)).
      rewrite (box_stat_none box n s' Hget), sget_or_sset, !new_row_zero.
      destruct (String.eqb s' s); reflexivity.
    + rewrite !box_stat_sset_other by assumption. lia.
Qed.

Lemma merge_stats_items (items : list Item) :
  items_ok items ->
  forall box, exists box',
    merge_stats box (stats_of items) = Some box' /\
    forall n s, box_stat box' n s = box_stat box n s + item_total items n s.
Proof.
  induction 1 as [|[[n0 s0] v0] items Hs _ IH]; intro box; simpl.
  - exists box. split; [reflexivity|]. intros. lia.
  - simpl in Hs.
    destruct (merge_one_stat box n0 s0 v0 Hs) as (box1 & E1 & H1).
    rewrite E1.
    destruct (IH box1) as (box2 & E2 & H2).
    exists box2. split; [exact E2|].
    intros n s. rewrite H2, H1.
    rewrite (String.eqb_sym n n0), (String.eqb_sym s s0). lia.
Qed.

Lemma items_ok_item_add (n s : string) (v : Z) (items : list Item) :
  no_underscore s = true -> items_ok items -> items_ok (item_add n s v items).
Proof.
  intros Hs H. induction H as [|[[n' s'] v'] items Hx H IH]; simpl.
  - repeat constructor. exact Hs.
  - destruct (String.eqb s s' && String.eqb n n'); constructor; auto.
Qed.

Lemma stat_add_items (n s : string) (v : Z) (items : list Item) :
  no_underscore s = true -> items_ok items ->
  stat_add (stat_key n s) v (stats_of items) = stats_of (item_add n s v items).
Proof.
  intros Hs H. unfold stat_add.
  induction H as [|[[n' s'] v'] items Hx H IH]; [reflexivity|].
  simpl in Hx.
  cbn [stats_of map item_add].
  unfold sget_or, dict_get_or, sset, sget_or in *.
  cbn [dict_get dict_set].
  rewrite (stat_key_eqb n n' s s' Hs Hx), (andb_comm (String.eqb n n')).
  destruct (String.eqb s s' && String.eqb n n'); cbn [stats_of map].
  - reflexivity.
  - f_equal. exact IH.
Qed.

(** ** Comparisons *)

Lemma Qltb_lt (x y : Q) : Qltb x y = true <-> (x < y)%Q.
Proof.
  unfold Qltb. rewrite negb_true_iff.
  split; intro H.
  - apply Qnot_le_lt. intro Hle. apply Qle_bool_iff in Hle. congruence.
  - destruct (Qle_bool y x) eqn:E; [|reflexivity].
    apply Qle_bool_iff in E. exfalso. exact (Qlt_not_le _ _ H E).
Qed.

Lemma py_max_lower (a b : Q) : (a <= py_max a b)%Q.
Proof.
  unfold py_max. destruct (Qltb a b) eqn:E.
  - apply Qlt_le_weak, Qltb_lt, E.
  - apply Qle_refl.
Qed.

Lemma py_max_upper (a b hi : Q) :
  (a <= hi)%Q -> (b <= hi)%Q -> (py_max a b <= hi)%Q.
Proof. unfold py_max. now destruct (Qltb a b). Qed.

Lemma py_min_upper (a b : Q) : (py_min a b <= a)%Q.
Proof.
  unfold py_min. destruct (Qltb b a) eqn:E.
  - apply Qlt_le_weak, Qltb_lt, E.
  - apply Qle_refl.
Qed.

Lemma clamp_bounds (x lo hi : Q) :
  (lo <= hi)%Q -> (lo <= clamp x lo hi <= hi)%Q.
Proof.
  intro H. unfold clamp. split.
  - apply py_max_lower.
  - apply py_max_upper; [exact H | apply py_min_upper].
Qed.

(** ** The monad *)

Lemma bind_random {B} (f : Q -> M B) (g : tape) :
  bind random f g = f (g O) (tape_tl g).
Proof. reflexivity. Qed.

(** ** Weighted choice *)

Lemma accumulate_from_length (ws : list Q) :
  forall acc, List.length (accumulate_from acc ws) = List.length ws.
Proof. induction ws; simpl; intros; [reflexivity | now rewrite IHws]. Qed.

Lemma accumulate_length (ws : list Q) :
  List.length (accumulate ws) = List.length ws.
Proof. destruct ws; simpl; [reflexivity | now rewrite accumulate_from_length]. Qed.

Lemma accumulate_from_pos (ws : list Q) :
  Forall (fun w => (0 < w)%Q) ws ->
  forall acc, (0 < acc)%Q ->
  Forall (fun c => (0 < c)%Q) (accumulate_from acc ws).
Proof.
  induction 1 as [|w ws Hw _ IH]; intros acc Hacc; simpl; constructor.
  - rewrite <- (Qplus_0_l 0). apply Qplus_lt_le_compat; [exact Hacc|].
    now apply Qlt_le_weak.
  - apply IH. rewrite <- (Qplus_0_l 0).
    apply Qplus_lt_le_compat; [exact Hacc|]. now apply Qlt_le_weak.
Qed.

Lemma accumulate_pos (ws : list Q) :
  Forall (fun w => (0 < w)%Q) ws ->
  Forall (fun c => (0 < c)%Q) (accumulate ws).
Proof.
  destruct 1 as [|w ws Hw H]; simpl; constructor; [exact Hw|].
  now apply accumulate_from_pos.
Qed.

Lemma last_default {A} (l : list A) (y d1 d2 : A) :
  List.last (y :: l) d1 = List.last (y :: l) d2.
Proof.
  revert y. induction l as [|z l IH]; intro y; [reflexivity|].
  exact (IH z).
Qed.

Lemma last_map_Some {A} (l : list A) (x : A) :
  List.last (map Some (x :: l)) None = Some (List.last (x :: l) x).
Proof.
  revert x. induction l as [|y l IH]; intro x; [reflexivity|].
  change (List.last (map Some (y :: l)) None = Some (List.last (y :: l) x)).
  rewrite IH. f_equal. apply last_default.
Qed.

Lemma last_In {A} (l : list A) (x : A) : In (List.last (x :: l) x) (x :: l).
Proof.
  revert x. induction l as [|y l IH]; intro x; [now left|].
  right. change (In (List.last (y :: l) x) (y :: l)).
  rewrite (last_default l y x y). apply IH.
Qed.

Lemma bisect_le (a : list Q) (x : Q) (hi : nat) : (bisect a x hi <= hi)%nat.
Proof.
  revert a. induction hi as [|hi IH]; intros [|c a]; simpl; try lia.
  destruct (Qltb x c); [lia|]. specialize (IH a). lia.
Qed.

Lemma choices_inv {A} (population : list A) (weights : list Q) (g : tape)
    (x : A) (g' : tape) :
  choices population weights g = Some (x, g') ->
  In x population /\ g' = tape_tl g.
Proof.
  unfold choices.
  destruct (negb _); [discriminate|].
  destruct (List.last _ None) as [total|]; [|discriminate].
  destruct (Qle_bool total 0); [discriminate|].
  rewrite bind_random. unfold lift.
  destruct (nth_error population _) as [y|] eqn:E; [|discriminate].
  intros [= <- <-]. split; [|reflexivity].
  eapply nth_error_In, E.
Qed.

Lemma choices_total {A} (population : list A) (weights : list Q) (g : tape) :
  population <> [] ->
  List.length weights = List.length population ->
  Forall (fun w => (0 < w)%Q) weights ->
  exists x, choices population weights g = Some (x, tape_tl g).
Proof.
  intros Hne Hlen Hpos. unfold choices.
  rewrite accumulate_length, Hlen, Nat.eqb_refl. cbn [negb].
  pose proof (accumulate_pos weights Hpos) as Hcum.
  pose proof (accumulate_length weights) as Hcl.
  destruct (accumulate weights) as [|c cum] eqn:Ec.
  - destruct population; [now elim Hne | simpl in *; lia].
  - rewrite last_map_Some.
    pose proof (last_In cum c) as Hin.
    rewrite Forall_forall in Hcum. specialize (Hcum _ Hin).
    destruct (Qle_bool _ 0) eqn:E.
    + apply Qle_bool_iff in E. exfalso. exact (Qlt_not_le _ _ Hcum E).
    + rewrite bind_random. unfold lift.
      destruct (nth_error population _) as [y|] eqn:En; [now exists y|].
      apply nth_error_None in En.
      pose proof (bisect_le (c :: cum) (g O * List.last (c :: cum) c)%Q
                            (List.length population - 1)) as Hb.
      destruct population; [now elim Hne | simpl in *; lia].
Qed.

(** ** The outcomes of a possession *)

Create HintDb items discriminated.

Lemma items_ok_nil : items_ok [].
Proof. constructor. Qed.

Lemma items_ok_cons (n s : string) (v : Z) (items : list Item) :
  no_underscore s = true -> items_ok items -> items_ok ((n, s, v) :: items).
Proof. intros. now constructor. Qed.

#[export] Hint Resolve items_ok_nil items_ok_cons items_ok_item_add : items.

Ltac stats_to_items :=
  change (@nil (string * Z)) with (stats_of []);
  repeat (rewrite stat_add_items by auto 10 with items).

Lemma free_throws_two (def_syn : Synergy) (shooter : Player) (g : tape) :
  free_throws 2 def_syn shooter 0 g
  = Some ((if Qltb (g 0%nat) (ft_prob def_syn shooter) then 1 else 0)
          + (if Qltb (g 1%nat) (ft_prob def_syn shooter) then 1 else 0),
          tape_tl (tape_tl g)).
Proof.
  cbn [free_throws]. rewrite !bind_random.
  change (tape_tl g 0%nat) with (g 1%nat).
  destruct (Qltb (g 0%nat) _), (Qltb (g 1%nat) _); reflexivity.
Qed.

Lemma ensures_ret {A} (a : A) (Q : A -> Prop) : Q a -> ensures (ret a) Q.
Proof. intros H g b g' [= <- _]. exact H. Qed.

Lemma ensures_bind {A B} (m : M A) (f : A -> M B) (P : A -> Prop)
    (Q : B -> Prop) :
  ensures m P -> (forall a, P a -> ensures (f a) Q) -> ensures (bind m f) Q.
Proof.
  intros Hm Hf g b g' H. unfold bind in H.
  destruct (m g) as [[a g1]|] eqn:E; [|discriminate].
  exact (Hf a (Hm _ _ _ E) _ _ _ H).
Qed.

Lemma ensures_random : ensures random (fun _ => True).
Proof. intros g a g' _. exact I. Qed.

Lemma ensures_draw {B} (f : Q -> M B) (Q0 : B -> Prop) :
  (forall u, ensures (f u) Q0) -> ensures (bind random f) Q0.
Proof.
  intro H. apply (ensures_bind _ _ (fun _ => True)); [apply ensures_random|].
  intros u _. apply H.
Qed.

Lemma ensures_choices {A} (population : list A) (weights : list Q) :
  ensures (choices population weights) (fun x => In x population).
Proof. intros g x g' H. now apply choices_inv in H. Qed.

Lemma ensures_weaken {A} (m : M A) (P Q : A -> Prop) :
  ensures m P -> (forall a, P a -> Q a) -> ensures m Q.
Proof. intros Hm HPQ g a g' H. exact (HPQ _ (Hm _ _ _ H)). Qed.

Lemma filter_not_is_obj (shooter p : Player) (players : list Player) :
  In p (filter (fun q => negb (is_obj q shooter)) players) ->
  In p players /\ p <> shooter.
Proof.
  intro H. apply filter_In in H as [Hin Hne]. split; [exact Hin|].
  unfold is_obj in Hne. now destruct (Player_eq_dec p shooter).
Qed.

Ltac items_now :=
  stats_to_items;
  eexists; split; [reflexivity|]; cbn [fst snd];
  cbn [item_add String.eqb Ascii.eqb Bool.eqb andb Z.add Pos.add];
  rewrite ?String.eqb_refl;
  cbn [item_add String.eqb Ascii.eqb Bool.eqb andb Z.add Pos.add].

Lemma made_shot_good (off defn : Team) (shooter : Player)
    (assisted is_three : bool) :
  In shooter (all_players off) ->
  ensures (made_shot (all_players off) shooter assisted is_three [])
          (good off defn).
Proof.
  intro Hsh. unfold made_shot.
  assert (Hpts : (if is_three then 3 else 2) = 2 \/ (if is_three then 3 else 2) = 3)
    by (destruct is_three; auto).
  destruct assisted.
  - eapply ensures_bind; [apply ensures_choices|].
    intros passer Hin. apply filter_not_is_obj in Hin as [Hin Hne].
    apply ensures_ret. unfold good; cbn [fst snd]. items_now.
    now apply out_assisted.
  - apply ensures_ret. unfold good; cbn [fst snd]. items_now.
    now apply out_made.
Qed.

Lemma ensures_free_throws (n : nat) (def_syn : Synergy) (shooter : Player) :
  forall k, 0 <= k ->
  ensures (free_throws n def_syn shooter k)
          (fun r => k <= r <= k + Z.of_nat n).
Proof.
  induction n as [|n IH]; intros k Hk.
  - apply ensures_ret. lia.
  - cbn [free_throws]. apply ensures_draw. intro u.
    destruct (Qltb u _).
    + eapply ensures_weaken; [apply IH; lia|]. cbv beta. intros; lia.
    + eapply ensures_weaken; [apply IH; lia|]. cbv beta. intros; lia.
Qed.

Lemma rebound_chain_good (off defn : Team) (off_syn def_syn : Synergy)
    (shooter : Player) :
  In shooter (all_players off) ->
  ensures (rebound_chain off defn off_syn def_syn (all_players off) shooter
             (stat_add (stat_key (name shooter) "fga") 1 []))
          (good off defn).
Proof.
  intro Hsh. unfold rebound_chain.
  apply ensures_draw. intro u. destruct (Qltb u _).
  - eapply ensures_bind; [apply ensures_choices|].
    intros boarder Hin. cbv beta.
    apply ensures_draw. intro u'. destruct (Qltb u' _).
    + apply ensures_ret. unfold good; cbn [fst snd]. items_now.
      now apply out_putback.
    + apply ensures_ret. unfold good; cbn [fst snd]. items_now.
      now apply out_putback_missed.
  - eapply ensures_bind; [apply ensures_choices|].
    intros dboarder Hin. cbv beta.
    apply ensures_ret. unfold good; cbn [fst snd]. items_now.
    now apply out_def_rebound.
Qed.

Lemma missed_shot_good (off defn : Team) (off_syn def_syn : Synergy)
    (shooter : Player) (drew_foul : bool) :
  In shooter (all_players off) ->
  ensures (missed_shot off defn off_syn def_syn (all_players off) shooter
                       drew_foul [])
          (good off defn).
Proof.
  intro Hsh. unfold missed_shot.
  destruct drew_foul; [|now apply rebound_chain_good].
  eapply ensures_bind; [apply (ensures_free_throws 2 _ _ 0); lia|].
  intros k Hk. cbv beta in Hk.
  destruct (Z.eqb_spec k 0) as [->|Hne]; cbn [negb].
  - now apply rebound_chain_good.
  - apply ensures_ret. unfold good; cbn [fst snd]. items_now.
    apply out_free_throws; [exact Hsh | cbn in Hk; lia].
Qed.

Lemma ensures_draw_foul (is_three : bool) (p : Q) :
  ensures (draw_foul is_three p) (fun b => is_three = true -> b = false).
Proof.
  unfold draw_foul. destruct is_three; cbn [negb].
  - now apply ensures_ret.
  - apply ensures_draw. intro u. now apply ensures_ret.
Qed.

Lemma shot_attempt_good (off defn : Team) (off_syn def_syn : Synergy) :
  ensures (shot_attempt off defn off_syn def_syn []) (good off defn).
Proof.
  unfold shot_attempt. cbv zeta.
  eapply ensures_bind; [apply ensures_choices|].
  intros shooter Hsh. cbv beta.
  apply ensures_draw. intro u1.
  apply ensures_draw. intro u2.
  eapply ensures_bind; [apply ensures_draw_foul|].
  intros drew_foul _. cbv beta.
  apply ensures_draw. intro u3.
  destruct (Qltb u3 _).
  - now apply made_shot_good.
  - now apply missed_shot_good.
Qed.

(** Every possession that returns ends in one of the seven outcomes. *)
Lemma possession_good (off defn : Team) :
  ensures (possession off defn) (good off defn).
Proof.
  unfold possession. cbv zeta.
  apply ensures_draw. intro u. destruct (Qltb u _).
  - apply ensures_ret. exists []. split; [reflexivity | constructor].
  - apply shot_attempt_good.
Qed.

Lemma possession_outcome (off defn : Team) (g g' : tape) (pts : Z)
    (stats : Stats) :
  possession off defn g = Some (pts, stats, g') ->
  exists items, stats = stats_of items /\ outcome off defn pts items.
Proof. intro H. exact (possession_good off defn g (pts, stats) g' H). Qed.

(** ** What an outcome adds to the box *)

Lemma outcome_items_ok (off defn : Team) (pts : Z) (items : list Item) :
  outcome off defn pts items -> items_ok items.
Proof. destruct 1; repeat (apply items_ok_cons; [reflexivity|]); constructor. Qed.

Ltac item_total_simpl :=
  cbn [item_total fold_right String.eqb Ascii.eqb Bool.eqb];
  rewrite ?andb_false_r, ?andb_true_r;
  cbn [Z.add].

(** The only points an outcome records are those it returns, on the
    line of one player of the offense. *)
Lemma outcome_pts (off defn : Team) (pts : Z) (items : list Item) :
  outcome off defn pts items ->
  exists sh, In sh (all_players off) /\
    forall n, item_total items n "pts"
              = if String.eqb (name sh) n then pts else 0.
Proof.
  destruct 1.
  - exists (lineup off PG). split; [now left|].
    intro n. cbn. now destruct (String.eqb _ n).
  - exists shooter. split; [assumption|]. intro n. item_total_simpl.
    destruct (String.eqb _ n); lia.
  - exists shooter. split; [assumption|]. intro n. item_total_simpl.
    destruct (String.eqb (name shooter) n); lia.
  - exists shooter. split; [assumption|]. intro n. item_total_simpl.
    destruct (String.eqb _ n); lia.
  - exists shooter. split; [assumption|]. intro n. item_total_simpl.
    destruct (String.eqb (name shooter) n); lia.
  - exists shooter. split; [assumption|]. intro n. item_total_simpl.
    destruct (String.eqb (name shooter) n); lia.
  - exists shooter. split; [assumption|]. intro n. item_total_simpl.
    destruct (String.eqb (name shooter) n); lia.
Qed.

(** Within one update, makes never exceed attempts and nothing is
    negative. *)
Lemma outcome_consistent (off defn : Team) (pts : Z) (items : list Item) :
  outcome off defn pts items ->
  forall n,
    item_total items n "fgm" <= item_total items n "fga" /\
    item_total items n "ftm" <= item_total items n "fta" /\
    forall s, 0 <= item_total items n s.
Proof.
  destruct 1; intro n; (split; [|split; [|intro s]]);
    item_total_simpl;
    repeat match goal with
           | |- context [if ?b then _ else _] => destruct b
           end; lia.
Qed.

Lemma stat_total_items (stat : string) (items : list Item) :
  items_ok items ->
  stat_total stat (stats_of items)
  = fold_right (fun (it : Item) acc =>
                  (if String.eqb (snd (fst it)) stat then snd it else 0) + acc)
               0 items.
Proof.
  induction 1 as [|[[n s] v] items Hs _ IH]; [reflexivity|].
  cbn [stats_of map stat_total fold_right fst snd].
  simpl in Hs. rewrite (rsplit1_stat_key n s Hs).
  fold (stats_of items). now rewrite IH.
Qed.

(** A possession returns exactly the points it records. *)
Lemma outcome_stat_total (off defn : Team) (pts : Z) (items : list Item) :
  outcome off defn pts items -> stat_total "pts" (stats_of items) = pts.
Proof.
  intro H. rewrite stat_total_items by (eapply outcome_items_ok; eauto).
  destruct H; cbn; lia.
Qed.

(** ** Totals over a lineup *)

Lemma team_total_add (box box' : Box) (stat : string) (f : string -> Z)
    (players : list Player) :
  (forall n, box_stat box' n stat = box_stat box n stat + f n) ->
  team_total box' stat players
  = team_total box stat players
    + fold_right (fun p acc => f (name p) + acc) 0 players.
Proof.
  intro H. induction players as [|p players IH]; [reflexivity|].
  cbn [team_total fold_right] in *. rewrite H.
  unfold team_total in IH. rewrite IH. lia.
Qed.

Lemma indicator_sum_out (n : string) (v : Z) (players : list Player) :
  ~ In n (map name players) ->
  fold_right (fun p acc => (if String.eqb n (name p) then v else 0) + acc)
             0 players = 0.
Proof.
  induction players as [|p players IH]; intro Hn; [reflexivity|].
  cbn [fold_right]. simpl in Hn.
  destruct (String.eqb_spec n (name p)) as [->|_].
  - elim Hn. now left.
  - rewrite IH; [reflexivity|]. intro. apply Hn. now right.
Qed.

Lemma indicator_sum_in (sh : Player) (v : Z) (players : list Player) :
  NoDup (map name players) -> In sh players ->
  fold_right (fun p acc => (if String.eqb (name sh) (name p) then v else 0) + acc)
             0 players = v.
Proof.
  induction players as [|p players IH]; intros Hnd Hin; [easy|].
  cbn [fold_right]. simpl in Hnd. inversion Hnd as [|? ? Hp Hnd']; subst.
  destruct Hin as [->|Hin].
  - rewrite String.eqb_refl, indicator_sum_out by assumption. lia.
  - destruct (String.eqb_spec (name sh) (name p)) as [E|_].
    + elim Hp. rewrite <- E. now apply in_map.
    + now rewrite IH.
Qed.

(** ** The game loop *)

Lemma ensures_lift {A} (o : option A) : ensures (lift o) (fun a => o = Some a).
Proof. intros g a g'. unfold lift. destruct o; [|discriminate]. now intros [= <- _]. Qed.

(** A possession followed by the merge of its update: the box gains
    exactly the items of one outcome. *)
Lemma ensures_turn (off defn : Team) (box : Box) (k : Z -> Box -> GameState) :
  ensures ('(pts, updates) <- possession off defn ;;
           box' <- lift (merge_stats box updates) ;;
           ret (k pts box'))
          (fun st' => exists pts items box',
             st' = k pts box' /\ outcome off defn pts items /\
             forall n s, box_stat box' n s = box_stat box n s + item_total items n s).
Proof.
  eapply ensures_bind; [apply possession_good|].
  intros [pts stats] (items & Hs & Ho). cbn [fst snd] in Hs, Ho. subst stats.
  eapply ensures_bind; [apply ensures_lift|].
  intros box' Hm. apply ensures_ret.
  destruct (merge_stats_items items (outcome_items_ok _ _ _ _ Ho) box)
    as (box2 & E & Hb).
  rewrite E in Hm. injection Hm as <-.
  now exists pts, items, box2.
Qed.

Lemma ensures_game_loop (team_a team_b : Team) (I : GameState -> Prop) :
  (forall i st, I st -> ensures (game_step team_a team_b i st) I) ->
  forall range st, I st -> ensures (game_loop team_a team_b range st) I.
Proof.
  intros Hstep range. induction range as [|i range IH]; intros st Hst.
  - now apply ensures_ret.
  - cbn [game_loop]. eapply ensures_bind; [now apply Hstep|].
    intros st' Hst'. now apply IH.
Qed.

Lemma ensures_game_step (team_a team_b : Team) (i : nat) (score_a score_b : Z)
    (box : Box) :
  ensures (game_step team_a team_b i (score_a, score_b, box))
    (fun st' => exists pts items box',
       (forall n s, box_stat box' n s = box_stat box n s + item_total items n s) /\
       ((st' = (score_a + pts, score_b, box') /\ outcome team_a team_b pts items) \/
        (st' = (score_a, score_b + pts, box') /\ outcome team_b team_a pts items))).
Proof.
  unfold game_step. destruct (Nat.eqb (i mod 2) 0).
  - eapply ensures_weaken;
      [apply (ensures_turn team_a team_b box
                (fun pts box' => (score_a + pts, score_b, box')))|].
    intros st' (pts & items & box' & -> & Ho & Hb).
    exists pts, items, box'. split; [exact Hb | left; now split].
  - eapply ensures_weaken;
      [apply (ensures_turn team_b team_a box
                (fun pts box' => (score_a, score_b + pts, box')))|].
    intros st' (pts & items & box' & -> & Ho & Hb).
    exists pts, items, box'. split; [exact Hb | right; now split].
Qed.

Section Game_facts.
Variable rng_seed : Z -> tape.

Lemma seeded {A} (k : unit -> M A) (s : Z) (g : tape) :
  bind (seed_rng rng_seed (Some s)) k g = k tt (rng_seed s).
Proof. reflexivity. Qed.

(** A property of the loop's final state is one of the result. *)
Lemma ensures_simulate_game (team_a team_b : Team) (seed : option Z)
    (I : GameState -> Prop) :
  I (0, 0, []) ->
  (forall i st, I st -> ensures (game_step team_a team_b i st) I) ->
  ensures (simulate_game rng_seed team_a team_b seed)
          (fun r => I (fst (score r), snd (score r), box r)).
Proof.
  intros H0 Hstep. unfold simulate_game.
  eapply ensures_bind with (P := fun _ => True); [now intros g a g' _|].
  intros _ _. cbv zeta.
  eapply ensures_bind; [apply (ensures_game_loop _ _ I Hstep), H0|].
  intros [[score_a score_b] box] Hst. now apply ensures_ret.
Qed.
End Game_facts.

(** C1: [simulate_game] with a seed that is not [None] does not depend
    on the state the generator was in: any two calls on the same teams
    with the same seed return the same result (scores, box, synergy
    values and possession count) and leave the generator in the same
    state. *)
Theorem simulate_game_deterministic (rng_seed : Z -> tape)
    (team_a team_b : Team) (s : Z) (g1 g2 : tape) :
  simulate_game rng_seed team_a team_b (Some s) g1
  = simulate_game rng_seed team_a team_b (Some s) g2.
Proof. unfold simulate_game. now rewrite !seeded. Qed.

(** ** Claims about the box score *)

Lemma NoDup_app_l {A} (l1 l2 : list A) : NoDup (l1 ++ l2) -> NoDup l1.
Proof.
  induction l1 as [|x l1 IH]; intro H; [constructor|].
  inversion H as [|? ? Hx H']; subst. constructor.
  - intro Hin. apply Hx, in_or_app. now left.
  - now apply IH.
Qed.

Lemma NoDup_app_r {A} (l1 l2 : list A) : NoDup (l1 ++ l2) -> NoDup l2.
Proof.
  induction l1 as [|x l1 IH]; intro H; [exact H|].
  inversion H; subst. now apply IH.
Qed.

Lemma NoDup_app_disjoint {A} (l1 l2 : list A) (x : A) :
  NoDup (l1 ++ l2) -> In x l1 -> ~ In x l2.
Proof.
  induction l1 as [|y l1 IH]; intros H Hin; [easy|].
  inversion H as [|? ? Hy H']; subst. destruct Hin as [->|Hin].
  - intro Hx. apply Hy, in_or_app. now right.
  - now apply IH.
Qed.

Lemma sum_ext (f h : Player -> Z) (players : list Player) :
  (forall p, f p = h p) ->
  fold_right (fun p acc => f p + acc) 0 players
  = fold_right (fun p acc => h p + acc) 0 players.
Proof.
  intro H. induction players as [|p players IH]; [reflexivity|].
  cbn [fold_right]. now rewrite H, IH.
Qed.

(** What the points of one outcome add to the totals of the two teams. *)
Lemma outcome_team_pts (off defn : Team) (pts : Z) (items : list Item) :
  NoDup (map name (all_players off) ++ map name (all_players defn)) ->
  outcome off defn pts items ->
  fold_right (fun p acc => item_total items (name p) "pts" + acc) 0
             (all_players off) = pts /\
  fold_right (fun p acc => item_total items (name p) "pts" + acc) 0
             (all_players defn) = 0.
Proof.
  intros Hnd Ho. destruct (outcome_pts _ _ _ _ Ho) as (sh & Hsh & Hit).
  split.
  - rewrite (sum_ext _ (fun p => if String.eqb (name sh) (name p) then pts else 0))
      by (intro; apply Hit).
    apply indicator_sum_in; [now apply NoDup_app_l in Hnd | exact Hsh].
  - rewrite (sum_ext _ (fun p => if String.eqb (name sh) (name p) then pts else 0))
      by (intro; apply Hit).
    apply indicator_sum_out.
    apply (NoDup_app_disjoint _ _ _ Hnd). now apply in_map.
Qed.

Lemma score_invariant_step (team_a team_b : Team) :
  NoDup (map name (all_players team_a ++ all_players team_b)) ->
  forall i st,
    (let '(score_a, score_b, box) := st in
     score_a = team_total box "pts" (all_players team_a) /\
     score_b = team_total box "pts" (all_players team_b)) ->
    ensures (game_step team_a team_b i st)
      (fun st' => let '(score_a, score_b, box) := st' in
         score_a = team_total box "pts" (all_players team_a) /\
         score_b = team_total box "pts" (all_players team_b)).
Proof.
  intros Hnd i [[score_a score_b] box] [Ha Hb].
  rewrite map_app in Hnd.
  assert (Hnd' : NoDup (map name (all_players team_b)
                        ++ map name (all_players team_a))).
  { apply (Permutation_NoDup (Permutation_app_comm _ _) Hnd). }
  eapply ensures_weaken; [apply ensures_game_step|].
  intros st' (pts & items & box' & Hbox & [[-> Ho]|[-> Ho]]).
  - destruct (outcome_team_pts _ _ _ _ Hnd Ho) as [H1 H2].
    rewrite (team_total_add box box' "pts" (fun n => item_total items n "pts"))
      by (intro; apply Hbox).
    rewrite (team_total_add box box' "pts" (fun n => item_total items n "pts")
                            (all_players team_b))
      by (intro; apply Hbox).
    rewrite H1, H2. lia.
  - destruct (outcome_team_pts _ _ _ _ Hnd' Ho) as [H1 H2].
    rewrite (team_total_add box box' "pts" (fun n => item_total items n "pts"))
      by (intro; apply Hbox).
    rewrite (team_total_add box box' "pts" (fun n => item_total items n "pts")
                            (all_players team_b))
      by (intro; apply Hbox).
    rewrite H1, H2. lia.
Qed.

(** C2: on two lineups whose ten player names are pairwise distinct,
    every possession returns exactly the sum of the "pts" updates it
    records, and each team's score in the result of [simulate_game] is
    the sum of the "pts" values of the box over its five players. *)
Theorem box_accumulates_points (rng_seed : Z -> tape) (team_a team_b : Team)
    (seed : option Z) (g g' : tape) (res : Result) :
  NoDup (map name (all_players team_a ++ all_players team_b)) ->
  simulate_game rng_seed team_a team_b seed g = Some (res, g') ->
  (forall off defn g0 pts stats g1,
     possession off defn g0 = Some (pts, stats, g1) ->
     stat_total "pts" stats = pts) /\
  fst (score res) = team_total (box res) "pts" (all_players team_a) /\
  snd (score res) = team_total (box res) "pts" (all_players team_b).
Proof.
  intros Hnd Hrun. split.
  - intros off defn g0 pts stats g1 H.
    destruct (possession_outcome _ _ _ _ _ _ H) as (items & -> & Ho).
    exact (outcome_stat_total _ _ _ _ Ho).
  - exact (ensures_simulate_game rng_seed team_a team_b seed _
             (conj eq_refl eq_refl) (score_invariant_step _ _ Hnd)
             g res g' Hrun).
Qed.

Lemma example_names_distinct :
  NoDup (map name (all_players example_a ++ all_players example_b)).
Proof.
  vm_compute.
  repeat (constructor; [intro H; repeat (destruct H as [H|H]; [discriminate H|]); exact H|]).
  constructor.
Qed.

(** ** Free-throw trips *)

Lemma sget_stats_of (n s : string) (items : list Item) :
  no_underscore s = true -> items_ok items ->
  sget (stat_key n s) (stats_of items) = item_get n s items.
Proof.
  intros Hs H. induction H as [|[[n' s'] v] items Hx _ IH]; [reflexivity|].
  simpl in Hx. cbn [stats_of map item_get]. unfold sget in *.
  cbn [dict_get].
  rewrite (stat_key_eqb n n' s s' Hs Hx), (andb_comm (String.eqb n n')).
  destruct (String.eqb s s' && String.eqb n n'); [reflexivity|exact IH].
Qed.

Lemma bind_eq {A B} (m : M A) (k : A -> M B) (g g1 : tape) (a : A) :
  m g = Some (a, g1) -> bind m k g = k a g1.
Proof. intro H. unfold bind. now rewrite H. Qed.

(** A trip to the line with both free throws missed goes on to the
    rebound with only the missed attempt recorded. *)
Lemma missed_both_free_throws (off defn : Team) (off_syn def_syn : Synergy)
    (players : list Player) (shooter : Player) (g : tape) :
  Qltb (g 0%nat) (ft_prob def_syn shooter) = false ->
  Qltb (g 1%nat) (ft_prob def_syn shooter) = false ->
  missed_shot off defn off_syn def_syn players shooter true [] g
  = rebound_chain off defn off_syn def_syn players shooter
      (stat_add (stat_key (name shooter) "fga") 1 []) (tape_tl (tape_tl g)).
Proof.
  intros H1 H2. unfold missed_shot. cbv beta iota zeta.
  rewrite (bind_eq _ _ _ _ _ (free_throws_two def_syn shooter g)).
  rewrite H1, H2. reflexivity.
Qed.

(** A trip to the line with a make records the two attempts and ends
    the possession. *)
Lemma made_free_throws (off defn : Team) (off_syn def_syn : Synergy)
    (players : list Player) (shooter : Player) (g : tape) :
  let k := (if Qltb (g 0%nat) (ft_prob def_syn shooter) then 1 else 0)
           + (if Qltb (g 1%nat) (ft_prob def_syn shooter) then 1 else 0) in
  k <> 0 ->
  missed_shot off defn off_syn def_syn players shooter true [] g
  = Some (k, stats_of [(name shooter, "fga", 1); (name shooter, "pts", k);
                       (name shooter, "fta", 2); (name shooter, "ftm", k)]%string,
          tape_tl (tape_tl g)).
Proof.
  intros k Hk. unfold missed_shot. cbv beta iota zeta.
  rewrite (bind_eq _ _ _ _ _ (free_throws_two def_syn shooter g)).
  fold k. destruct (Z.eqb_spec k 0) as [E|_]; [now elim Hk|].
  cbn [negb]. unfold ret. do 2 f_equal. f_equal.
  stats_to_items. cbn [item_add String.eqb Ascii.eqb Bool.eqb andb Z.add].
  reflexivity.
Qed.

(** The rebound chain records no free throw. *)
Lemma rebound_chain_no_free_throw (off defn : Team) (off_syn def_syn : Synergy)
    (players : list Player) (shooter : Player) :
  ensures (rebound_chain off defn off_syn def_syn players shooter
             (stat_add (stat_key (name shooter) "fga") 1 []))
          (fun r => forall n,
             sget (stat_key n "fta") (snd r) = None /\
             sget (stat_key n "ftm") (snd r) = None).
Proof.
  unfold rebound_chain.
  apply ensures_draw. intro u. destruct (Qltb u _).
  - eapply ensures_bind; [apply ensures_choices|].
    intros boarder _. cbv beta.
    apply ensures_draw. intro u'.
    destruct (Qltb u' _); apply ensures_ret; cbn [snd]; stats_to_items;
      intro n; rewrite !sget_stats_of by auto 10 with items;
      cbn [item_add item_get String.eqb Ascii.eqb Bool.eqb andb];
      rewrite ?String.eqb_refl;
      cbn [item_add item_get String.eqb Ascii.eqb Bool.eqb andb]; auto.
  - eapply ensures_bind; [apply ensures_choices|].
    intros dboarder _. cbv beta.
    apply ensures_ret; cbn [snd]; stats_to_items;
      intro n; rewrite !sget_stats_of by auto 10 with items;
      cbn [item_add item_get String.eqb Ascii.eqb Bool.eqb andb]; auto.
Qed.

(** ** The simulation returns *)

Lemma succeeds_ret {A} (a : A) : succeeds (ret a).
Proof. intro g. now exists a, g. Qed.

Lemma succeeds_bind {A B} (m : M A) (f : A -> M B) (P : A -> Prop) :
  succeeds m -> ensures m P -> (forall a, P a -> succeeds (f a)) ->
  succeeds (bind m f).
Proof.
  intros Hm HP Hf g. destruct (Hm g) as (a & g1 & E).
  destruct (Hf a (HP _ _ _ E) g1) as (b & g2 & E2).
  exists b, g2. unfold bind. now rewrite E.
Qed.

Lemma succeeds_draw {B} (f : Q -> M B) :
  (forall u, succeeds (f u)) -> succeeds (bind random f).
Proof. intros H g. exact (H (g O) (tape_tl g)). Qed.

Lemma succeeds_choices {A} (population : list A) (weights : list Q) :
  population <> [] ->
  List.length weights = List.length population ->
  Forall (fun w => (0 < w)%Q) weights ->
  succeeds (choices population weights).
Proof.
  intros H1 H2 H3 g.
  destruct (choices_total population weights g H1 H2 H3) as (x & E).
  now exists x, (tape_tl g).
Qed.

Lemma weights_positive {A} (f : A -> Q) (lo : Q) (l : list A) :
  (0 < lo)%Q -> Forall (fun w => (0 < w)%Q) (map (fun p => py_max lo (f p)) l).
Proof.
  intro Hlo. induction l as [|x l IH]; constructor; [|exact IH].
  eapply Qlt_le_trans; [exact Hlo | apply py_max_lower].
Qed.

Lemma succeeds_weighted {A} (f : A -> Q) (lo : Q) (l : list A) :
  (0 < lo)%Q -> l <> [] ->
  succeeds (choices l (map (fun p => py_max lo (f p)) l)).
Proof.
  intros Hlo Hne. apply succeeds_choices;
    [exact Hne | apply length_map | now apply weights_positive].
Qed.

Lemma all_players_nonempty (t : Team) : all_players t <> [].
Proof. discriminate. Qed.

Lemma is_obj_false (p q : Player) : p <> q -> is_obj p q = false.
Proof. intro H. unfold is_obj. now destruct (Player_eq_dec p q). Qed.

Lemma is_obj_refl (p : Player) : is_obj p p = true.
Proof. unfold is_obj. now destruct (Player_eq_dec p p). Qed.

Lemma filter_others_out (x : Player) (l : list Player) :
  ~ In x l -> filter (fun p => negb (is_obj p x)) l = l.
Proof.
  induction l as [|q l IH]; intro H; [reflexivity|].
  cbn [filter]. rewrite is_obj_false by (intros ->; apply H; now left).
  cbn [negb]. f_equal. apply IH. intro. apply H. now right.
Qed.

(** Among distinct players, all but the shooter are teammates. *)
Lemma mates_length (shooter : Player) (players : list Player) :
  NoDup players -> In shooter players ->
  List.length (filter (fun p => negb (is_obj p shooter)) players)
  = pred (List.length players).
Proof.
  induction players as [|p players IH]; intros Hnd Hin; [easy|].
  inversion Hnd as [|? ? Hp Hnd']; subst. cbn [filter List.length pred].
  destruct Hin as [->|Hin].
  - rewrite is_obj_refl. cbn [negb]. now rewrite filter_others_out.
  - rewrite is_obj_false by (intros ->; contradiction).
    cbn [negb List.length]. rewrite (IH Hnd' Hin).
    destruct players; [easy | reflexivity].
Qed.

Lemma made_shot_succeeds (off : Team) (shooter : Player)
    (assisted is_three : bool) (stats : Stats) :
  NoDup (all_players off) -> In shooter (all_players off) ->
  succeeds (made_shot (all_players off) shooter assisted is_three stats).
Proof.
  intros Hnd Hsh. unfold made_shot. cbv zeta. destruct assisted.
  - eapply succeeds_bind with (P := fun _ => True).
    + apply succeeds_weighted; [reflexivity|].
      intro E. pose proof (mates_length shooter _ Hnd Hsh) as L.
      rewrite E in L. discriminate L.
    + now intros g a g' _.
    + intros passer _. apply succeeds_ret.
  - apply succeeds_ret.
Qed.

Lemma free_throws_succeeds (n : nat) (def_syn : Synergy) (shooter : Player) :
  forall k, succeeds (free_throws n def_syn shooter k).
Proof.
  induction n as [|n IH]; intro k; [apply succeeds_ret|].
  cbn [free_throws]. apply succeeds_draw. intro u. apply IH.
Qed.

Lemma rebound_chain_succeeds (off defn : Team) (off_syn def_syn : Synergy)
    (shooter : Player) (stats : Stats) :
  succeeds (rebound_chain off defn off_syn def_syn (all_players off) shooter
                          stats).
Proof.
  unfold rebound_chain. apply succeeds_draw. intro u. destruct (Qltb u _).
  - eapply succeeds_bind with (P := fun _ => True).
    + apply succeeds_weighted; [reflexivity | apply all_players_nonempty].
    + now intros g a g' _.
    + intros boarder _. cbv zeta. apply succeeds_draw. intro u'.
      destruct (Qltb u' _); apply succeeds_ret.
  - eapply succeeds_bind with (P := fun _ => True).
    + apply succeeds_weighted; [reflexivity | apply all_players_nonempty].
    + now intros g a g' _.
    + intros dboarder _. apply succeeds_ret.
Qed.

Lemma missed_shot_succeeds (off defn : Team) (off_syn def_syn : Synergy)
    (shooter : Player) (drew_foul : bool) (stats : Stats) :
  succeeds (missed_shot off defn off_syn def_syn (all_players off) shooter
                        drew_foul stats).
Proof.
  unfold missed_shot. cbv zeta.
  destruct drew_foul; [|apply rebound_chain_succeeds].
  eapply succeeds_bind with (P := fun _ => True).
  - apply free_throws_succeeds.
  - now intros g a g' _.
  - intros k _. destruct (negb _); [apply succeeds_ret|].
    apply rebound_chain_succeeds.
Qed.

Lemma draw_foul_succeeds (is_three : bool) (p : Q) :
  succeeds (draw_foul is_three p).
Proof.
  unfold draw_foul. destruct is_three; cbn [negb]; [apply succeeds_ret|].
  apply succeeds_draw. intro u. apply succeeds_ret.
Qed.

Lemma possession_succeeds (off defn : Team) :
  NoDup (all_players off) -> succeeds (possession off defn).
Proof.
  intro Hnd. unfold possession. cbv zeta.
  apply succeeds_draw. intro u. destruct (Qltb u _); [apply succeeds_ret|].
  unfold shot_attempt. cbv zeta.
  eapply succeeds_bind.
  - apply succeeds_weighted; [reflexivity | apply all_players_nonempty].
  - apply ensures_choices.
  - intros shooter Hsh. cbv beta.
    apply succeeds_draw. intro u1. apply succeeds_draw. intro u2.
    eapply succeeds_bind with (P := fun _ => True).
    + apply draw_foul_succeeds.
    + now intros g a g' _.
    + intros drew_foul _. apply succeeds_draw. intro u3.
      destruct (Qltb u3 _).
      * now apply made_shot_succeeds.
      * apply missed_shot_succeeds.
Qed.

Lemma game_step_succeeds (team_a team_b : Team) (i : nat) (st : GameState) :
  NoDup (all_players team_a) -> NoDup (all_players team_b) ->
  succeeds (game_step team_a team_b i st).
Proof.
  intros Ha Hb. destruct st as [[score_a score_b] box]. unfold game_step.
  destruct (Nat.eqb (i mod 2) 0).
  - eapply succeeds_bind;
      [now apply possession_succeeds | apply possession_good|].
    intros [pts stats] (items & Hs & Ho). cbn [fst snd] in Hs, Ho. subst stats.
    destruct (merge_stats_items items (outcome_items_ok _ _ _ _ Ho) box)
      as (box2 & E & _).
    rewrite E. intro g. now eexists _, g.
  - eapply succeeds_bind;
      [now apply possession_succeeds | apply possession_good|].
    intros [pts stats] (items & Hs & Ho). cbn [fst snd] in Hs, Ho. subst stats.
    destruct (merge_stats_items items (outcome_items_ok _ _ _ _ Ho) box)
      as (box2 & E & _).
    rewrite E. intro g. now eexists _, g.
Qed.

Lemma game_loop_succeeds (team_a team_b : Team) (range : list nat) :
  NoDup (all_players team_a) -> NoDup (all_players team_b) ->
  forall st, succeeds (game_loop team_a team_b range st).
Proof.
  intros Ha Hb. induction range as [|i range IH]; intro st.
  - apply succeeds_ret.
  - cbn [game_loop]. eapply succeeds_bind with (P := fun _ => True).
    + now apply game_step_succeeds.
    + now intros g a g' _.
    + intros st' _. apply IH.
Qed.

Lemma simulate_game_succeeds (rng_seed : Z -> tape) (team_a team_b : Team)
    (seed : option Z) :
  NoDup (all_players team_a) -> NoDup (all_players team_b) ->
  succeeds (simulate_game rng_seed team_a team_b seed).
Proof.
  intros Ha Hb. unfold simulate_game.
  eapply succeeds_bind with (P := fun _ => True).
  - intro g. now eexists _, _.
  - now intros g a g' _.
  - intros _ _. cbv zeta. eapply succeeds_bind with (P := fun _ => True).
    + now apply game_loop_succeeds.
    + now intros g a g' _.
    + intros [[score_a score_b] box] _. apply succeeds_ret.
Qed.

Lemma NoDup_map_inv {A B} (f : A -> B) (l : list A) :
  NoDup (map f l) -> NoDup l.
Proof.
  induction l as [|x l IH]; intro H; [constructor|].
  inversion H as [|? ? Hx H']; subst. constructor; [|now apply IH].
  intro Hin. apply Hx. now apply in_map.
Qed.

Lemma example_players_distinct :
  NoDup (all_players example_a) /\ NoDup (all_players example_b).
Proof.
  pose proof example_names_distinct as H. rewrite map_app in H.
  split; eapply NoDup_map_inv;
    [exact (NoDup_app_l _ _ H) | exact (NoDup_app_r _ _ H)].
Qed.

Lemma box_accumulates_points_witness :
  match simulate_game example_seed example_a example_b (Some 42) (tape_of [])
  with
  | Some (res, _) =>
      fst (score res) = team_total (box res) "pts" (all_players example_a) /\
      snd (score res) = team_total (box res) "pts" (all_players example_b)
  | None => False
  end.
Proof.
  destruct (simulate_game example_seed example_a example_b (Some 42)
                          (tape_of [])) as [[res g']|] eqn:E.
  - exact (proj2 (box_accumulates_points _ _ _ _ _ _ _
                    example_names_distinct E)).
  - destruct (simulate_game_succeeds example_seed example_a example_b
                (Some 42) (proj1 example_players_distinct)
                (proj2 example_players_distinct) (tape_of []))
      as (r & g1 & E1).
    rewrite E in E1. discriminate E1.
Defined.

(** ** Consistency of the box lines *)

Lemma consistent_step (team_a team_b : Team) :
  forall i st,
    (let '(_, _, box) := st in
     forall n,
       box_stat box n "fgm" <= box_stat box n "fga" /\
       box_stat box n "ftm" <= box_stat box n "fta" /\
       forall s, 0 <= box_stat box n s) ->
    ensures (game_step team_a team_b i st)
      (fun st' => let '(_, _, box) := st' in
         forall n,
           box_stat box n "fgm" <= box_stat box n "fga" /\
           box_stat box n "ftm" <= box_stat box n "fta" /\
           forall s, 0 <= box_stat box n s).
Proof.
  intros i [[score_a score_b] box] H.
  eapply ensures_weaken; [apply ensures_game_step|].
  intros st' (pts & items & box' & Hbox & [[-> Ho]|[-> Ho]]); intro n;
    destruct (H n) as (H1 & H2 & H3);
    destruct (outcome_consistent _ _ _ _ Ho n) as (K1 & K2 & K3);
    rewrite !Hbox; (split; [lia | split; [lia|]]);
    intro s; rewrite Hbox; specialize (H3 s); specialize (K3 s); lia.
Qed.

(** What a possession records for free throws: nothing, or two attempts
    together with one or two makes. *)
Lemma outcome_free_throws (off defn : Team) (pts : Z) (items : list Item) :
  outcome off defn pts items ->
  forall n v, item_get n "fta" items = Some v ->
    v = 2 /\ exists k, (k = 1 \/ k = 2) /\ item_get n "ftm" items = Some k.
Proof.
  destruct 1; intros n v;
    cbn [item_get String.eqb Ascii.eqb Bool.eqb andb]; try discriminate.
  destruct (String.eqb n (name shooter)); [|discriminate].
  intros [= <-]. split; [reflexivity|]. now exists ft_makes.
Qed.

(** C9: in every result of [simulate_game], each box line has
    [0 <= fgm <= fga] and [0 <= ftm <= fta] and no negative statistic;
    free-throw attempts are recorded only with at least one make, and a
    trip with both free throws missed goes on to the rebound chain, which
    records neither [fta] nor [ftm]. *)
Theorem box_lines_consistent (rng_seed : Z -> tape) (team_a team_b : Team)
    (seed : option Z) (g g' : tape) (res : Result) :
  simulate_game rng_seed team_a team_b seed g = Some (res, g') ->
  (forall n row, sget n (box res) = Some row ->
     0 <= sget_or "fgm" 0 row <= sget_or "fga" 0 row /\
     0 <= sget_or "ftm" 0 row <= sget_or "fta" 0 row /\
     forall s v, sget s row = Some v -> 0 <= v) /\
  (forall off defn g0 pts stats g1,
     possession off defn g0 = Some (pts, stats, g1) ->
     forall n v, sget (stat_key n "fta") stats = Some v ->
       v = 2 /\ exists k, (k = 1 \/ k = 2) /\
                          sget (stat_key n "ftm") stats = Some k) /\
  (forall off defn off_syn def_syn players shooter g0,
     Qltb (g0 0%nat) (ft_prob def_syn shooter) = false ->
     Qltb (g0 1%nat) (ft_prob def_syn shooter) = false ->
     missed_shot off defn off_syn def_syn players shooter true [] g0
     = rebound_chain off defn off_syn def_syn players shooter
         (stat_add (stat_key (name shooter) "fga") 1 [])
         (tape_tl (tape_tl g0))) /\
  (forall off defn off_syn def_syn players shooter,
     ensures (rebound_chain off defn off_syn def_syn players shooter
                (stat_add (stat_key (name shooter) "fga") 1 []))
             (fun r => forall n,
                sget (stat_key n "fta") (snd r) = None /\
                sget (stat_key n "ftm") (snd r) = None)).
Proof.
  intro Hrun. split; [|split; [|split]].
  - pose proof (ensures_simulate_game rng_seed team_a team_b seed
                  (fun st => let '(_, _, box) := st in
                     forall n,
                       box_stat box n "fgm" <= box_stat box n "fga" /\
                       box_stat box n "ftm" <= box_stat box n "fta" /\
                       forall s, 0 <= box_stat box n s)) as H.
    cbv beta iota in H.
    specialize (H (fun n => conj (Z.le_refl 0) (conj (Z.le_refl 0)
                                   (fun s => Z.le_refl 0)))
                  (consistent_step team_a team_b) g res g' Hrun).
    cbv beta iota in H.
    intros n row Hrow. destruct (H n) as (H1 & H2 & H3).
    pose proof (H3 "fgm"%string) as P1. pose proof (H3 "ftm"%string) as P2.
    pose proof (fun s => box_stat_some (box res) n s row Hrow) as Hbs.
    rewrite (Hbs "fgm"%string), (Hbs "fga"%string) in H1.
    rewrite (Hbs "ftm"%string), (Hbs "fta"%string) in H2.
    rewrite Hbs in P1, P2.
    split; [lia | split; [lia|]].
    intros s v Hv. specialize (H3 s).
    rewrite Hbs, (sget_or_some _ _ _ _ Hv) in H3.
    exact H3.
  - intros off defn g0 pts stats g1 H n v.
    destruct (possession_outcome _ _ _ _ _ _ H) as (items & -> & Ho).
    pose proof (outcome_items_ok _ _ _ _ Ho) as Hok.
    rewrite !sget_stats_of by (reflexivity || assumption).
    apply (outcome_free_throws _ _ _ _ Ho).
  - intros. now apply missed_both_free_throws.
  - intros. apply rebound_chain_no_free_throw.
Qed.

Lemma box_lines_consistent_witness :
  match simulate_game example_seed example_a example_b (Some 42) (tape_of [])
  with
  | Some (res, _) =>
      forall n row, sget n (box res) = Some row ->
        0 <= sget_or "fgm" 0 row <= sget_or "fga" 0 row /\
        0 <= sget_or "ftm" 0 row <= sget_or "fta" 0 row /\
        forall s v, sget s row = Some v -> 0 <= v
  | None => False
  end.
Proof.
  destruct (simulate_game example_seed example_a example_b (Some 42)
                          (tape_of [])) as [[res g']|] eqn:E.
  - exact (proj1 (box_lines_consistent _ _ _ _ _ _ _ E)).
  - destruct (simulate_game_succeeds example_seed example_a example_b
                (Some 42) (proj1 example_players_distinct)
                (proj2 example_players_distinct) (tape_of []))
      as (r & g1 & E1).
    rewrite E in E1. discriminate E1.
Defined.

(** ** The schedule of possessions *)

Lemma pace_bounds (t : Team) : (90 <= pace (team_synergy t) <= 104)%Q.
Proof.
  unfold team_synergy. cbv zeta. cbn [pace].
  apply clamp_bounds. discriminate.
Qed.

Lemma py_int_bounds (x : Q) (lo hi : Z) :
  0 <= lo -> (inject_Z lo <= x <= inject_Z hi)%Q -> lo <= py_int x <= hi.
Proof.
  intros Hlo [H1 H2]. unfold py_int. destruct x as [a b].
  unfold Qle, inject_Z in *. cbn [Qnum Qden] in *.
  assert (Ha : 0 <= a) by nia.
  rewrite Z.quot_div_nonneg by lia.
  split.
  - apply Z.div_le_lower_bound; lia.
  - apply Z.div_le_upper_bound; lia.
Qed.

Lemma average_pace_bounds (a b : Q) :
  (90 <= a <= 104)%Q -> (90 <= b <= 104)%Q ->
  (inject_Z 90 <= (a + b) / 2.0 <= inject_Z 104)%Q.
Proof.
  intros [A1 A2] [B1 B2].
  change (inject_Z 90) with 90%Q. change (inject_Z 104) with 104%Q.
  assert (E : ((a + b) / 2.0 == (a + b) * (1 # 2))%Q)
    by (unfold Qdiv; apply Qmult_comp; [reflexivity | reflexivity]).
  rewrite E. split; lra.
Qed.

Lemma bind_assoc {A B D} (m : M A) (f : A -> M B) (h : B -> M D) (g : tape) :
  bind (bind m f) h g = bind m (fun x => bind (f x) h) g.
Proof. unfold bind. now destruct (m g) as [[a g1]|]. Qed.

Lemma bind_ret {A B} (a : A) (f : A -> M B) (g : tape) :
  bind (ret a) f g = f a g.
Proof. reflexivity. Qed.







(** ** The shot path, draw by draw *)

(** [possession] after the turnover check, as a function of the draws:
    the shooter's draw, the assist draw and the shot-type draw; for a
    three the next draw is the make, for a two the next draw is the foul
    and the one after it the make. *)
Lemma shot_attempt_cases (off defn : Team) (off_syn def_syn : Synergy)
    (g0 : tape) :
  shot_attempt off defn off_syn def_syn [] g0
  = match choices (all_players off)
                  (map (fun p => py_max 0.05 (usage (ratings p)))
                       (all_players off)) g0 with
    | None => None
    | Some (shooter, g1) =>
        let assisted := Qltb (g1 0%nat) (assist_prob off_syn shooter) in
        if Qltb (g1 1%nat) (p3_prob off_syn def_syn shooter)
        then
          (if Qltb (g1 2%nat) (make_prob off_syn def_syn shooter true)
           then made_shot (all_players off) shooter assisted true []
           else missed_shot off defn off_syn def_syn (all_players off)
                            shooter false [])
            (tape_tl (tape_tl (tape_tl g1)))
        else
          (if Qltb (g1 3%nat) (make_prob off_syn def_syn shooter false)
           then made_shot (all_players off) shooter assisted false []
           else missed_shot off defn off_syn def_syn (all_players off)
                            shooter
                            (Qltb (g1 2%nat) (foul_prob def_syn shooter)) [])
            (tape_tl (tape_tl (tape_tl (tape_tl g1))))
    end.
Proof.
  unfold shot_attempt. cbv zeta. unfold bind at 1.
  destruct (choices _ _ g0) as [[shooter g1]|]; [|reflexivity].
  rewrite !bind_random.
  change (tape_tl g1 0%nat) with (g1 1%nat).
  destruct (Qltb (g1 1%nat) (p3_prob off_syn def_syn shooter)).
  - unfold draw_foul. cbn [negb]. rewrite bind_ret. cbv beta.
    apply bind_random.
  - unfold draw_foul. cbn [negb]. rewrite bind_assoc, bind_random, bind_ret.
    cbv beta. apply bind_random.
Qed.

Lemma possession_cases (off defn : Team) (g : tape) :
  possession off defn g
  = if Qltb (g 0%nat) (tov_prob (team_synergy off) (team_synergy defn))
    then Some (0, [], tape_tl g)
    else shot_attempt off defn (team_synergy off) (team_synergy defn) []
                      (tape_tl g).
Proof.
  assert (E : possession off defn g
              = (if Qltb (g 0%nat)
                         (tov_prob (team_synergy off) (team_synergy defn))
                 then ret (0, [])
                 else shot_attempt off defn (team_synergy off)
                                   (team_synergy defn) []) (tape_tl g))
    by reflexivity.
  rewrite E. now destruct (Qltb (g 0%nat) _).
Qed.

(** ** Lineups of at least two players *)









(** ** A lineup of one player *)


















(** ** Turnovers *)

Lemma stat_add_nonempty (k : string) (v : Z) (stats : Stats) :
  stat_add k v stats <> [].
Proof.
  unfold stat_add, sset. destruct stats as [|[k' v'] stats]; cbn [dict_set].
  - discriminate.
  - destruct (String.eqb k k'); discriminate.
Qed.

Lemma shot_attempt_nonempty (off defn : Team) (off_syn def_syn : Synergy)
    (stats : Stats) :
  ensures (shot_attempt off defn off_syn def_syn stats) (fun r => snd r <> []).
Proof.
  unfold shot_attempt. cbv zeta.
  eapply ensures_bind with (P := fun _ => True); [now intros g a g' _|].
  intros shooter _. cbv beta.
  apply ensures_draw. intro u1. apply ensures_draw. intro u2.
  eapply ensures_bind with (P := fun _ => True); [now intros g a g' _|].
  intros drew_foul _. cbv beta.
  apply ensures_draw. intro u3. destruct (Qltb u3 _).
  - unfold made_shot. cbv zeta. destruct (Qltb u1 _).
    + eapply ensures_bind with (P := fun _ => True); [now intros g a g' _|].
      intros passer _. apply ensures_ret. apply stat_add_nonempty.
    + apply ensures_ret. apply stat_add_nonempty.
  - unfold missed_shot. cbv zeta.
    assert (R : forall st,
               ensures (rebound_chain off defn off_syn def_syn
                          (all_players off) shooter st)
                       (fun r => snd r <> [])).
    { intro st. unfold rebound_chain.
      apply ensures_draw. intro u4. destruct (Qltb u4 _).
      - eapply ensures_bind with (P := fun _ => True); [now intros g a g' _|].
        intros boarder _. cbv zeta. apply ensures_draw. intro u5.
        destruct (Qltb u5 _); apply ensures_ret; apply stat_add_nonempty.
      - eapply ensures_bind with (P := fun _ => True); [now intros g a g' _|].
        intros dboarder _. apply ensures_ret. apply stat_add_nonempty. }
    destruct drew_foul; [|apply R].
    eapply ensures_bind with (P := fun _ => True); [now intros g a g' _|].
    intros k _. destruct (negb _); [|apply R].
    apply ensures_ret. apply stat_add_nonempty.
Qed.

(** C4: the first draw of a possession decides the turnover.  Below the
    turnover probability, the possession returns at once with 0 points
    and an empty update, and merging that update leaves the box as it
    is; otherwise the possession goes on to the shot, whose update is
    never empty. *)
Theorem turnover_first (off defn : Team) (g : tape) :
  let tov := tov_prob (team_synergy off) (team_synergy defn) in
  (Qltb (g 0%nat) tov = true ->
   possession off defn g = Some (0, [], tape_tl g)) /\
  (Qltb (g 0%nat) tov = false ->
   possession off defn g
   = shot_attempt off defn (team_synergy off) (team_synergy defn) []
                  (tape_tl g)) /\
  (forall pts stats g',
     possession off defn g = Some (pts, stats, g') ->
     (stats = [] <-> Qltb (g 0%nat) tov = true)) /\
  (forall box, merge_stats box [] = Some box).
Proof.
  intro tov.
  assert (E : possession off defn g
              = (if Qltb (g 0%nat) tov then ret (0, [])
                 else shot_attempt off defn (team_synergy off)
                                   (team_synergy defn) []) (tape_tl g))
    by reflexivity.
  split; [|split; [|split]].
  - intro H. rewrite E, H. reflexivity.
  - intro H. rewrite E, H. reflexivity.
  - intros pts stats g' H. rewrite E in H.
    destruct (Qltb (g 0%nat) tov).
    + injection H as _ <- _. now split.
    + apply shot_attempt_nonempty in H. cbn [snd] in H.
      split; [intro; contradiction | discriminate].
  - reflexivity.
Qed.

(** ** Free throws *)

Lemma made_shot_no_free_throw (players : list Player) (shooter : Player)
    (assisted is_three : bool) :
  ensures (made_shot players shooter assisted is_three [])
          (fun r => forall n,
             sget (stat_key n "fta") (snd r) = None /\
             sget (stat_key n "ftm") (snd r) = None).
Proof.
  unfold made_shot. cbv zeta. destruct assisted.
  - eapply ensures_bind with (P := fun _ => True); [now intros g a g' _|].
    intros passer _. apply ensures_ret. cbn [snd]. stats_to_items.
    intro n. rewrite !sget_stats_of by auto 10 with items.
    destruct is_three;
      cbn [item_add item_get String.eqb Ascii.eqb Bool.eqb andb]; auto.
  - apply ensures_ret. cbn [snd]. stats_to_items.
    intro n. rewrite !sget_stats_of by auto 10 with items.
    destruct is_three;
      cbn [item_add item_get String.eqb Ascii.eqb Bool.eqb andb]; auto.
Qed.

(** The free throws a possession records come with one missed field-goal
    attempt and nothing else. *)
Lemma outcome_free_throw_trip (off defn : Team) (pts : Z) (items : list Item) :
  outcome off defn pts items ->
  forall n v, item_get n "fta" items = Some v ->
    exists shooter,
      In shooter (all_players off) /\ n = name shooter /\ v = 2 /\
      (pts = 1 \/ pts = 2) /\
      items = [(n, "fga", 1); (n, "pts", pts); (n, "fta", 2);
               (n, "ftm", pts)]%string.
Proof.
  destruct 1; intros n v;
    cbn [item_get String.eqb Ascii.eqb Bool.eqb andb]; try discriminate.
  destruct (String.eqb_spec n (name shooter)) as [->|]; [|discriminate].
  intros [= <-]. now exists shooter.
Qed.

Lemma some_triple_inv {A B D} (a a' : A) (b b' : B) (d d' : D) :
  Some (a, b, d) = Some (a', b', d') -> a = a' /\ b = b' /\ d = d'.
Proof. intros [= -> -> ->]. repeat split. Qed.

Lemma missed_without_foul (off defn : Team) (off_syn def_syn : Synergy)
    (players : list Player) (shooter : Player) (g : tape) :
  missed_shot off defn off_syn def_syn players shooter false [] g
  = rebound_chain off defn off_syn def_syn players shooter
      (stat_add (stat_key (name shooter) "fga") 1 []) g.
Proof. reflexivity. Qed.

(** A possession that records free throws was a two-point attempt that
    missed, with the foul drawn. *)
Lemma free_throws_need_foul_on_two (off defn : Team) (g g' : tape) (pts : Z)
    (stats : Stats) (n : string) (v : Z) :
  possession off defn g = Some (pts, stats, g') ->
  sget (stat_key n "fta") stats = Some v ->
  Qltb (g 0%nat) (tov_prob (team_synergy off) (team_synergy defn)) = false /\
  exists shooter g1,
    choices (all_players off)
            (map (fun p => py_max 0.05 (usage (ratings p))) (all_players off))
            (tape_tl g) = Some (shooter, g1) /\
    n = name shooter /\
    Qltb (g1 1%nat) (p3_prob (team_synergy off) (team_synergy defn) shooter)
    = false /\
    Qltb (g1 2%nat) (foul_prob (team_synergy defn) shooter) = true /\
    Qltb (g1 3%nat) (make_prob (team_synergy off) (team_synergy defn)
                               shooter false) = false.
Proof.
  intros H Hv. rewrite possession_cases in H.
  destruct (Qltb (g 0%nat) _) eqn:Et.
  - injection H as _ <- _. discriminate Hv.
  - split; [reflexivity|]. rewrite shot_attempt_cases in H.
    destruct (choices _ _ (tape_tl g)) as [[shooter g1]|] eqn:Ec;
      [|discriminate H].
    exists shooter, g1. split; [reflexivity|]. cbv zeta in H.
    assert (Hmade : forall assisted is_three g2,
              made_shot (all_players off) shooter assisted is_three [] g2
              = Some (pts, stats, g') -> False).
    { intros assisted is_three g2 Hm.
      destruct (made_shot_no_free_throw _ _ _ _ _ _ _ Hm n) as [F _].
      cbn [snd] in F. congruence. }
    assert (Hreb : forall g2,
              rebound_chain off defn (team_synergy off) (team_synergy defn)
                (all_players off) shooter
                (stat_add (stat_key (name shooter) "fga") 1 []) g2
              = Some (pts, stats, g') -> False).
    { intros g2 Hr.
      destruct (rebound_chain_no_free_throw _ _ _ _ _ _ _ _ _ Hr n) as [F _].
      cbn [snd] in F. congruence. }
    destruct (Qltb (g1 1%nat) _) eqn:E3.
    + destruct (Qltb (g1 2%nat) _); [now elim (Hmade _ _ _ H)|].
      rewrite missed_without_foul in H. now elim (Hreb _ H).
    + destruct (Qltb (g1 3%nat) _) eqn:Em; [now elim (Hmade _ _ _ H)|].
      destruct (Qltb (g1 2%nat) _) eqn:Ef;
        [|rewrite missed_without_foul in H; now elim (Hreb _ H)].
      split; [|split; [reflexivity | split; reflexivity]].
      set (g4 := tape_tl (tape_tl (tape_tl (tape_tl g1)))) in *.
      set (k := (if Qltb (g4 0%nat) (ft_prob (team_synergy defn) shooter)
                 then 1 else 0)
                + (if Qltb (g4 1%nat) (ft_prob (team_synergy defn) shooter)
                   then 1 else 0)).
      destruct (Z.eq_dec k 0) as [Hk|Hk].
      * rewrite missed_both_free_throws in H.
        -- now elim (Hreb _ H).
        -- subst k. destruct (Qltb (g4 0%nat) _); [|reflexivity].
           destruct (Qltb (g4 1%nat) _); discriminate Hk.
        -- subst k. destruct (Qltb (g4 1%nat) _); [|reflexivity].
           destruct (Qltb (g4 0%nat) _); discriminate Hk.
      * rewrite (made_free_throws off defn _ _ _ shooter g4 Hk) in H.
        destruct (some_triple_inv _ _ _ _ _ _ H) as (_ & Hs & _).
        rewrite <- Hs in Hv. rewrite sget_stats_of in Hv
          by (reflexivity || (repeat (apply items_ok_cons; [reflexivity|]);
                              apply items_ok_nil)).
        cbn [item_get String.eqb Ascii.eqb Bool.eqb andb] in Hv.
        destruct (String.eqb_spec n (name shooter)) as [E|]; [exact E|].
        discriminate Hv.
Qed.

(** C5: free throws arise only from missed two-point attempts.  A made
    shot records no free throw.  In [possession], draw by draw: after
    the turnover check and the choice of the shooter, a three-point
    attempt takes no foul draw, its make draw follows the three draw at
    once and its miss goes straight to the rebound chain; a two-point
    attempt takes the foul draw before the make draw, and only its miss
    runs the missed-shot path with the foul.  A drawn foul spends
    exactly two free-throw draws after the miss, recording two attempts
    when at least one is made, and going on to the rebound chain when
    both miss.  Any possession that records free throws was a missed
    two-point attempt with the foul drawn, and records one missed
    field-goal attempt, two free-throw attempts and one or two makes,
    nothing else. *)
Theorem free_throws_after_missed_two :
  (forall players shooter assisted is_three,
     ensures (made_shot players shooter assisted is_three [])
             (fun r => forall n,
                sget (stat_key n "fta") (snd r) = None /\
                sget (stat_key n "ftm") (snd r) = None)) /\
  (forall foul_prob g, draw_foul true foul_prob g = Some (false, g)) /\
  (forall off defn off_syn def_syn players shooter g,
     missed_shot off defn off_syn def_syn players shooter false [] g
     = rebound_chain off defn off_syn def_syn players shooter
         (stat_add (stat_key (name shooter) "fga") 1 []) g) /\
  (forall off defn off_syn def_syn players shooter g,
     let k := (if Qltb (g 0%nat) (ft_prob def_syn shooter) then 1 else 0)
              + (if Qltb (g 1%nat) (ft_prob def_syn shooter) then 1 else 0) in
     (k <> 0 ->
      missed_shot off defn off_syn def_syn players shooter true [] g
      = Some (k, stats_of [(name shooter, "fga", 1); (name shooter, "pts", k);
                           (name shooter, "fta", 2);
                           (name shooter, "ftm", k)]%string,
              tape_tl (tape_tl g))) /\
     (k = 0 ->
      missed_shot off defn off_syn def_syn players shooter true [] g
      = rebound_chain off defn off_syn def_syn players shooter
          (stat_add (stat_key (name shooter) "fga") 1 [])
          (tape_tl (tape_tl g)))) /\
  (forall off defn g pts stats g',
     possession off defn g = Some (pts, stats, g') ->
     forall n v, sget (stat_key n "fta") stats = Some v ->
       exists shooter,
         In shooter (all_players off) /\ n = name shooter /\ v = 2 /\
         (pts = 1 \/ pts = 2) /\
         stats = stats_of [(n, "fga", 1); (n, "pts", pts); (n, "fta", 2);
                           (n, "ftm", pts)]%string) /\
  (forall off defn g,
     let off_syn := team_synergy off in
     let def_syn := team_synergy defn in
     let players := all_players off in
     possession off defn g
     = if Qltb (g 0%nat) (tov_prob off_syn def_syn)
       then Some (0, [], tape_tl g)
       else
         match choices players
                       (map (fun p => py_max 0.05 (usage (ratings p))) players)
                       (tape_tl g) with
         | None => None
         | Some (shooter, g1) =>
             let assisted := Qltb (g1 0%nat) (assist_prob off_syn shooter) in
             if Qltb (g1 1%nat) (p3_prob off_syn def_syn shooter)
             then
               (if Qltb (g1 2%nat) (make_prob off_syn def_syn shooter true)
                then made_shot players shooter assisted true []
                else rebound_chain off defn off_syn def_syn players shooter
                       (stat_add (stat_key (name shooter) "fga") 1 []))
                 (tape_tl (tape_tl (tape_tl g1)))
             else
               (if Qltb (g1 3%nat) (make_prob off_syn def_syn shooter false)
                then made_shot players shooter assisted false []
                else missed_shot off defn off_syn def_syn players shooter
                       (Qltb (g1 2%nat) (foul_prob def_syn shooter)) [])
                 (tape_tl (tape_tl (tape_tl (tape_tl g1))))
         end) /\
  (forall off defn g pts stats g',
     possession off defn g = Some (pts, stats, g') ->
     forall n v, sget (stat_key n "fta") stats = Some v ->
       Qltb (g 0%nat) (tov_prob (team_synergy off) (team_synergy defn))
       = false /\
       exists shooter g1,
         choices (all_players off)
                 (map (fun p => py_max 0.05 (usage (ratings p)))
                      (all_players off))
                 (tape_tl g) = Some (shooter, g1) /\
         n = name shooter /\
         Qltb (g1 1%nat)
              (p3_prob (team_synergy off) (team_synergy defn) shooter)
         = false /\
         Qltb (g1 2%nat) (foul_prob (team_synergy defn) shooter) = true /\
         Qltb (g1 3%nat)
              (make_prob (team_synergy off) (team_synergy defn) shooter false)
         = false).
Proof.
  split; [|split; [|split; [|split; [|split; [|split]]]]].
  - intros. apply made_shot_no_free_throw.
  - reflexivity.
  - reflexivity.
  - intros off defn off_syn def_syn players shooter g k. split.
    + intro Hk. now apply made_free_throws.
    + intro Hk. apply missed_both_free_throws.
      * subst k. destruct (Qltb (g 0%nat) _); [|reflexivity].
        destruct (Qltb (g 1%nat) _); discriminate Hk.
      * subst k. destruct (Qltb (g 1%nat) _); [|reflexivity].
        destruct (Qltb (g 0%nat) _); discriminate Hk.
  - intros off defn g pts stats g' H n v.
    destruct (possession_outcome _ _ _ _ _ _ H) as (items & -> & Ho).
    rewrite sget_stats_of
      by (reflexivity || exact (outcome_items_ok _ _ _ _ Ho)).
    intro Hv.
    destruct (outcome_free_throw_trip _ _ _ _ Ho n v Hv)
      as (shooter & Hsh & Hn & Hv2 & Hp & ->).
    now exists shooter.
  - intros off defn g off_syn def_syn players.
    rewrite possession_cases. fold off_syn def_syn.
    destruct (Qltb (g 0%nat) _); [reflexivity|].
    rewrite shot_attempt_cases. fold players.
    destruct (choices players _ (tape_tl g)) as [[shooter g1]|];
      [|reflexivity].
    cbv zeta. destruct (Qltb (g1 1%nat) _); [|reflexivity].
    destruct (Qltb (g1 2%nat) _); reflexivity.
  - intros off defn g pts stats g' H n v Hv.
    exact (free_throws_need_foul_on_two off defn g g' pts stats n v H Hv).
Qed.

(** ** Assists *)

Lemma outcome_assist (off defn : Team) (pts : Z) (items : list Item) :
  outcome off defn pts items ->
  forall n v, item_get n "ast" items = Some v ->
    exists shooter passer,
      In shooter (all_players off) /\ In passer (all_players off) /\
      passer <> shooter /\ n = name passer /\ v = 1 /\
      items = [(name shooter, "pts", pts); (name shooter, "fga", 1);
               (name shooter, "fgm", 1); (name passer, "ast", 1)]%string.
Proof.
  destruct 1; intros n v;
    cbn [item_get String.eqb Ascii.eqb Bool.eqb andb]; try discriminate.
  destruct (String.eqb_spec n (name passer)) as [->|]; [|discriminate].
  intros [= <-]. now exists shooter, passer.
Qed.

(** The passer of an assisted basket is a lineup player other than the
    shooter as an object, one of four in a lineup of five distinct
    objects; whenever a possession records an assist, it is on a made
    basket, under the name of that passer. *)
Lemma passer_other_object (off defn : Team) :
  (forall shooter,
     NoDup (all_players off) -> In shooter (all_players off) ->
     List.length (filter (fun p => negb (is_obj p shooter)) (all_players off))
     = 4%nat) /\
  (forall shooter is_three,
     ensures (made_shot (all_players off) shooter true is_three [])
       (fun r => exists passer,
          In passer (filter (fun p => negb (is_obj p shooter))
                            (all_players off)) /\
          In passer (all_players off) /\ passer <> shooter /\
          snd r = stats_of [(name shooter, "pts", fst r);
                            (name shooter, "fga", 1);
                            (name shooter, "fgm", 1);
                            (name passer, "ast", 1)]%string)) /\
  (forall g pts stats g',
     possession off defn g = Some (pts, stats, g') ->
     forall n v, sget (stat_key n "ast") stats = Some v ->
       exists sh passer,
         In sh (all_players off) /\ In passer (all_players off) /\
         passer <> sh /\ n = name passer /\ v = 1 /\
         stats = stats_of [(name sh, "pts", pts); (name sh, "fga", 1);
                           (name sh, "fgm", 1);
                           (name passer, "ast", 1)]%string).
Proof.
  split; [|split].
  - intros shooter Hnd Hsh. now rewrite (mates_length shooter _ Hnd Hsh).
  - intros shooter is_three. unfold made_shot. cbv zeta.
    eapply ensures_bind; [apply ensures_choices|].
    intros passer Hm. pose proof (filter_not_is_obj _ _ _ Hm) as [Hin Hne].
    apply ensures_ret. exists passer.
    split; [exact Hm | split; [exact Hin | split; [exact Hne|]]].
    cbn [fst snd]. stats_to_items.
    destruct is_three;
      cbn [item_add String.eqb Ascii.eqb Bool.eqb andb Z.add]; reflexivity.
  - intros g pts stats g' H n v.
    destruct (possession_outcome _ _ _ _ _ _ H) as (items & -> & Ho).
    rewrite sget_stats_of
      by (reflexivity || exact (outcome_items_ok _ _ _ _ Ho)).
    intro Hv.
    destruct (outcome_assist _ _ _ _ Ho n v Hv)
      as (sh & passer & H1 & H2 & H3 & H4 & H5 & ->).
    now exists sh, passer.
Qed.

Lemma NoDup_map_distinct {A B} (f : A -> B) (l : list A) (a b : A) :
  NoDup (map f l) -> In a l -> In b l -> a <> b -> f a <> f b.
Proof.
  induction l as [|x l IH]; intros Hnd Ha Hb Hne E; [exact Ha|].
  cbn [map] in Hnd. inversion Hnd as [|? ? Hx Hnd']; subst.
  destruct Ha as [->|Ha], Hb as [->|Hb].
  - now apply Hne.
  - apply Hx. rewrite E. now apply in_map.
  - apply Hx. rewrite <- E. now apply in_map.
  - exact (IH Hnd' Ha Hb Hne E).
Qed.

(** In a lineup whose five names are pairwise distinct, the assist of a
    possession goes to the box line of one of the shooter's four
    teammates, not to the shooter's. *)
Lemma assist_line_not_shooter (off defn : Team) (g g' : tape) (pts : Z)
    (stats : Stats) (n : string) (v : Z) :
  NoDup (map name (all_players off)) ->
  possession off defn g = Some (pts, stats, g') ->
  sget (stat_key n "ast") stats = Some v ->
  exists sh passer,
    In sh (all_players off) /\
    List.length (filter (fun p => negb (is_obj p sh)) (all_players off))
    = 4%nat /\
    In passer (filter (fun p => negb (is_obj p sh)) (all_players off)) /\
    n = name passer /\ name passer <> name sh /\ v = 1 /\
    stats = stats_of [(name sh, "pts", pts); (name sh, "fga", 1);
                      (name sh, "fgm", 1); (name passer, "ast", 1)]%string.
Proof.
  intros Hnd H Hv.
  destruct (proj2 (proj2 (passer_other_object off defn)) g pts stats g' H n v Hv)
    as (sh & passer & Hs & Hp & Hne & Hn & Hv1 & Hst).
  exists sh, passer.
  split; [exact Hs|].
  split; [exact (proj1 (passer_other_object off defn) sh
                   (NoDup_map_inv _ _ Hnd) Hs)|].
  split; [apply filter_In; split;
            [exact Hp | now rewrite is_obj_false]|].
  split; [exact Hn|].
  split; [exact (NoDup_map_distinct name _ _ _ Hnd Hp Hs Hne)|].
  split; [exact Hv1 | exact Hst].
Qed.

(** C10 fails on the database as it is: rows 70 and 84 are the same
    Doug Christie line, two objects under one name.  The command-line
    draft that takes row 70 at shooting guard and row 84 at small
    forward builds a lineup in which the shooter, row 70, is not row 84,
    so row 84 stays among the passers; on the draws of [dc_tape] the
    basket of row 70 is assisted by row 84, the update credits the
    assist under the name of the shooter, and the game ends with one box
    line that holds both the basket and its assist.  The draft that
    takes row 84 at both positions leaves that shooter three teammates,
    not four. *)
Theorem doug_christie_self_assist :
  match draft_team dc_picks PLAYER_DB with
  | Some (lineup_a, _) =>
      forall pos, dict_get Pos_eqb pos lineup_a = Some (lineup dc_team pos)
  | None => False
  end /\
  name (db 70) = "Doug Christie"%string /\
  name (db 84) = "Doug Christie"%string /\
  is_obj (db 84) (db 70) = false /\
  filter (fun p => negb (is_obj p (db 70))) (all_players dc_team)
  = [db 3; db 84; db 6; db 2] /\
  option_map fst
    (choices (all_players dc_team)
             (map (fun p => py_max 0.05 (usage (ratings p)))
                  (all_players dc_team))
             (tape_tl dc_tape)) = Some (db 70) /\
  option_map fst
    (made_shot (all_players dc_team) (db 70) true false []
               (tape_of [0.6%Q]))
  = Some (2, stats_of [(name (db 70), "pts", 2); (name (db 70), "fga", 1);
                       (name (db 70), "fgm", 1);
                       (name (db 84), "ast", 1)]%string) /\
  option_map fst (possession dc_team example_b dc_tape)
  = Some (2, [("Doug Christie_pts", 2); ("Doug Christie_fga", 1);
              ("Doug Christie_fgm", 1); ("Doug Christie_ast", 1)]%string) /\
  option_map
    (fun r => (score (fst r), map fst (box (fst r)),
               box_stat (box (fst r)) "Doug Christie" "fgm",
               box_stat (box (fst r)) "Doug Christie" "ast"))
    (simulate_game example_seed dc_team example_b None dc_tape)
  = Some (2, 0, ["Doug Christie"%string], 1, 1) /\
  match draft_team dc_picks_twice PLAYER_DB with
  | Some (lineup_a, _) =>
      dict_get Pos_eqb SG lineup_a = Some (db 84) /\
      dict_get Pos_eqb SF lineup_a = Some (db 84) /\
      List.length
        (filter (fun p => negb (is_obj p (db 84)))
                (map (fun pos => match dict_get Pos_eqb pos lineup_a with
                                 | Some p => p
                                 | None => nobody
                                 end) POSITIONS)) = 3%nat
  | None => False
  end.
Proof.
  split; [vm_compute; intros []; reflexivity|].
  split; [reflexivity | split; [reflexivity|]].
  split; [vm_compute; reflexivity|].
  split; [vm_compute; reflexivity|].
  split; [vm_compute; reflexivity|].
  split; [vm_compute; reflexivity|].
  split; [vm_compute; reflexivity|].
  split; [vm_compute; reflexivity|].
  vm_compute. repeat split; reflexivity.
Qed.

(** ** The snake draft *)

Lemma make_pick_pointer (team_name : string) (pos : Pos) (player : Player)
    (st : DraftState) :
  (draft_round (make_pick team_name pos player st),
   draft_index (make_pick team_name pos player st))
  = if Z.eqb (draft_index st) 0 then (draft_round st, 1)
    else (draft_round st + 1, 0).
Proof.
  unfold make_pick, set_team_slot.
  destruct (String.eqb team_name "Team A"); cbn [draft_index draft_round];
    destruct (Z.eqb (draft_index st) 0); reflexivity.
Qed.

Lemma clock_trace_slots (picks : list (Pos * Player)) :
  forall st,
    clock_trace picks st
    = slots_from (draft_round st) (draft_index st) (List.length picks).
Proof.
  induction picks as [|[pos player] picks IH]; intro st; [reflexivity|].
  cbn [clock_trace List.length slots_from]. f_equal. rewrite IH.
  unfold click_pick.
  pose proof (make_pick_pointer (current_team_name st) pos player st) as H.
  destruct (Z.eqb (draft_index st) 0); injection H as -> ->; reflexivity.
Qed.

Lemma run_picks_pointer (picks : list (Pos * Player)) :
  forall st,
    draft_index st = 0 \/ draft_index st = 1 ->
    2 * draft_round (run_picks picks st) + draft_index (run_picks picks st)
    = 2 * draft_round st + draft_index st + Z.of_nat (List.length picks) /\
    (draft_index (run_picks picks st) = 0 \/
     draft_index (run_picks picks st) = 1).
Proof.
  induction picks as [|[pos player] picks IH]; intros st Hi.
  - cbn [run_picks List.length]. split; [lia | exact Hi].
  - cbn [run_picks List.length]. unfold click_pick.
    pose proof (make_pick_pointer (current_team_name st) pos player st) as H.
    set (st' := make_pick (current_team_name st) pos player st) in *.
    assert (Hi' : draft_index st' = 0 \/ draft_index st' = 1).
    { destruct (Z.eqb (draft_index st) 0); injection H as _ ->; auto. }
    destruct (IH st' Hi') as [E Hf]. split; [|exact Hf].
    rewrite E.
    destruct (Z.eqb_spec (draft_index st) 0) as [E0|N0];
      injection H as -> ->; lia.
Qed.

(** C6: the web draft follows the snake order over five rounds.  In an
    odd round the team at index 0 is Team A and the one at index 1 is
    Team B, in an even round the other way round; [make_pick] moves the
    pointer from index 0 to index 1 of the round and from index 1 to
    index 0 of the next round; so the teams on the clock over the ten
    picks from the initial state are those of the snake order, the draft
    stays open before the tenth pick and is complete after it. *)
Theorem snake_draft_order :
  (forall st,
     draft_round st mod 2 = 1 ->
     (draft_index st = 0 -> current_team_name st = "Team A"%string) /\
     (draft_index st = 1 -> current_team_name st = "Team B"%string)) /\
  (forall st,
     draft_round st mod 2 = 0 ->
     (draft_index st = 0 -> current_team_name st = "Team B"%string) /\
     (draft_index st = 1 -> current_team_name st = "Team A"%string)) /\
  (forall team_name pos player st,
     (draft_index st = 0 ->
      draft_round (make_pick team_name pos player st) = draft_round st /\
      draft_index (make_pick team_name pos player st) = 1) /\
     (draft_index st = 1 ->
      draft_round (make_pick team_name pos player st) = draft_round st + 1 /\
      draft_index (make_pick team_name pos player st) = 0)) /\
  (forall team_name pos player st,
     draft_round st = 5 -> draft_index st = 1 ->
     draft_open st = true /\
     draft_open (make_pick team_name pos player st) = false) /\
  (forall picks,
     List.length picks = 10%nat ->
     clock_trace picks init_state = map snd snake_order /\
     draft_open (run_picks picks init_state) = false) /\
  (forall picks,
     (List.length picks < 10)%nat ->
     draft_open (run_picks picks init_state) = true).
Proof.
  split; [|split; [|split; [|split; [|split]]]].
  - intros st Hr. unfold current_team_name. rewrite Hr.
    split; intros ->; reflexivity.
  - intros st Hr. unfold current_team_name. rewrite Hr.
    split; intros ->; reflexivity.
  - intros team_name pos player st.
    pose proof (make_pick_pointer team_name pos player st) as H.
    split; intro Hi; rewrite Hi in H; cbn [Z.eqb] in H;
      injection H as -> ->; now split.
  - intros team_name pos player st Hr Hi.
    pose proof (make_pick_pointer team_name pos player st) as H.
    rewrite Hi in H. cbn [Z.eqb] in H. injection H as H _.
    unfold draft_open. rewrite H, Hr. now split.
  - intros picks Hlen. split.
    + rewrite clock_trace_slots, Hlen. reflexivity.
    + destruct (run_picks_pointer picks init_state (or_introl eq_refl))
        as [E Hi].
      rewrite Hlen in E. cbn [init_state draft_round draft_index] in E.
      unfold draft_open. apply Z.leb_gt. lia.
  - intros picks Hlen.
    destruct (run_picks_pointer picks init_state (or_introl eq_refl))
      as [E Hi].
    cbn [init_state draft_round draft_index] in E.
    unfold draft_open. apply Z.leb_le. lia.
Qed.

(** ** Conservation of the pool *)

Lemma holds_In (l : list Player) (p : Player) : holds l p = true <-> In p l.
Proof.
  unfold holds. rewrite existsb_exists. split.
  - intros (q & Hq & E). unfold is_obj in E.
    destruct (Player_eq_dec p q) as [->|]; [exact Hq | discriminate].
  - intro H. exists p. split; [exact H | apply is_obj_refl].
Qed.

(** Removing by name takes exactly the picked player out of a pool whose
    names are pairwise distinct. *)
Lemma filter_name_perm (player : Player) (l : list Player) :
  NoDup (map name l) -> In player l ->
  Permutation
    (player :: filter (fun p => negb (String.eqb (name p) (name player))) l) l.
Proof.
  induction l as [|q l IH]; intros Hnd Hin; [easy|].
  cbn [map] in Hnd. inversion Hnd as [|? ? Hq Hnd']; subst.
  cbn [filter]. destruct Hin as [->|Hin].
  - rewrite String.eqb_refl. cbn [negb]. apply perm_skip.
    rewrite forallb_filter_id; [reflexivity|].
    apply forallb_forall. intros p Hp. apply negb_true_iff, String.eqb_neq.
    intro E. apply Hq. rewrite <- E. now apply in_map.
  - destruct (String.eqb_spec (name q) (name player)) as [E|_]; cbn [negb].
    + elim Hq. rewrite E. now apply in_map.
    + rewrite perm_swap. apply perm_skip. now apply IH.
Qed.

Lemma dict_set_restore {V} (k : Pos) (v v0 : V) (d : dict Pos V) :
  dict_get Pos_eqb k d = Some v0 ->
  dict_set Pos_eqb k v0 (dict_set Pos_eqb k v d) = d.
Proof.
  induction d as [|[k' v'] d IH]; [discriminate|].
  cbn [dict_get dict_set]. destruct (Pos_eqb k k') eqn:E.
  - intros [= ->]. cbn [dict_set]. now rewrite E.
  - intro H. cbn [dict_set]. rewrite E. f_equal. now apply IH.
Qed.

(** Undo after a pick restores the pointer, both lineups and the
    history; the pool gets the picked player back at its end, after
    every entry with the player's name has been filtered out. *)
Lemma undo_make_pick (team_name : string) (pos : Pos) (player : Player)
    (st : DraftState) :
  draft_index st = 0 \/ draft_index st = 1 ->
  1 <= draft_round st ->
  dict_get Pos_eqb pos (team_dict team_name st) = Some None ->
  let st' := undo_last (make_pick team_name pos player st) in
  draft_round st' = draft_round st /\ draft_index st' = draft_index st /\
  team_a st' = team_a st /\ team_b st' = team_b st /\
  history st' = history st /\
  pool st'
  = filter (fun p => negb (String.eqb (name p) (name player))) (pool st)
    ++ [player].
Proof.
  intros Hi Hr Hslot st'. subst st'.
  unfold undo_last, make_pick, set_team_slot, team_dict in *.
  destruct (String.eqb team_name "Team A") eqn:Et;
    cbn [draft_index draft_round history pool team_a team_b];
    destruct Hi as [Hi|Hi]; rewrite Hi;
    cbn [Z.eqb draft_index draft_round history pool team_a team_b];
    rewrite rev_unit, Et;
    cbn [Z.eqb draft_index draft_round history pool team_a team_b];
    rewrite rev_involutive, ?(dict_set_restore _ _ _ _ Hslot);
    repeat split; lia.
Qed.

(** With pairwise distinct names in the pool, undo after a pick gives the
    pool back up to order. *)
Lemma undo_make_pick_pool (team_name : string) (pos : Pos) (player : Player)
    (st : DraftState) :
  draft_index st = 0 \/ draft_index st = 1 ->
  1 <= draft_round st ->
  dict_get Pos_eqb pos (team_dict team_name st) = Some None ->
  NoDup (map name (pool st)) -> In player (pool st) ->
  Permutation (pool (undo_last (make_pick team_name pos player st))) (pool st).
Proof.
  intros Hi Hr Hslot Hnd Hin.
  destruct (undo_make_pick team_name pos player st Hi Hr Hslot)
    as (_ & _ & _ & _ & _ & ->).
  rewrite <- (filter_name_perm player (pool st) Hnd Hin) at 2.
  rewrite Permutation_app_comm. reflexivity.
Qed.

Lemma doug_christie_legal : legal_pick init_state SG (db 70).
Proof.
  split; [reflexivity | split].
  - right. left. reflexivity.
  - apply holds_In. vm_compute. reflexivity.
Qed.

(** C7 fails on the database as it is: rows 70 and 84 are the same
    Doug Christie line.  A web pick of row 70 filters both rows out of
    the pool, so pool and lineups together hold 102 of the 103 rows and
    row 84 is nowhere.  In the command-line draft, selecting row 84
    removes row 70 (the first equal entry) and leaves the drafted row 84
    in the pool, where the second team drafts it again. *)
Theorem doug_christie_breaks_conservation :
  let st := click_pick init_state SG (db 70) in
  reachable st /\
  name (db 70) = "Doug Christie"%string /\
  name (db 84) = "Doug Christie"%string /\
  holds PLAYER_DB (db 84) = true /\
  holds (pool st ++ drafted st) (db 84) = false /\
  List.length PLAYER_DB = 103%nat /\
  List.length (pool st ++ drafted st) = 102%nat /\
  ~ Permutation (pool st ++ drafted st) PLAYER_DB /\
  match draft_team cli_picks_a PLAYER_DB with
  | Some (lineup_a, available) =>
      dict_get Pos_eqb SG lineup_a = Some (db 84) /\
      holds available (db 84) = true /\
      match draft_team cli_picks_b available with
      | Some (lineup_b, _) => dict_get Pos_eqb SG lineup_b = Some (db 84)
      | None => False
      end
  | None => False
  end.
Proof.
  intro st.
  assert (L1 : List.length PLAYER_DB = 103%nat) by reflexivity.
  assert (L2 : List.length (pool st ++ drafted st) = 102%nat)
    by (vm_compute; reflexivity).
  split; [exact (reach_pick _ _ _ reach_init doug_christie_legal)|].
  split; [reflexivity | split; [reflexivity|]].
  split; [vm_compute; reflexivity|].
  split; [vm_compute; reflexivity|].
  split; [exact L1 | split; [exact L2 | split]].
  - intro P. apply Permutation_length in P. rewrite L1, L2 in P. discriminate P.
  - vm_compute. repeat split; reflexivity.
Qed.

(** C8 fails on the same pick: undo restores the pointer, the lineups
    and the history, but the pool comes back with 102 rows instead of
    103, row 84 being gone. *)
Theorem doug_christie_breaks_undo :
  let st := undo_last (click_pick init_state SG (db 70)) in
  legal_pick init_state SG (db 70) /\
  draft_round st = draft_round init_state /\
  draft_index st = draft_index init_state /\
  team_a st = team_a init_state /\ team_b st = team_b init_state /\
  history st = history init_state /\
  List.length (pool init_state) = 103%nat /\
  List.length (pool st) = 102%nat /\
  holds (pool init_state) (db 84) = true /\
  holds (pool st) (db 84) = false /\
  ~ Permutation (pool st) (pool init_state).
Proof.
  intro st.
  assert (L1 : List.length (pool init_state) = 103%nat) by reflexivity.
  assert (L2 : List.length (pool st) = 102%nat) by (vm_compute; reflexivity).
  split; [exact doug_christie_legal|].
  destruct (undo_make_pick (current_team_name init_state) SG (db 70)
              init_state (or_introl eq_refl) (Z.le_refl 1) eq_refl)
    as (H1 & H2 & H3 & H4 & H5 & _).
  split; [exact H1 | split; [exact H2 | split; [exact H3 | split; [exact H4|]]]].
  split; [exact H5 | split; [exact L1 | split; [exact L2|]]].
  split; [vm_compute; reflexivity | split; [vm_compute; reflexivity|]].
  intro P. apply Permutation_length in P. rewrite L1, L2 in P. discriminate P.
Qed.

(** ** The model on concrete inputs *)

Example rsplit1_key :
  rsplit1 "Shaquille O'Neal_pts" = Some ("Shaquille O'Neal", "pts")%string.
Proof. reflexivity. Qed.

Example py_int_truncates : py_int 93.7 = 93 /\ py_int (-3.5) = -3.
Proof. split; reflexivity. Qed.

Example example_pace :
  Qred (pace (team_synergy example_a)) = (330587199057 # 3524500000)%Q /\
  py_int ((pace (team_synergy example_a) + pace (team_synergy example_b))
          / 2.0) = 94.
Proof. split; vm_compute; reflexivity. Qed.

(** First draw below the turnover probability. *)
Example example_turnover :
  option_map fst (possession example_a example_b (tape_of [0]%Q)) = Some (0, []).
Proof. vm_compute. reflexivity. Qed.

(** No turnover, first player of the lineup, unassisted, a three, made. *)
Example example_made_three :
  option_map fst
    (possession example_a example_b (tape_of [0.9; 0; 0.99; 0; 0]%Q))
  = Some (3, [("Magic Johnson_pts", 3); ("Magic Johnson_fga", 1);
              ("Magic Johnson_fgm", 1)]%string).
Proof. vm_compute. reflexivity. Qed.

(** A missed two with a foul, one of the two free throws made. *)
Example example_free_throws :
  option_map fst
    (possession example_a example_b
                (tape_of [0.9; 0; 0.99; 0.99; 0; 0.99; 0; 0.99]%Q))
  = Some (1, [("Magic Johnson_fga", 1); ("Magic Johnson_pts", 1);
              ("Magic Johnson_fta", 2); ("Magic Johnson_ftm", 1)]%string).
Proof. vm_compute. reflexivity. Qed.

(** The same trip with both free throws missed: the defense rebounds and
    no free throw is recorded. *)
Example example_free_throws_missed :
  option_map fst
    (possession example_a example_b
                (tape_of [0.9; 0; 0.99; 0.99; 0; 0.99; 0.99; 0.99; 0.99; 0]%Q))
  = Some (0, [("Magic Johnson_fga", 1); ("Stephen Curry_drb", 1)]%string).
Proof. vm_compute. reflexivity. Qed.

(* ================================================================== *)
(** * Further properties of the engine *)

(** ** Keys of the statistics *)

Lemma rsplit1_sound (k a b : string) :
  rsplit1 k = Some (a, b) -> k = stat_key a b /\ no_underscore b = true.
Proof.
  revert a b. induction k as [|c k IH]; intros a b; cbn [rsplit1];
    [discriminate|].
  destruct (rsplit1 k) as [[a' b']|] eqn:E.
  - intros [= <- <-]. destruct (IH a' b' eq_refl) as [-> Hb].
    split; [reflexivity | exact Hb].
  - destruct (Ascii.eqb c underscore) eqn:Ec; [|discriminate].
    intros [= <- <-]. apply Ascii.eqb_eq in Ec. subst c.
    split; [reflexivity|].
    clear IH. induction k as [|d k IH]; [reflexivity|].
    cbn [rsplit1] in E. cbn [no_underscore].
    destruct (rsplit1 k) as [[a' b']|]; [discriminate|].
    destruct (Ascii.eqb d underscore); [discriminate|].
    now apply IH.
Qed.

(** X1: the key [f"{name}_{stat}"] and [rsplit('_', 1)] are inverse to
    each other: a key built from a name (underscores allowed) and a
    statistic without underscore splits back into the two, every key
    that splits is built from the two parts it splits into, and exactly
    the strings without an underscore do not split (the unpacking
    raises). *)
Theorem stat_key_round_trip :
  (forall n s, no_underscore s = true ->
     rsplit1 (stat_key n s) = Some (n, s)) /\
  (forall k a b, rsplit1 k = Some (a, b) ->
     k = stat_key a b /\ no_underscore b = true) /\
  (forall k, rsplit1 k = None <-> no_underscore k = true).
Proof.
  split; [exact rsplit1_stat_key | split; [exact rsplit1_sound|]].
  intro k. split; [|apply rsplit1_no_underscore].
  induction k as [|c k IH]; [reflexivity|].
  cbn [rsplit1 no_underscore].
  destruct (rsplit1 k) as [[a b]|]; [discriminate|].
  destruct (Ascii.eqb c underscore); [discriminate|].
  intros _. now apply IH.
Qed.

(** ** [merge_stats] *)

Lemma merge_one_frame (box box' : Box) (n s : string) (v : Z) :
  no_underscore s = true ->
  merge_one box (stat_key n s) v = Some box' ->
  forall n', n' <> n -> sget n' box' = sget n' box.
Proof.
  intros Hs. unfold merge_one. rewrite (rsplit1_stat_key n s Hs).
  unfold smem, dict_mem. fold (@sget Row).
  destruct (sget n box) as [row|] eqn:Hget; cbn [negb].
  - rewrite Hget. intros [= <-] n' Hne. now apply sget_sset_other.
  - rewrite sget_sset_same. intros [= <-] n' Hne.
    now rewrite !sget_sset_other.
Qed.

Lemma item_names_frame (items : list Item) :
  items_ok items ->
  forall box box', merge_stats box (stats_of items) = Some box' ->
  forall n, (forall it, In it items -> fst (fst it) <> n) ->
  sget n box' = sget n box.
Proof.
  induction 1 as [|[[n0 s0] v0] items Hs _ IH]; intros box box' H n Hn.
  - now injection H as <-.
  - cbn [stats_of map merge_stats] in H. simpl in Hs.
    destruct (merge_one box (stat_key n0 s0) v0) as [box1|] eqn:E;
      [|discriminate].
    rewrite (IH box1 box' H n) by (intros it Hit; apply Hn; now right).
    apply (merge_one_frame box box1 n0 s0 v0 Hs E).
    intros ->. exact (Hn (n0, s0, v0) (or_introl eq_refl) eq_refl).
Qed.

(** X2: [merge_stats] adds every item of an update to the statistic of
    the player it names (a player without a line starts from zeros),
    and leaves the lines of all other players as they are. *)
Theorem merge_stats_adds (items : list Item) (box : Box) :
  items_ok items ->
  exists box',
    merge_stats box (stats_of items) = Some box' /\
    (forall n s, box_stat box' n s = box_stat box n s + item_total items n s) /\
    (forall n, (forall it, In it items -> fst (fst it) <> n) ->
               sget n box' = sget n box).
Proof.
  intro Hok. destruct (merge_stats_items items Hok box) as (box' & E & H).
  exists box'. split; [exact E | split; [exact H|]].
  intros n Hn. exact (item_names_frame items Hok box box' E n Hn).
Qed.

Lemma merge_stats_adds_witness :
  exists box',
    merge_stats [] (stats_of [("LeBron James", "pts", 2);
                              ("LeBron James", "fga", 1);
                              ("LeBron James", "fgm", 1);
                              ("Magic Johnson", "ast", 1)]%string)
    = Some box' /\
    box_stat box' "LeBron James" "pts" = 2 /\
    box_stat box' "Magic Johnson" "ast" = 1 /\
    sget "Tim Duncan" box' = None.
Proof.
  destruct (merge_stats_adds
              [("LeBron James", "pts", 2); ("LeBron James", "fga", 1);
               ("LeBron James", "fgm", 1); ("Magic Johnson", "ast", 1)]%string
              [])
    as (box' & E & H & F).
  - repeat (apply items_ok_cons; [reflexivity|]). constructor.
  - exists box'. split; [exact E|]. rewrite !H. repeat split.
    apply F. intros it Hit.
    repeat (destruct Hit as [<-|Hit]; [discriminate|]). contradiction.
Defined.

(** X3: [merge_stats] raises on an update that holds a key without an
    underscore (the unpacking of [rsplit] fails), wherever the key
    stands. *)
Theorem merge_stats_raises (box : Box) (updates : Stats) (k : string) (v : Z) :
  In (k, v) updates -> no_underscore k = true ->
  merge_stats box updates = None.
Proof.
  intros Hin Hk. revert box.
  induction updates as [|[k0 v0] updates IH]; intro box; [contradiction|].
  cbn [merge_stats].
  destruct Hin as [[= -> ->]|Hin].
  - unfold merge_one. now rewrite (rsplit1_no_underscore k Hk).
  - destruct (merge_one box k0 v0); [now apply IH | reflexivity].
Qed.

Lemma merge_stats_raises_witness :
  merge_stats [] [("LeBron James_pts", 2); ("points", 3)]%string = None.
Proof.
  apply (merge_stats_raises [] _ "points"%string 3).
  - right. left. reflexivity.
  - reflexivity.
Defined.

(** ** Shape of a possession *)

Lemma stats_of_In (items : list Item) (k : string) (v : Z) :
  In (k, v) (stats_of items) ->
  exists n s, In (n, s, v) items /\ k = stat_key n s.
Proof.
  unfold stats_of. rewrite in_map_iff. intros ([[n s] v'] & [= <- <-] & Hin).
  now exists n, s.
Qed.

Lemma stats_of_keys_NoDup (items : list Item) :
  items_ok items -> NoDup (map (fun it : Item => snd (fst it)) items) ->
  NoDup (map fst (stats_of items)).
Proof.
  induction 1 as [|[[n s] v] items Hs Hok IH]; intro Hnd; [constructor|].
  cbn [map fst snd stats_of] in *. inversion Hnd as [|? ? Hx Hnd']; subst.
  constructor; [|now apply IH].
  intro Hin. apply in_map_iff in Hin as ([k' v'] & Hk & Hin).
  cbn [fst] in Hk. subst k'.
  apply stats_of_In in Hin as (n' & s' & Hin & E).
  simpl in Hs.
  assert (Hs' : no_underscore s' = true).
  { unfold items_ok in Hok. rewrite Forall_forall in Hok.
    exact (Hok _ Hin). }
  apply stat_key_inj in E as [_ <-]; trivial.
  apply Hx. apply in_map_iff. now exists (n', s, v').
Qed.

Ltac nodup_literals :=
  repeat (constructor;
          [let K := fresh "K" in
           intro K; repeat (destruct K as [K|K]; [discriminate K|]); exact K|]);
  constructor.

Lemma outcome_stat_names_NoDup (off defn : Team) (pts : Z) (items : list Item) :
  outcome off defn pts items ->
  NoDup (map (fun it : Item => snd (fst it)) items).
Proof.
  destruct 1; cbn [map fst snd]; nodup_literals.
Qed.

(** Who is credited with what in an outcome. *)
Lemma outcome_credit (off defn : Team) (pts : Z) (items : list Item) :
  outcome off defn pts items ->
  forall n s v, In (n, s, v) items ->
    0 < v /\
    ((s = "drb"%string /\ In n (map name (all_players defn))) \/
     (In s ["pts"; "fga"; "fgm"; "fta"; "ftm"; "ast"; "orb"]%string /\
      In n (map name (all_players off)))).
Proof.
  destruct 1; intros n s v Hin; cbn [In] in Hin;
    repeat (destruct Hin as [[= <- <- <-]|Hin];
            [split; [lia|];
             first [ left; split; [reflexivity | now apply in_map]
                   | right; split; [cbn; tauto | now apply in_map] ] |]);
    contradiction.
Qed.

(** X4: the update a possession returns is a dictionary with pairwise
    distinct keys whose values are all positive; a defensive rebound is
    credited to a player of the defense and every other statistic to a
    player of the offense. *)
Theorem possession_credit (off defn : Team) (g g' : tape) (pts : Z)
    (stats : Stats) :
  possession off defn g = Some (pts, stats, g') ->
  NoDup (map fst stats) /\
  forall k v, In (k, v) stats ->
    exists n s,
      k = stat_key n s /\ 0 < v /\
      ((s = "drb"%string /\ In n (map name (all_players defn))) \/
       (In s ["pts"; "fga"; "fgm"; "fta"; "ftm"; "ast"; "orb"]%string /\
        In n (map name (all_players off)))).
Proof.
  intro H. destruct (possession_outcome _ _ _ _ _ _ H) as (items & -> & Ho).
  split.
  - apply stats_of_keys_NoDup;
      [exact (outcome_items_ok _ _ _ _ Ho)
      | exact (outcome_stat_names_NoDup _ _ _ _ Ho)].
  - intros k v Hin. apply stats_of_In in Hin as (n & s & Hin & ->).
    exists n, s. split; [reflexivity|].
    exact (outcome_credit _ _ _ _ Ho n s v Hin).
Qed.

(** X5: a possession scores 0, 1, 2 or 3 points, records at most two
    field-goal attempts, at most one assist and at most one rebound; an
    assist comes with a made basket and a rebound only after a miss. *)
Theorem possession_bounds (off defn : Team) (g g' : tape) (pts : Z)
    (stats : Stats) :
  possession off defn g = Some (pts, stats, g') ->
  0 <= pts <= 3 /\
  stat_total "fgm" stats <= stat_total "fga" stats <= 2 /\
  0 <= stat_total "ast" stats <= stat_total "fgm" stats /\
  0 <= stat_total "orb" stats + stat_total "drb" stats
    <= stat_total "fga" stats - stat_total "fgm" stats /\
  (stat_total "orb" stats + stat_total "drb" stats <= 1).
Proof.
  intro H. destruct (possession_outcome _ _ _ _ _ _ H) as (items & -> & Ho).
  rewrite !stat_total_items by exact (outcome_items_ok _ _ _ _ Ho).
  destruct Ho; cbn; lia.
Qed.

(** A result a computation returns on a given tape, read through a
    property of results. *)
Lemma returned {A} (m : M A) (g : tape) (P : A -> Prop) :
  succeeds m -> (forall a g', m g = Some (a, g') -> P a) ->
  match m g with Some r => P (fst r) | None => False end.
Proof.
  intros Hs H. destruct (Hs g) as (a & g' & E). rewrite E. exact (H a g' E).
Qed.

Lemma possession_credit_witness :
  match possession example_a example_b
                   (tape_of [0.9; 0; 0.99; 0.99; 0; 0.99; 0.99; 0.99; 0.99; 0]%Q)
  with
  | Some r => NoDup (map fst (snd (fst r)))
  | None => False
  end.
Proof.
  apply (returned _ _ (fun a => NoDup (map fst (snd a)))).
  - apply possession_succeeds. exact (proj1 example_players_distinct).
  - intros [pts stats] g' E.
    exact (proj1 (possession_credit _ _ _ _ _ _ E)).
Defined.

Lemma possession_bounds_witness :
  match possession example_a example_b (tape_of [0.9; 0; 0.99; 0; 0]%Q) with
  | Some r => 0 <= fst (fst r) <= 3
  | None => False
  end.
Proof.
  apply (returned _ _ (fun a => 0 <= fst a <= 3)).
  - apply possession_succeeds. exact (proj1 example_players_distinct).
  - intros [pts stats] g' E.
    exact (proj1 (possession_bounds _ _ _ _ _ _ E)).
Defined.

(** ** Structure of the box *)

Lemma sget_In {V} (k : string) (v : V) (d : sdict V) :
  sget k d = Some v -> In (k, v) d.
Proof.
  unfold sget. induction d as [|[k' v'] d IH]; cbn [dict_get]; [discriminate|].
  destruct (String.eqb_spec k k') as [->|_].
  - intros [= ->]. now left.
  - intro H. right. now apply IH.
Qed.

Lemma sget_None_keys {V} (k : string) (d : sdict V) :
  sget k d = None -> ~ In k (map fst d).
Proof.
  unfold sget. induction d as [|[k' v'] d IH]; cbn [dict_get map fst];
    [tauto|].
  destruct (String.eqb_spec k k') as [->|Hne]; [discriminate|].
  intros H [E|Hin]; [congruence | now apply IH].
Qed.

Lemma sset_keys_present {V} (k : string) (v : V) (d : sdict V) :
  In k (map fst d) -> map fst (sset k v d) = map fst d.
Proof.
  unfold sset. induction d as [|[k' v'] d IH]; cbn [dict_set map fst];
    [contradiction|].
  destruct (String.eqb_spec k k') as [->|Hne]; [reflexivity|].
  intros [E|Hin]; [congruence|]. cbn [map fst]. f_equal. now apply IH.
Qed.

Lemma sset_absent {V} (k : string) (v : V) (d : sdict V) :
  ~ In k (map fst d) -> sset k v d = d ++ [(k, v)].
Proof.
  unfold sset. induction d as [|[k' v'] d IH]; cbn [dict_set map fst];
    [reflexivity|].
  intro H. destruct (String.eqb_spec k k') as [->|Hne].
  - elim H. now left.
  - cbn [app]. f_equal. apply IH. intro. apply H. now right.
Qed.

Lemma sset_In {V} (k k' : string) (v v' : V) (d : sdict V) :
  In (k', v') (sset k v d) -> (k' = k /\ v' = v) \/ In (k', v') d.
Proof.
  unfold sset. induction d as [|[k0 v0] d IH]; cbn [dict_set].
  - intros [[= <- <-]|[]]. now left.
  - destruct (String.eqb_spec k k0) as [->|Hne].
    + intros [[= <- <-]|Hin]; [now left | right; now right].
    + intros [E|Hin]; [right; now left|].
      destruct (IH Hin) as [H|H]; [now left | right; now right].
Qed.

Lemma merge_one_wf (names : list string) (box box' : Box) (n s : string)
    (v : Z) :
  In n names -> In s STAT_KEYS ->
  box_wf names box -> merge_one box (stat_key n s) v = Some box' ->
  box_wf names box'.
Proof.
  intros Hn Hs [Hnd Hrows].
  assert (Hns : no_underscore s = true).
  { repeat (destruct Hs as [<-|Hs]; [reflexivity|]). contradiction. }
  assert (Hfresh : map fst (sset s (sget_or s 0 new_row + v) new_row)
                   = STAT_KEYS)
    by (rewrite sset_keys_present; [reflexivity | exact Hs]).
  unfold merge_one. rewrite (rsplit1_stat_key n s Hns).
  unfold smem, dict_mem. fold (@sget Row).
  destruct (sget n box) as [row|] eqn:Hget; cbn [negb].
  - rewrite Hget. intros [= <-].
    pose proof (sget_In _ _ _ Hget) as Hin.
    destruct (Hrows n row Hin) as [_ Hkeys].
    assert (Hk : In n (map fst box))
      by (apply in_map_iff; now exists (n, row)).
    split.
    + now rewrite sset_keys_present.
    + intros n' row' H. apply sset_In in H as [[-> ->]|H]; [|now apply Hrows].
      split; [exact Hn|]. rewrite sset_keys_present; [exact Hkeys|].
      now rewrite Hkeys.
  - rewrite sget_sset_same. intros [= <-].
    pose proof (sget_None_keys _ _ Hget) as Hk.
    rewrite (sset_absent n new_row box Hk).
    assert (Hk' : In n (map fst (box ++ [(n, new_row)])))
      by (rewrite map_app; apply in_or_app; right; now left).
    split.
    + rewrite sset_keys_present by exact Hk'.
      rewrite map_app. cbn [map fst].
      apply (Permutation_NoDup (Permutation_cons_append (map fst box) n)).
      now constructor.
    + intros n' row' H. apply sset_In in H as [[-> ->]|H].
      * split; [exact Hn | exact Hfresh].
      * apply in_app_or in H as [H|[[= <- <-]|[]]]; [now apply Hrows|].
        now split.
Qed.

Lemma merge_stats_wf (names : list string) (items : list Item) :
  Forall (fun it : Item => In (fst (fst it)) names
                           /\ In (snd (fst it)) STAT_KEYS) items ->
  forall box box',
    box_wf names box -> merge_stats box (stats_of items) = Some box' ->
    box_wf names box'.
Proof.
  induction 1 as [|[[n s] v] items [Hn Hs] _ IH]; intros box box' Hwf H.
  - now injection H as <-.
  - cbn [stats_of map merge_stats] in H. cbn [fst snd] in Hn, Hs.
    destruct (merge_one box (stat_key n s) v) as [box1|] eqn:E; [|discriminate].
    exact (IH box1 box' (merge_one_wf names box box1 n s v Hn Hs Hwf E) H).
Qed.

Lemma outcome_items_wf (off defn : Team) (pts : Z) (items : list Item)
    (names : list string) :
  outcome off defn pts items ->
  incl (map name (all_players off)) names ->
  incl (map name (all_players defn)) names ->
  Forall (fun it : Item => In (fst (fst it)) names
                           /\ In (snd (fst it)) STAT_KEYS) items.
Proof.
  intros Ho Hoff Hdef. apply Forall_forall. intros [[n s] v] Hin.
  cbn [fst snd].
  destruct (outcome_credit _ _ _ _ Ho n s v Hin) as [_ [[-> Hd]|[Hs Ho']]].
  - split; [now apply Hdef | cbn; tauto].
  - split; [now apply Hoff|].
    repeat (destruct Hs as [<-|Hs]; [cbn; tauto|]). contradiction.
Qed.

(** A property of the box that every merged outcome keeps is kept by
    every iteration of the loop. *)
Lemma ensures_game_step_box (team_a team_b : Team) (J : Box -> Prop) :
  (forall off defn pts items box box',
     (off = team_a /\ defn = team_b) \/ (off = team_b /\ defn = team_a) ->
     outcome off defn pts items -> J box ->
     merge_stats box (stats_of items) = Some box' -> J box') ->
  forall i st,
    (let '(_, _, box) := st in J box) ->
    ensures (game_step team_a team_b i st)
            (fun st' => let '(_, _, box) := st' in J box).
Proof.
  intros HJ i [[score_a score_b] box] Hbox. unfold game_step.
  destruct (Nat.eqb (i mod 2) 0).
  - eapply ensures_bind; [apply possession_good|].
    intros [pts stats] (items & Hs & Ho). cbn [fst snd] in Hs, Ho. subst stats.
    eapply ensures_bind; [apply ensures_lift|].
    intros box' Hm. apply ensures_ret.
    exact (HJ _ _ _ _ _ _ (or_introl (conj eq_refl eq_refl)) Ho Hbox Hm).
  - eapply ensures_bind; [apply possession_good|].
    intros [pts stats] (items & Hs & Ho). cbn [fst snd] in Hs, Ho. subst stats.
    eapply ensures_bind; [apply ensures_lift|].
    intros box' Hm. apply ensures_ret.
    exact (HJ _ _ _ _ _ _ (or_intror (conj eq_refl eq_refl)) Ho Hbox Hm).
Qed.

(** X6: the box of a result has at most ten lines, keyed by pairwise
    distinct names of players of the two lineups, and every line holds
    exactly the eight statistics [pts, fga, fgm, fta, ftm, ast, orb,
    drb]; no other name and no other statistic ever enters the box. *)
Theorem box_lines_of_the_lineups (rng_seed : Z -> tape) (team_a team_b : Team)
    (seed : option Z) (g g' : tape) (res : Result) :
  simulate_game rng_seed team_a team_b seed g = Some (res, g') ->
  NoDup (map fst (box res)) /\
  (List.length (box res) <= 10)%nat /\
  forall n row, sget n (box res) = Some row ->
    In n (map name (all_players team_a ++ all_players team_b)) /\
    map fst row = STAT_KEYS.
Proof.
  intro Hrun.
  set (names := map name (all_players team_a ++ all_players team_b)).
  assert (Ha : incl (map name (all_players team_a)) names).
  { unfold names. rewrite map_app. apply incl_appl, incl_refl. }
  assert (Hb : incl (map name (all_players team_b)) names).
  { unfold names. rewrite map_app. apply incl_appr, incl_refl. }
  pose proof (ensures_simulate_game rng_seed team_a team_b seed
                (fun st => let '(_, _, box) := st in box_wf names box)) as H.
  cbv beta iota in H.
  assert (Hwf : box_wf names (box res)).
  { apply (H (conj (NoDup_nil _) (fun n row (F : In (n, row) []) => match F with end))
             (ensures_game_step_box team_a team_b (box_wf names)
                (fun off defn pts items box box' Hod Ho Hbox Hm =>
                   merge_stats_wf names items
                     (match Hod with
                      | or_introl (conj Eo Ed) =>
                          outcome_items_wf off defn pts items names Ho
                            (eq_ind_r (fun t => incl (map name (all_players t)) names) Ha Eo)
                            (eq_ind_r (fun t => incl (map name (all_players t)) names) Hb Ed)
                      | or_intror (conj Eo Ed) =>
                          outcome_items_wf off defn pts items names Ho
                            (eq_ind_r (fun t => incl (map name (all_players t)) names) Hb Eo)
                            (eq_ind_r (fun t => incl (map name (all_players t)) names) Ha Ed)
                      end) box box' Hbox Hm))
             g res g' Hrun). }
  destruct Hwf as [Hnd Hrows]. split; [exact Hnd | split].
  - rewrite <- (length_map fst).
    change 10%nat with (List.length names).
    apply NoDup_incl_length; [exact Hnd|].
    intros n Hn. apply in_map_iff in Hn as ([n' row] & <- & Hin).
    exact (proj1 (Hrows n' row Hin)).
  - intros n row Hget. exact (Hrows n row (sget_In _ _ _ Hget)).
Qed.

Lemma box_lines_of_the_lineups_witness :
  match simulate_game example_seed example_a example_b (Some 42) (tape_of [])
  with
  | Some r => (List.length (box (fst r)) <= 10)%nat
  | None => False
  end.
Proof.
  apply (returned _ _ (fun res => (List.length (box res) <= 10)%nat)).
  - apply simulate_game_succeeds; apply example_players_distinct.
  - intros res g' E.
    exact (proj1 (proj2 (box_lines_of_the_lineups _ _ _ _ _ _ _ E))).
Defined.

(** ** Bounds on the score *)

Lemma outcome_points_range (off defn : Team) (pts : Z) (items : list Item) :
  outcome off defn pts items -> 0 <= pts <= 3.
Proof. destruct 1; lia. Qed.

(** The loop over [range(s, s + len)], with an invariant that follows
    the index. *)
Lemma ensures_game_loop_seq (team_a team_b : Team)
    (I : nat -> GameState -> Prop) :
  (forall i st, I i st -> ensures (game_step team_a team_b i st) (I (S i))) ->
  forall len s st,
    I s st ->
    ensures (game_loop team_a team_b (seq s len) st) (I (s + len)%nat).
Proof.
  intros Hstep len. induction len as [|len IH]; intros s st Hst.
  - rewrite Nat.add_0_r. now apply ensures_ret.
  - cbn [seq game_loop]. eapply ensures_bind; [now apply Hstep|].
    intros st' Hst'. rewrite Nat.add_succ_r. now apply (IH (S s)).
Qed.

Lemma score_bound_step (team_a team_b : Team) (i : nat) (st : GameState) :
  (let '(score_a, score_b, _) := st in
   0 <= score_a <= 3 * Z.of_nat ((i + 1) / 2) /\
   0 <= score_b <= 3 * Z.of_nat (i / 2)) ->
  ensures (game_step team_a team_b i st)
    (fun st' => let '(score_a, score_b, _) := st' in
       0 <= score_a <= 3 * Z.of_nat ((S i + 1) / 2) /\
       0 <= score_b <= 3 * Z.of_nat (S i / 2)).
Proof.
  destruct st as [[score_a score_b] box]. intros [Ha Hb].
  pose proof (Nat.div_mod_eq i 2) as Hi.
  pose proof (Nat.div_mod_eq (i + 1) 2) as Hi1.
  pose proof (Nat.div_mod_eq (S i) 2) as HS.
  pose proof (Nat.div_mod_eq (S i + 1) 2) as HS1.
  pose proof (Nat.mod_upper_bound i 2 ltac:(lia)) as Bi.
  pose proof (Nat.mod_upper_bound (i + 1) 2 ltac:(lia)) as Bi1.
  pose proof (Nat.mod_upper_bound (S i) 2 ltac:(lia)) as BS.
  pose proof (Nat.mod_upper_bound (S i + 1) 2 ltac:(lia)) as BS1.
  unfold game_step. destruct (Nat.eqb_spec (i mod 2) 0) as [E|E].
  - eapply ensures_weaken;
      [apply (ensures_turn team_a team_b box
                (fun pts box' => (score_a + pts, score_b, box')))|].
    intros st' (pts & items & box' & -> & Ho & _).
    apply outcome_points_range in Ho. lia.
  - eapply ensures_weaken;
      [apply (ensures_turn team_b team_a box
                (fun pts box' => (score_a, score_b + pts, box')))|].
    intros st' (pts & items & box' & -> & Ho & _).
    apply outcome_points_range in Ho. lia.
Qed.

(** X7: neither score is negative, and a team scores at most three
    points on each of its own possessions: with [possessions] the number
    of possessions the result reports (half of them for each team), both
    scores lie between 0 and [3 * possessions / 2]. *)
Theorem score_bounds (rng_seed : Z -> tape) (team_a team_b : Team)
    (seed : option Z) (g g' : tape) (res : Result) :
  simulate_game rng_seed team_a team_b seed g = Some (res, g') ->
  0 <= fst (score res) /\ 2 * fst (score res) <= 3 * possessions res /\
  0 <= snd (score res) /\ 2 * snd (score res) <= 3 * possessions res.
Proof.
  assert (H : ensures (simulate_game rng_seed team_a team_b seed)
                (fun res =>
                   0 <= fst (score res)
                   /\ 2 * fst (score res) <= 3 * possessions res
                   /\ 0 <= snd (score res)
                   /\ 2 * snd (score res) <= 3 * possessions res)).
  { unfold simulate_game.
    eapply ensures_bind with (P := fun _ => True); [now intros g0 a g1 _|].
    intros _ _. cbv zeta.
    set (n := py_int ((pace (team_synergy team_a)
                       + pace (team_synergy team_b)) / 2.0)).
    assert (Hn : 90 <= n <= 104).
    { apply py_int_bounds; [lia|].
      apply average_pace_bounds; apply pace_bounds. }
    eapply ensures_bind.
    - apply (ensures_game_loop_seq team_a team_b
               (fun i st => let '(score_a, score_b, _) := st in
                  0 <= score_a <= 3 * Z.of_nat ((i + 1) / 2) /\
                  0 <= score_b <= 3 * Z.of_nat (i / 2))
               (score_bound_step team_a team_b)).
      cbn. lia.
    - intros [[score_a score_b] box] [Ha Hb]. apply ensures_ret.
      cbn [score possessions fst snd].
      replace (0 + Z.to_nat (n * 2))%nat with (2 * Z.to_nat n)%nat in Ha, Hb
        by lia.
      replace ((2 * Z.to_nat n + 1) / 2)%nat with (Z.to_nat n) in Ha
        by (apply Nat.div_unique with 1%nat; lia).
      replace ((2 * Z.to_nat n) / 2)%nat with (Z.to_nat n) in Hb
        by (apply Nat.div_unique with 0%nat; lia).
      lia. }
  intro Hrun. exact (H g res g' Hrun).
Qed.

Lemma score_bounds_witness :
  match simulate_game example_seed example_a example_b (Some 42) (tape_of [])
  with
  | Some r => 0 <= fst (score (fst r))
              /\ 2 * fst (score (fst r)) <= 3 * possessions (fst r)
  | None => False
  end.
Proof.
  apply (returned _ _ (fun res => 0 <= fst (score res)
                                  /\ 2 * fst (score res) <= 3 * possessions res)).
  - apply simulate_game_succeeds; apply example_players_distinct.
  - intros res g' E.
    destruct (score_bounds _ _ _ _ _ _ _ E) as (H1 & H2 & _).
    exact (conj H1 H2).
Defined.

(** ** Points against baskets and free throws *)

Lemma outcome_points_made (off defn : Team) (pts : Z) (items : list Item) :
  outcome off defn pts items ->
  forall n,
    2 * item_total items n "fgm" + item_total items n "ftm"
      <= item_total items n "pts"
      <= 3 * item_total items n "fgm" + item_total items n "ftm" /\
    item_total items n "fta" <= 2 * item_total items n "ftm" /\
    item_total items n "fta" mod 2 = 0.
Proof.
  destruct 1; intro n; item_total_simpl;
    repeat match goal with
           | |- context [if ?b then _ else _] => destruct b
           end;
    repeat match goal with
           | H : _ \/ _ |- _ => destruct H; subst
           end;
    cbn; lia.
Qed.

Lemma points_made_step (team_a team_b : Team) :
  forall i st,
    (let '(_, _, box) := st in
     forall n,
       2 * box_stat box n "fgm" + box_stat box n "ftm"
         <= box_stat box n "pts"
         <= 3 * box_stat box n "fgm" + box_stat box n "ftm" /\
       box_stat box n "fta" <= 2 * box_stat box n "ftm" /\
       box_stat box n "fta" mod 2 = 0) ->
    ensures (game_step team_a team_b i st)
      (fun st' => let '(_, _, box) := st' in
         forall n,
           2 * box_stat box n "fgm" + box_stat box n "ftm"
             <= box_stat box n "pts"
             <= 3 * box_stat box n "fgm" + box_stat box n "ftm" /\
           box_stat box n "fta" <= 2 * box_stat box n "ftm" /\
           box_stat box n "fta" mod 2 = 0).
Proof.
  intros i [[score_a score_b] box] H.
  eapply ensures_weaken; [apply ensures_game_step|].
  intros st' (pts & items & box' & Hbox & [[-> Ho]|[-> Ho]]); intro n;
    destruct (H n) as (H1 & H2 & H3);
    destruct (outcome_points_made _ _ _ _ Ho n) as (K1 & K2 & K3);
    rewrite !Hbox; (split; [lia | split; [lia|]]);
    rewrite Z.add_mod, H3, K3 by lia; reflexivity.
Qed.

(** X8: on every line of the box a player's points are explained by the
    baskets and free throws made: at least two and at most three points
    for each made field goal, plus one for each made free throw.  Free
    throws attempted come in pairs and number at most twice the free
    throws made, since a trip with both shots missed is not recorded. *)
Theorem box_points_explained (rng_seed : Z -> tape) (team_a team_b : Team)
    (seed : option Z) (g g' : tape) (res : Result) :
  simulate_game rng_seed team_a team_b seed g = Some (res, g') ->
  forall n row, sget n (box res) = Some row ->
    2 * sget_or "fgm" 0 row + sget_or "ftm" 0 row
      <= sget_or "pts" 0 row
      <= 3 * sget_or "fgm" 0 row + sget_or "ftm" 0 row /\
    sget_or "fta" 0 row <= 2 * sget_or "ftm" 0 row /\
    sget_or "fta" 0 row mod 2 = 0.
Proof.
  intros Hrun n row Hrow.
  pose proof (ensures_simulate_game rng_seed team_a team_b seed
                (fun st => let '(_, _, box) := st in
                   forall n,
                     2 * box_stat box n "fgm" + box_stat box n "ftm"
                       <= box_stat box n "pts"
                       <= 3 * box_stat box n "fgm" + box_stat box n "ftm" /\
                     box_stat box n "fta" <= 2 * box_stat box n "ftm" /\
                     box_stat box n "fta" mod 2 = 0)) as H.
  cbv beta iota in H.
  specialize (H (fun n => conj (conj (Z.le_refl 0) (Z.le_refl 0))
                               (conj (Z.le_refl 0) eq_refl))
                (points_made_step team_a team_b) g res g' Hrun n).
  cbv beta iota in H.
  pose proof (fun s => box_stat_some (box res) n s row Hrow) as Hbs.
  rewrite (Hbs "fgm"%string), (Hbs "ftm"%string), (Hbs "pts"%string),
    (Hbs "fta"%string) in H.
  exact H.
Qed.

Lemma box_points_explained_witness :
  match simulate_game example_seed example_a example_b (Some 42) (tape_of [])
  with
  | Some r =>
      forall n row, sget n (box (fst r)) = Some row ->
        sget_or "fta" 0 row <= 2 * sget_or "ftm" 0 row
  | None => False
  end.
Proof.
  apply (returned _ _ (fun res =>
           forall n row, sget n (box res) = Some row ->
             sget_or "fta" 0 row <= 2 * sget_or "ftm" 0 row)).
  - apply simulate_game_succeeds; apply example_players_distinct.
  - intros res g' E n row Hrow.
    exact (proj1 (proj2 (box_points_explained _ _ _ _ _ _ _ E n row Hrow))).
Defined.

(** ** The synergy dictionary of a result *)

(** X9: the [syn] entry of a result is a dictionary keyed by the two
    team names, written team A first.  Team B's name always maps to team
    B's synergy; team A's name maps to team A's synergy unless both teams
    carry the same name, in which case the single entry holds team B's
    values and team A's are lost. *)
Theorem syn_by_team_name (rng_seed : Z -> tape) (team_a team_b : Team)
    (seed : option Z) (g g' : tape) (res : Result) :
  simulate_game rng_seed team_a team_b seed g = Some (res, g') ->
  sget (tname team_b) (syn res) = Some (team_synergy team_b) /\
  (tname team_a <> tname team_b ->
   sget (tname team_a) (syn res) = Some (team_synergy team_a) /\
   map fst (syn res) = [tname team_a; tname team_b]) /\
  (tname team_a = tname team_b ->
   syn res = [(tname team_b, team_synergy team_b)]).
Proof.
  assert (H : ensures (simulate_game rng_seed team_a team_b seed)
                (fun res =>
                   syn res = sset (tname team_b) (team_synergy team_b)
                               (sset (tname team_a) (team_synergy team_a) []))).
  { unfold simulate_game.
    eapply ensures_bind with (P := fun _ => True); [now intros g0 a g1 _|].
    intros _ _. cbv zeta.
    eapply ensures_bind with (P := fun _ => True); [now intros g0 a g1 _|].
    intros [[score_a score_b] box] _. now apply ensures_ret. }
  intro Hrun. rewrite (H g res g' Hrun).
  split; [apply sget_sset_same | split].
  - intro Hne. split.
    + rewrite sget_sset_other by exact Hne. apply sget_sset_same.
    + unfold sset. cbn [dict_set].
      destruct (String.eqb_spec (tname team_b) (tname team_a)) as [E|_];
        [now elim Hne | reflexivity].
  - intros ->. unfold sset. cbn [dict_set]. now rewrite String.eqb_refl.
Qed.

Lemma syn_by_team_name_witness :
  match simulate_game example_seed example_a example_b (Some 42) (tape_of [])
  with
  | Some r => sget (tname example_b) (syn (fst r))
              = Some (team_synergy example_b)
  | None => False
  end.
Proof.
  apply (returned _ _ (fun res => sget (tname example_b) (syn res)
                                  = Some (team_synergy example_b))).
  - apply simulate_game_succeeds; apply example_players_distinct.
  - intros res g' E.
    exact (proj1 (syn_by_team_name _ _ _ _ _ _ _ E)).
Defined.

(** ** Totals of a team *)

Lemma sum_add (f h : Player -> Z) (players : list Player) :
  fold_right (fun p acc => (f p + h p) + acc) 0 players
  = fold_right (fun p acc => f p + acc) 0 players
    + fold_right (fun p acc => h p + acc) 0 players.
Proof.
  induction players as [|p players IH]; [reflexivity|].
  cbn [fold_right]. rewrite IH. lia.
Qed.

Lemma sum_zero (players : list Player) :
  fold_right (fun (_ : Player) acc => 0 + acc) 0 players = 0.
Proof. induction players as [|p players IH]; [reflexivity | exact IH]. Qed.

(** Over a lineup of distinct names that holds every name the items
    credit with [s], the lines of the lineup receive all of [s]. *)
Lemma lineup_total_in (items : list Item) (s : string)
    (players : list Player) :
  NoDup (map name players) ->
  (forall n v, In (n, s, v) items -> In n (map name players)) ->
  fold_right (fun p acc => item_total items (name p) s + acc) 0 players
  = items_stat items s.
Proof.
  intros Hnd. induction items as [|[[n' s'] v] items IH]; intro Hin.
  - cbn [item_total items_stat fold_right]. apply sum_zero.
  - cbn [item_total items_stat fold_right fst snd].
    rewrite (sum_add (fun p => if String.eqb n' (name p) && String.eqb s' s
                               then v else 0)
                     (fun p => item_total items (name p) s)).
    fold (items_stat items s).
    rewrite IH by (intros n v0 H; apply (Hin n v0); now right). f_equal.
    destruct (String.eqb_spec s' s) as [->|_].
    + destruct (proj1 (in_map_iff _ _ _) (Hin n' v (or_introl eq_refl)))
        as (sh & <- & Hsh).
      rewrite (sum_ext _ (fun p => if String.eqb (name sh) (name p)
                                   then v else 0))
        by (intro; now rewrite andb_true_r).
      now apply indicator_sum_in.
    + rewrite (sum_ext _ (fun _ => 0)) by (intro; now rewrite andb_false_r).
      apply sum_zero.
Qed.

(** Over a lineup that holds no name the items credit with [s], the
    lines receive nothing of [s]. *)
Lemma lineup_total_out (items : list Item) (s : string)
    (players : list Player) :
  (forall n v, In (n, s, v) items -> ~ In n (map name players)) ->
  fold_right (fun p acc => item_total items (name p) s + acc) 0 players = 0.
Proof.
  induction items as [|[[n' s'] v] items IH]; intro Hout.
  - cbn [item_total fold_right]. apply sum_zero.
  - cbn [item_total fold_right].
    rewrite (sum_add (fun p => if String.eqb n' (name p) && String.eqb s' s
                               then v else 0)
                     (fun p => item_total items (name p) s)).
    rewrite IH by (intros n v0 H; apply (Hout n v0); now right).
    destruct (String.eqb_spec s' s) as [->|_].
    + rewrite (sum_ext _ (fun p => if String.eqb n' (name p) then v else 0))
        by (intro; now rewrite andb_true_r).
      rewrite indicator_sum_out; [reflexivity|].
      apply (Hout n' v). now left.
    + rewrite (sum_ext _ (fun _ => 0)) by (intro; now rewrite andb_false_r).
      now rewrite sum_zero.
Qed.

(** What one outcome adds to the totals of the two teams: defensive
    rebounds go to the defense, everything else to the offense. *)
Lemma outcome_team_stat (off defn : Team) (pts : Z) (items : list Item)
    (s : string) :
  NoDup (map name (all_players off) ++ map name (all_players defn)) ->
  outcome off defn pts items ->
  let to_off :=
    fold_right (fun p acc => item_total items (name p) s + acc) 0
               (all_players off) in
  let to_def :=
    fold_right (fun p acc => item_total items (name p) s + acc) 0
               (all_players defn) in
  (s = "drb"%string -> to_off = 0 /\ to_def = items_stat items s) /\
  (s <> "drb"%string -> to_off = items_stat items s /\ to_def = 0).
Proof.
  intros Hnd Ho to_off to_def. subst to_off to_def.
  pose proof (outcome_credit _ _ _ _ Ho) as Hc.
  assert (Hnd' : NoDup (map name (all_players defn)
                        ++ map name (all_players off)))
    by exact (Permutation_NoDup (Permutation_app_comm _ _) Hnd).
  split; intro Hs.
  - split.
    + apply lineup_total_out. intros n v Hin.
      destruct (Hc n s v Hin) as [_ [[_ Hd]|[Hl _]]].
      * exact (NoDup_app_disjoint _ _ _ Hnd' Hd).
      * subst s. cbn in Hl.
        repeat (destruct Hl as [Hl|Hl]; [discriminate Hl|]). contradiction.
    + apply lineup_total_in; [exact (NoDup_app_r _ _ Hnd)|].
      intros n v Hin.
      destruct (Hc n s v Hin) as [_ [[_ Hd]|[Hl _]]]; [exact Hd|].
      subst s. cbn in Hl.
      repeat (destruct Hl as [Hl|Hl]; [discriminate Hl|]). contradiction.
  - split.
    + apply lineup_total_in; [exact (NoDup_app_l _ _ Hnd)|].
      intros n v Hin.
      destruct (Hc n s v Hin) as [_ [[E _]|[_ Ho']]]; [contradiction|exact Ho'].
    + apply lineup_total_out. intros n v Hin.
      destruct (Hc n s v Hin) as [_ [[E _]|[_ Ho']]]; [contradiction|].
      exact (NoDup_app_disjoint _ _ _ Hnd Ho').
Qed.

Lemma outcome_items_stat (off defn : Team) (pts : Z) (items : list Item) :
  outcome off defn pts items ->
  0 <= items_stat items "ast" <= items_stat items "fgm" /\
  0 <= items_stat items "orb" /\ 0 <= items_stat items "drb" /\
  items_stat items "orb" + items_stat items "drb"
    <= items_stat items "fga" - items_stat items "fgm".
Proof. destruct 1; cbn; lia. Qed.

Lemma team_line_step (team_a team_b : Team) :
  NoDup (map name (all_players team_a ++ all_players team_b)) ->
  forall i st,
    (let '(_, _, box) := st in
     team_line box team_a team_b /\ team_line box team_b team_a) ->
    ensures (game_step team_a team_b i st)
      (fun st' => let '(_, _, box) := st' in
         team_line box team_a team_b /\ team_line box team_b team_a).
Proof.
  intros Hnd i [[score_a score_b] box] [Ha Hb].
  rewrite map_app in Hnd.
  assert (Hnd' : NoDup (map name (all_players team_b)
                        ++ map name (all_players team_a)))
    by exact (Permutation_NoDup (Permutation_app_comm _ _) Hnd).
  eapply ensures_weaken; [apply ensures_game_step|].
  assert (N1 : "ast"%string <> "drb"%string) by discriminate.
  assert (N2 : "fgm"%string <> "drb"%string) by discriminate.
  assert (N3 : "orb"%string <> "drb"%string) by discriminate.
  assert (N4 : "fga"%string <> "drb"%string) by discriminate.
  intros st' (pts & items & box' & Hbox & [[-> Ho]|[-> Ho]]);
    pose proof (outcome_items_stat _ _ _ _ Ho) as Hi;
    [ pose proof (fun s => outcome_team_stat _ _ _ _ s Hnd Ho) as Ht
    | pose proof (fun s => outcome_team_stat _ _ _ _ s Hnd' Ho) as Ht ];
    cbv zeta in Ht;
    destruct (proj1 (Ht "drb"%string) eq_refl) as [D1 D2];
    destruct (proj2 (Ht "ast"%string) N1) as [A1 A2];
    destruct (proj2 (Ht "fgm"%string) N2) as [M1 M2];
    destruct (proj2 (Ht "orb"%string) N3) as [O1 O2];
    destruct (proj2 (Ht "fga"%string) N4) as [F1 F2];
    unfold team_line in *;
    rewrite !(fun s players =>
                team_total_add box box' s (fun n => item_total items n s)
                               players (fun n => Hbox n s));
    rewrite ?D1, ?D2, ?A1, ?A2, ?M1, ?M2, ?O1, ?O2, ?F1, ?F2; lia.
Qed.

(** X10: when the ten players carry pairwise distinct names, the team
    totals of the box are consistent: a team's assists never exceed its
    made field goals, and its offensive rebounds together with the
    opponent's defensive rebounds never exceed its missed field goals,
    every rebound following a miss of the team on offense. *)
Theorem team_totals_consistent (rng_seed : Z -> tape) (team_a team_b : Team)
    (seed : option Z) (g g' : tape) (res : Result) :
  NoDup (map name (all_players team_a ++ all_players team_b)) ->
  simulate_game rng_seed team_a team_b seed g = Some (res, g') ->
  team_line (box res) team_a team_b /\ team_line (box res) team_b team_a.
Proof.
  intros Hnd Hrun.
  refine (ensures_simulate_game rng_seed team_a team_b seed
            (fun st => let '(_, _, box) := st in
               team_line box team_a team_b /\ team_line box team_b team_a)
            _ (team_line_step _ _ Hnd) g res g' Hrun).
  unfold team_line. cbn. lia.
Qed.

Lemma team_totals_consistent_witness :
  match simulate_game example_seed example_a example_b (Some 42) (tape_of [])
  with
  | Some r => team_line (box (fst r)) example_a example_b
  | None => False
  end.
Proof.
  apply (returned _ _ (fun res => team_line (box res) example_a example_b)).
  - apply simulate_game_succeeds; apply example_players_distinct.
  - intros res g' E.
    exact (proj1 (team_totals_consistent _ _ _ _ _ _ _
                    example_names_distinct E)).
Defined.

(** ** Clamping and scaling *)

Lemma Qltb_ge (x y : Q) : Qltb x y = false <-> (y <= x)%Q.
Proof.
  unfold Qltb. rewrite negb_false_iff. apply Qle_bool_iff.
Qed.

(** Case analysis on every comparison in sight. *)
Ltac qltb_cases :=
  repeat match goal with
         | |- context [Qltb ?a ?b] =>
             let E := fresh "E" in
             destruct (Qltb a b) eqn:E;
             [apply Qltb_lt in E | apply Qltb_ge in E]
         | H : context [Qltb ?a ?b] |- _ =>
             let E := fresh "E" in
             destruct (Qltb a b) eqn:E;
             [apply Qltb_lt in E | apply Qltb_ge in E]
         end.

Ltac clamp_cases :=
  unfold clamp, py_max, py_min; qltb_cases; try lra.

(** X11: [clamp x lo hi] with [lo <= hi] lies in [[lo, hi]], is [x]
    itself when [x] is in the interval, [lo] below it and [hi] above it,
    and it is monotone in [x].  With the bounds the wrong way round
    ([hi < lo]) it returns [lo] whatever [x] is. *)
Theorem clamp_spec (x lo hi : Q) :
  ((lo <= hi)%Q -> (lo <= clamp x lo hi <= hi)%Q) /\
  ((lo <= x <= hi)%Q -> (clamp x lo hi == x)%Q) /\
  ((x < lo)%Q -> clamp x lo hi = lo) /\
  ((lo <= hi)%Q -> (hi <= x)%Q -> (clamp x lo hi == hi)%Q) /\
  ((hi < lo)%Q -> clamp x lo hi = lo) /\
  (forall y, (x <= y)%Q -> (clamp x lo hi <= clamp y lo hi)%Q).
Proof.
  split; [intro; split; clamp_cases|].
  split; [intros [? ?]; clamp_cases|].
  split; [intro; clamp_cases; reflexivity|].
  split; [intros ? ?; clamp_cases|].
  split; [intro; clamp_cases; reflexivity|].
  intros y Hxy. clamp_cases.
Qed.

Lemma scale_to_99_unfold (val lo hi : Q) :
  Qeq_bool hi lo = false ->
  scale_to_99 val lo hi = clamp (99 * ((val - lo) / (hi - lo))) 0 99.
Proof. intro H. unfold scale_to_99. now rewrite H. Qed.

Lemma Qeq_bool_lt (lo hi : Q) : (lo < hi)%Q -> Qeq_bool hi lo = false.
Proof.
  intro H. destruct (Qeq_bool hi lo) eqn:E; [|reflexivity].
  apply Qeq_bool_iff in E. lra.
Qed.

Lemma ratio_le (a b d : Q) :
  (0 < d)%Q -> (a <= b)%Q -> (a / d <= b / d)%Q.
Proof.
  intros Hd Hab. unfold Qdiv. apply Qmult_le_compat_r; [exact Hab|].
  apply Qlt_le_weak, Qinv_lt_0_compat, Hd.
Qed.

Lemma scale_to_99_bounds (val lo hi : Q) :
  (0 <= scale_to_99 val lo hi <= 99)%Q.
Proof.
  unfold scale_to_99. destruct (Qeq_bool hi lo).
  - split; discriminate.
  - cbv zeta. apply clamp_bounds. discriminate.
Qed.

(** X12: [scale_to_99] never divides by zero: equal bounds give 50.  In
    every case the result lies in [[0, 99]]; with [lo < hi] it is 0 at
    and below [lo], 99 at and above [hi], [99 * (val - lo) / (hi - lo)]
    in between, and monotone in [val]. *)
Theorem scale_to_99_spec (val lo hi : Q) :
  ((hi == lo)%Q -> scale_to_99 val lo hi = 50%Q) /\
  (0 <= scale_to_99 val lo hi <= 99)%Q /\
  ((lo < hi)%Q ->
   ((val <= lo)%Q -> (scale_to_99 val lo hi == 0)%Q) /\
   ((hi <= val)%Q -> (scale_to_99 val lo hi == 99)%Q) /\
   ((lo <= val <= hi)%Q ->
    (scale_to_99 val lo hi == 99 * ((val - lo) / (hi - lo)))%Q) /\
   (forall val', (val <= val')%Q ->
      (scale_to_99 val lo hi <= scale_to_99 val' lo hi)%Q)).
Proof.
  split; [|split; [apply scale_to_99_bounds|]].
  - intro H. unfold scale_to_99.
    now rewrite (proj2 (Qeq_bool_iff hi lo) H).
  - intro Hlt.
    assert (Hd : (0 < hi - lo)%Q) by lra.
    assert (Hone : ((hi - lo) / (hi - lo) == 1)%Q)
      by (field; lra).
    assert (Hzero : (0 / (hi - lo) == 0)%Q) by (unfold Qdiv; ring).
    split; [|split; [|split]].
    + intro H. rewrite scale_to_99_unfold by now apply Qeq_bool_lt.
      pose proof (ratio_le (val - lo) 0 (hi - lo) Hd ltac:(lra)) as R.
      rewrite Hzero in R.
      set (t := ((val - lo) / (hi - lo))%Q) in *. clamp_cases.
    + intro H. rewrite scale_to_99_unfold by now apply Qeq_bool_lt.
      pose proof (ratio_le (hi - lo) (val - lo) (hi - lo) Hd ltac:(lra)) as R.
      rewrite Hone in R.
      set (t := ((val - lo) / (hi - lo))%Q) in *. clamp_cases.
    + intros [H1 H2]. rewrite scale_to_99_unfold by now apply Qeq_bool_lt.
      pose proof (ratio_le 0 (val - lo) (hi - lo) Hd ltac:(lra)) as R1.
      pose proof (ratio_le (val - lo) (hi - lo) (hi - lo) Hd ltac:(lra)) as R2.
      rewrite Hzero in R1. rewrite Hone in R2.
      set (t := ((val - lo) / (hi - lo))%Q) in *. clamp_cases.
    + intros val' H. rewrite !scale_to_99_unfold by now apply Qeq_bool_lt.
      pose proof (ratio_le (val - lo) (val' - lo) (hi - lo) Hd ltac:(lra)) as R.
      set (t := ((val - lo) / (hi - lo))%Q) in *.
      set (t' := ((val' - lo) / (hi - lo))%Q) in *.
      clamp_cases.
Qed.

(** ** Probabilities of a possession *)

(** X13: every probability a possession compares a draw with lies in the
    interval it is clamped to, whatever the ratings are: each is strictly
    between 0 and 1, so that no branch of a possession is certain or
    impossible. *)
Theorem possession_probabilities (off_syn def_syn : Synergy)
    (shooter : Player) :
  (0.06 <= tov_prob off_syn def_syn <= 0.18)%Q /\
  (0.45 <= assist_prob off_syn shooter <= 0.97)%Q /\
  (0.03 <= p3_prob off_syn def_syn shooter <= 0.65)%Q /\
  (0.30 <= make_prob off_syn def_syn shooter false <= 0.73)%Q /\
  (0.24 <= make_prob off_syn def_syn shooter true <= 0.52)%Q /\
  (0.03 <= foul_prob def_syn shooter <= 0.18)%Q /\
  (0.50 <= ft_prob def_syn shooter <= 0.95)%Q /\
  (0.16 <= oreb_prob off_syn def_syn <= 0.34)%Q /\
  (0.40 <= putback_prob def_syn shooter <= 0.80)%Q.
Proof.
  unfold tov_prob, assist_prob, p3_prob, make_prob, foul_prob, ft_prob,
    oreb_prob, putback_prob.
  cbv zeta. cbn [negb].
  repeat split; apply clamp_bounds; discriminate.
Qed.

(** ** Ranges of ratings and synergy *)

Lemma PLAYER_DB_built (p : Player) :
  In p PLAYER_DB -> ratings p = build_player_ratings p.
Proof.
  intro Hin. unfold PLAYER_DB in Hin.
  apply in_map_iff in Hin as (row & <- & _). reflexivity.
Qed.

(** X14: computed in exact arithmetic, the ratings
    [build_player_ratings] gives a player are on the 0-99 scale whatever
    the player's statistics are, with [usage] in [[0.10, 0.40]] and
    [three_tendency] in [[0, 0.60]]; and every player of the database
    carries the ratings built from its own row. *)
Theorem ratings_ranges :
  (forall p, rated (build_player_ratings p)) /\
  (forall p, In p PLAYER_DB ->
     ratings p = build_player_ratings p /\ rated (ratings p)).
Proof.
  assert (H : forall p, rated (build_player_ratings p)).
  { intro p. unfold rated, build_player_ratings. cbv zeta.
    cbn [finishing three mid ft playmaking r_per_def r_int_def r_rebounding
         athletic usage three_tendency].
    pose proof (scale_to_99_bounds (ts p) 0.50 0.65).
    pose proof (scale_to_99_bounds (ppg p) 12 32).
    pose proof (scale_to_99_bounds (three_pct p) 0.28 0.44).
    pose proof (scale_to_99_bounds (three_rate p) 0.02 0.55).
    pose proof (scale_to_99_bounds (ts p) 0.52 0.60).
    pose proof (scale_to_99_bounds (ppg p) 12 30).
    pose proof (scale_to_99_bounds (ft_pct p) 0.60 0.92).
    pose proof (scale_to_99_bounds (apg p) 2.0 11.5).
    pose proof (scale_to_99_bounds (obpm p) 0.0 10.5).
    pose proof (scale_to_99_bounds (dbpm p) 0.0 4.8).
    pose proof (scale_to_99_bounds (ws48 p) 0.10 0.26).
    pose proof (scale_to_99_bounds (rpg p) 3.5 13.0).
    pose proof (scale_to_99_bounds (inject_Z (height_in p)) 72 86).
    pose proof (clamp_bounds (0.25 + (ppg p - 15) * 0.015) 0.10 0.40
                  ltac:(discriminate)).
    pose proof (clamp_bounds (three_rate p) 0.00 0.60 ltac:(discriminate)).
    assert (Hmid : forall a b : Q, ((a + b) / 2 == (a + b) * (1 # 2))%Q)
      by (intros; field).
    rewrite Hmid.
    repeat split; lra. }
  split; [exact H|].
  intros p Hin. split; [now apply PLAYER_DB_built|].
  rewrite (PLAYER_DB_built p Hin). apply H.
Qed.

Lemma average_five (f : Player -> Q) (t : Team) (lo hi : Q) :
  (forall p, In p (all_players t) -> (lo <= f p <= hi)%Q) ->
  (lo <= average f (all_players t) <= hi)%Q.
Proof.
  intro H.
  assert (E : (average f (all_players t)
               == (f (lineup t PG) + f (lineup t SG) + f (lineup t SF)
                   + f (lineup t PF) + f (lineup t C)) * (1 # 5))%Q).
  { unfold average, all_players, POSITIONS, py_sum.
    cbn [map fold_left List.length].
    change (inject_Z (Z.of_nat 5)) with 5%Q. field. }
  rewrite E.
  pose proof (H (lineup t PG) ltac:(cbn; tauto)).
  pose proof (H (lineup t SG) ltac:(cbn; tauto)).
  pose proof (H (lineup t SF) ltac:(cbn; tauto)).
  pose proof (H (lineup t PF) ltac:(cbn; tauto)).
  pose proof (H (lineup t C) ltac:(cbn; tauto)).
  split; lra.
Qed.

(** X15: for a lineup whose players have ratings in the ranges of
    [build_player_ratings], the synergy values are averages on the same
    scale: rim pressure, ball movement, the two defenses and rebounding
    in [[0, 99]], spacing in [[0, 108.9]] (a three-point rating weighted
    by up to 1.1), the pace in [[90, 104]]. *)
Theorem synergy_ranges (t : Team) :
  (forall p, In p (all_players t) -> rated (ratings p)) ->
  (0 <= spacing (team_synergy t) <= 108.9)%Q /\
  (0 <= rim_pressure (team_synergy t) <= 99)%Q /\
  (0 <= ball_move (team_synergy t) <= 99)%Q /\
  (0 <= int_def (team_synergy t) <= 99)%Q /\
  (0 <= per_def (team_synergy t) <= 99)%Q /\
  (0 <= rebounding (team_synergy t) <= 99)%Q /\
  (90 <= pace (team_synergy t) <= 104)%Q.
Proof.
  intro H. unfold team_synergy. cbv zeta.
  cbn [spacing rim_pressure ball_move int_def per_def rebounding pace].
  split; [|split; [|split; [|split; [|split; [|split]]]]].
  - apply average_five. intros p Hp.
    destruct (H p Hp) as (_ & [T1 T2] & _ & _ & _ & _ & _ & _ & _ & _ & [U1 U2]).
    split.
    + apply Qmult_le_0_compat; lra.
    + apply Qle_trans with (99 * (0.5 + three_tendency (ratings p)))%Q;
        [apply Qmult_le_compat_r; lra | lra].
  - apply average_five. intros p Hp. apply (H p Hp).
  - apply average_five. intros p Hp. apply (H p Hp).
  - apply average_five. intros p Hp.
    destruct (H p Hp) as (_ & _ & _ & _ & _ & _ & R & _).
    destruct (pos_in (pos_primary p) [PF; C]); lra.
  - apply average_five. intros p Hp.
    destruct (H p Hp) as (_ & _ & _ & _ & _ & R & _).
    destruct (pos_in (pos_primary p) [PG; SG; SF]); lra.
  - apply average_five. intros p Hp. apply (H p Hp).
  - apply clamp_bounds. discriminate.
Qed.

Lemma synergy_ranges_witness :
  (0 <= rim_pressure (team_synergy example_a) <= 99)%Q.
Proof.
  refine (proj1 (proj2 (synergy_ranges example_a _))).
  intros p Hp.
  unfold all_players, POSITIONS in Hp. cbn [map In example_a lineup] in Hp.
  repeat (destruct Hp as [<-|Hp];
          [vm_compute; repeat split; discriminate|]).
  contradiction.
Defined.

(** ** The synergy bars *)

(** X16: the value [render_bars] hands to [st.progress] is always an
    integer between 0 and 100, whatever the synergy value is; a value
    already in [[0, 100]] is shown as it is and one above 100 (spacing
    can reach 108.9) fills the bar; and for the pace of a team, which
    lies in [[90, 104]], the normalisation [(val - 90) * (100 / 14)]
    needs no clamping. *)
Theorem bar_value_range (is_pace : bool) (val : Q) :
  0 <= bar_value is_pace val <= 100 /\
  ((0 <= val <= 100)%Q -> (bar_pct false val == val)%Q) /\
  ((100 <= val)%Q -> bar_value false val = 100) /\
  (forall t : Team,
     (bar_pct true (pace (team_synergy t))
      == (pace (team_synergy t) - 90) * (100 / (104 - 90)))%Q).
Proof.
  assert (Ek : (100 / (104 - 90) == 50 # 7)%Q) by reflexivity.
  assert (Hpct : forall b v, (0 <= bar_pct b v <= 100)%Q).
  { intros b v. unfold bar_pct. destruct b.
    - apply (clamp_bounds _ 0 100). discriminate.
    - apply (clamp_bounds _ 0 100). discriminate. }
  split; [|split; [|split]].
  - unfold bar_value. apply py_int_bounds; [lia | apply Hpct].
  - intros [H1 H2]. unfold bar_pct, py_max, py_min.
    qltb_cases; lra.
  - intro H. unfold bar_value.
    assert (E : (bar_pct false val == 100)%Q).
    { unfold bar_pct, py_max, py_min.
      qltb_cases; lra. }
    apply Z.le_antisymm.
    + apply (py_int_bounds _ 0 100); [lia | apply Hpct].
    + apply (py_int_bounds _ 100 100); [lia|].
      change (inject_Z 100) with 100%Q. rewrite E. split; apply Qle_refl.
  - intro t. pose proof (pace_bounds t) as [P1 P2].
    set (v := pace (team_synergy t)) in *.
    unfold bar_pct, py_max, py_min.
    qltb_cases; rewrite ?Ek in *; lra.
Qed.

(** ** The command-line draft *)

Lemma Pos_eqb_eq (a b : Pos) : Pos_eqb a b = true <-> a = b.
Proof. unfold Pos_eqb. destruct (Pos_eq_dec a b); split; congruence. Qed.

Lemma pos_in_In (pos : Pos) (l : list Pos) : pos_in pos l = true <-> In pos l.
Proof.
  unfold pos_in. rewrite existsb_exists. split.
  - intros (x & Hx & E). apply Pos_eqb_eq in E. now subst.
  - intro H. exists pos. split; [exact H | now apply Pos_eqb_eq].
Qed.

Lemma eligible_spec (pos : Pos) (p : Player) :
  eligible pos p = true <-> pos_primary p = pos \/ In pos (pos_secondary p).
Proof.
  unfold eligible. rewrite orb_true_iff, Pos_eqb_eq, pos_in_In. tauto.
Qed.

Lemma list_by_position_In (pos : Pos) (pool : list Player) (p : Player) :
  In p (list_by_position pos pool) <-> In p pool /\ eligible pos p = true.
Proof. unfold list_by_position. apply filter_In. Qed.

Lemma ratings_eqb_refl (r : Ratings) : ratings_eqb r r = true.
Proof.
  unfold ratings_eqb.
  rewrite !(proj2 (Qeq_bool_iff _ _) (Qeq_refl _)). reflexivity.
Qed.

Lemma player_eqb_refl (p : Player) : player_eqb p p = true.
Proof.
  unfold player_eqb.
  rewrite !String.eqb_refl, !Z.eqb_refl, ratings_eqb_refl,
    !(proj2 (Qeq_bool_iff _ _) (Qeq_refl _)),
    (proj2 (Pos_eqb_eq _ _) eq_refl).
  destruct (list_eq_dec Pos_eq_dec (pos_secondary p) (pos_secondary p));
    [reflexivity | congruence].
Qed.

(** [available.remove(sel)] takes out one entry equal to [sel]. *)
Lemma list_remove_perm (sel : Player) (l l' : list Player) :
  list_remove sel l = Some l' ->
  exists r, player_eqb r sel = true /\ Permutation l (r :: l').
Proof.
  revert l'. induction l as [|p l IH]; intros l' H; [discriminate|].
  cbn [list_remove] in H. destruct (player_eqb p sel) eqn:E.
  - injection H as <-. now exists p.
  - destruct (list_remove sel l) as [rest|]; [|discriminate].
    injection H as <-. destruct (IH rest eq_refl) as (r & Hr & Hp).
    exists r. split; [exact Hr|].
    rewrite perm_swap. now apply perm_skip.
Qed.

(** It raises only when no entry equals [sel]. *)
Lemma list_remove_In (sel : Player) (l : list Player) :
  In sel l -> exists l', list_remove sel l = Some l'.
Proof.
  induction l as [|p l IH]; intro H; [easy|].
  cbn [list_remove]. destruct (player_eqb p sel) eqn:E; [now eexists|].
  destruct H as [->|H]; [now rewrite player_eqb_refl in E|].
  destruct (IH H) as (l' & ->). now eexists.
Qed.

Lemma list_remove_incl (sel : Player) (l l' : list Player) :
  list_remove sel l = Some l' -> incl l' l.
Proof.
  intro H. destruct (list_remove_perm _ _ _ H) as (r & _ & Hp).
  intros q Hq. apply (Permutation_in _ (Permutation_sym Hp)). now right.
Qed.

(** What the loop of [draft_team] returns: the selections go to the
    positions in order, each one eligible for its position and taken from
    the pool, and for each of them one equal entry leaves the pool. *)
Lemma draft_positions_spec (positions : list Pos) :
  forall sels lineup available lineup' available',
    draft_positions positions sels lineup available
    = Some (lineup', available') ->
    exists picks removed,
      picks = firstn (List.length positions) sels /\
      List.length picks = List.length positions /\
      lineup' = fold_left (fun l (kv : Pos * Player) =>
                             dict_set Pos_eqb (fst kv) (snd kv) l)
                          (combine positions picks) lineup /\
      Forall2 (fun r p => player_eqb r p = true) removed picks /\
      Permutation available (removed ++ available') /\
      Forall2 (fun pos p => eligible pos p = true /\ In p available)
              positions picks.
Proof.
  induction positions as [|pos positions IH];
    intros sels lineup available lineup' available' H.
  - injection H as <- <-. exists [], []. cbn [List.length firstn combine fold_left app].
    split; [reflexivity | split; [reflexivity | split; [reflexivity|]]].
    split; [apply Forall2_nil | split; [reflexivity | apply Forall2_nil]].
  - cbn [draft_positions] in H. destruct sels as [|sel sels]; [discriminate|].
    destruct (list_by_position pos available) as [|c cs] eqn:Ec;
      [discriminate|].
    destruct (existsb (is_obj sel) (c :: cs)) eqn:Ex; [|discriminate].
    destruct (list_remove sel available) as [available1|] eqn:Er;
      [|discriminate].
    assert (Hsel : In sel available /\ eligible pos sel = true).
    { apply list_by_position_In. rewrite Ec.
      apply holds_In. exact Ex. }
    destruct (list_remove_perm _ _ _ Er) as (r & Hr & Hp).
    destruct (IH _ _ _ _ _ H) as (picks & removed & E1 & E2 & E3 & F & P & G).
    exists (sel :: picks), (r :: removed).
    cbn [List.length firstn combine fold_left fst snd app].
    split; [now rewrite E1|]. split; [now rewrite E2|].
    split; [exact E3|]. split; [now constructor|].
    split; [now rewrite Hp, P|].
    constructor; [tauto|].
    eapply Forall2_impl; [|exact G].
    intros a b [Ha Hb]. split; [exact Ha|].
    apply (Permutation_in _ (Permutation_sym Hp)). now right.
Qed.

Lemma Forall2_length_eq {A B} (R : A -> B -> Prop) (l : list A) (l' : list B) :
  Forall2 R l l' -> List.length l = List.length l'.
Proof. induction 1; cbn [List.length]; congruence. Qed.

(** What [draft_team] returns, position by position. *)
Lemma draft_team_picks (sels available : list Player)
    (lineup : dict Pos Player) (available' : list Player) :
  draft_team sels available = Some (lineup, available') ->
  exists p1 p2 p3 p4 p5 removed,
    firstn 5 sels = [p1; p2; p3; p4; p5] /\
    lineup = [(PG, p1); (SG, p2); (SF, p3); (PF, p4); (C, p5)] /\
    Forall2 (fun r p => player_eqb r p = true) removed [p1; p2; p3; p4; p5] /\
    Permutation available (removed ++ available') /\
    Forall2 (fun pos p => eligible pos p = true /\ In p available)
            POSITIONS [p1; p2; p3; p4; p5].
Proof.
  intro H. unfold draft_team in H.
  destruct (draft_positions_spec _ _ _ _ _ _ H)
    as (picks & removed & E1 & E2 & E3 & F & P & G).
  change (List.length POSITIONS) with 5%nat in E1, E2.
  destruct picks as [|p1 [|p2 [|p3 [|p4 [|p5 [|p6 picks]]]]]];
    try discriminate E2.
  unfold POSITIONS in E3. cbn in E3.
  exists p1, p2, p3, p4, p5, removed. now rewrite <- E1.
Qed.

(** X17: a team returned by [draft_team] has the five positions as the
    keys of its lineup, in order, filled by the first five selections;
    every selected player comes from the pool the draft started with and
    plays the position, as primary or secondary; the pool that is left is
    part of the former one and five entries shorter. *)
Theorem draft_team_lineup (sels available : list Player)
    (lineup : dict Pos Player) (available' : list Player) :
  draft_team sels available = Some (lineup, available') ->
  map fst lineup = POSITIONS /\
  map snd lineup = firstn 5 sels /\
  (forall pos p, In (pos, p) lineup ->
     In p available /\ (pos_primary p = pos \/ In pos (pos_secondary p))) /\
  List.length available = (List.length available' + 5)%nat /\
  incl available' available.
Proof.
  intro H.
  destruct (draft_team_picks _ _ _ _ H)
    as (p1 & p2 & p3 & p4 & p5 & removed & E1 & -> & F & P & G).
  split; [reflexivity | split; [now rewrite E1 | split; [|split]]].
  - unfold POSITIONS in G.
    inversion G as [|? ? ? ? G1 G']; subst.
    inversion G' as [|? ? ? ? G2 G'']; subst.
    inversion G'' as [|? ? ? ? G3 G3']; subst.
    inversion G3' as [|? ? ? ? G4 G4']; subst.
    inversion G4' as [|? ? ? ? G5 _]; subst.
    intros pos p Hin. cbn [In] in Hin.
    repeat (destruct Hin as [[= <- <-]|Hin];
            [split; [tauto | apply eligible_spec; tauto]|]).
    contradiction.
  - apply Permutation_length in P. rewrite P, length_app.
    rewrite (Forall2_length_eq _ _ _ F). cbn [List.length]. lia.
  - intros q Hq. apply (Permutation_in _ (Permutation_sym P)).
    apply in_or_app. now right.
Qed.

Lemma small_draft :
  draft_team small_picks small_pool
  = Some ([(PG, db 3); (SG, db 0); (SF, db 1); (PF, db 6); (C, db 2)],
          [db 9; db 7]).
Proof. vm_compute. reflexivity. Qed.

Lemma draft_team_lineup_witness :
  map fst [(PG, db 3); (SG, db 0); (SF, db 1); (PF, db 6); (C, db 2)]
  = POSITIONS.
Proof.
  exact (proj1 (draft_team_lineup _ _ _ _ small_draft)).
Defined.

Lemma Forall2_in_r {A B} (R : A -> B -> Prop) (l : list A) (l' : list B)
    (b : B) :
  Forall2 R l l' -> In b l' -> exists a, In a l /\ R a b.
Proof.
  induction 1 as [|x y l l' Hxy _ IH]; intro Hin; [easy|].
  destruct Hin as [<-|Hin].
  - exists x. split; [now left | exact Hxy].
  - destruct (IH Hin) as (a & Ha & HR). exists a. split; [now right | exact HR].
Qed.

(** Where no two entries of the pool are equal as values, the entry
    removed for a selection is the selection. *)
Lemma removed_are_picks (available removed picks : list Player) :
  (forall p q, In p available -> In q available ->
               player_eqb p q = true -> p = q) ->
  incl removed available -> incl picks available ->
  Forall2 (fun r p => player_eqb r p = true) removed picks ->
  removed = picks.
Proof.
  intros Hu Hr Hp F. induction F as [|r p removed picks E F IH];
    [reflexivity|].
  f_equal.
  - apply Hu; [apply Hr; now left | apply Hp; now left | exact E].
  - apply IH; intros q Hq; [apply Hr | apply Hp]; now right.
Qed.

(** X18: conservation in the command-line draft.  When no two entries of
    the pool are equal as values (the duplicated row of the database is
    what breaks this), the players of the returned lineup together with
    the pool that is left are exactly the entries of the pool the draft
    started with, each once. *)
Theorem draft_team_conserves (sels available : list Player)
    (lineup : dict Pos Player) (available' : list Player) :
  (forall p q, In p available -> In q available ->
               player_eqb p q = true -> p = q) ->
  draft_team sels available = Some (lineup, available') ->
  Permutation available (map snd lineup ++ available') /\
  (NoDup available ->
   forall pos p, In (pos, p) lineup -> ~ In p available').
Proof.
  intros Hu H.
  destruct (draft_team_picks _ _ _ _ H)
    as (p1 & p2 & p3 & p4 & p5 & removed & _ & -> & F & P & G).
  cbn [map snd].
  assert (Hincl : incl [p1; p2; p3; p4; p5] available).
  { clear - G. intros q Hq.
    destruct (Forall2_in_r _ _ _ q G Hq) as (pos & _ & _ & Hin).
    exact Hin. }
  assert (Hrem : removed = [p1; p2; p3; p4; p5]).
  { apply (removed_are_picks available); [exact Hu | | exact Hincl | exact F].
    intros q Hq. apply (Permutation_in _ (Permutation_sym P)).
    apply in_or_app. now left. }
  subst removed. split; [exact P|].
  intros Hnd pos p Hp Hin'.
  apply (Permutation_NoDup P) in Hnd.
  apply (NoDup_app_disjoint _ _ p Hnd); [|exact Hin'].
  apply (in_map snd) in Hp. exact Hp.
Qed.

Lemma small_pool_unique (p q : Player) :
  In p small_pool -> In q small_pool -> player_eqb p q = true -> p = q.
Proof.
  unfold small_pool. cbn [In]. intros Hp Hq.
  repeat (destruct Hp as [<-|Hp]);
    try contradiction;
    repeat (destruct Hq as [<-|Hq]);
    try contradiction;
    intro E; first [reflexivity | vm_compute in E; discriminate E].
Qed.

Lemma draft_team_conserves_witness :
  Permutation small_pool
    (map snd [(PG, db 3); (SG, db 0); (SF, db 1); (PF, db 6); (C, db 2)]
     ++ [db 9; db 7]).
Proof.
  exact (proj1 (draft_team_conserves _ _ _ _ small_pool_unique small_draft)).
Defined.

Lemma draft_positions_none (pos : Pos) (positions : list Pos) :
  In pos positions ->
  forall sels lineup available,
    list_by_position pos available = [] ->
    draft_positions positions sels lineup available = None.
Proof.
  induction positions as [|pos' positions IH]; intro Hin; [easy|].
  intros sels lineup available Hnone.
  cbn [draft_positions]. destruct sels as [|sel sels]; [reflexivity|].
  destruct (list_by_position pos' available) as [|c cs] eqn:Ec; [reflexivity|].
  destruct (existsb (is_obj sel) (c :: cs)); [|reflexivity].
  destruct (list_remove sel available) as [available1|] eqn:Er; [|reflexivity].
  destruct Hin as [->|Hin]; [congruence|].
  apply (IH Hin).
  destruct (list_by_position pos available1) as [|q qs] eqn:Eq; [reflexivity|].
  assert (Hq : In q (list_by_position pos available1))
    by (rewrite Eq; now left).
  apply list_by_position_In in Hq as [Hq1 Hq2].
  assert (Hq' : In q (list_by_position pos available)).
  { apply list_by_position_In. split; [|exact Hq2].
    exact (list_remove_incl _ _ _ Er q Hq1). }
  rewrite Hnone in Hq'. contradiction.
Qed.

(** X19: [draft_team] does not return a team from a pool that has no
    candidate for one of the five positions, whatever is selected for
    the other positions: the draft stops with the error at that position
    at the latest. *)
Theorem draft_team_needs_candidates (pos : Pos) (sels available : list Player) :
  list_by_position pos available = [] ->
  draft_team sels available = None.
Proof.
  intro H. unfold draft_team. apply (draft_positions_none pos); [|exact H].
  unfold POSITIONS. destruct pos; cbn; tauto.
Qed.

Lemma draft_team_needs_candidates_witness :
  draft_team small_picks [db 3; db 0; db 1] = None.
Proof.
  apply (draft_team_needs_candidates C). vm_compute. reflexivity.
Defined.

(** ** Automatic picks *)

Lemma max_from_spec (key : Player -> Q) (l : list Player) :
  forall best,
    let m := max_from key best l in
    In m (best :: l) /\
    (forall q, In q (best :: l) -> (key q <= key m)%Q) /\
    (key best <= key m)%Q /\
    ((key best == key m)%Q -> m = best).
Proof.
  induction l as [|x l IH]; intro best; cbn [max_from].
  - cbv zeta. split; [now left | split; [|split]].
    + intros q [<-|[]]. apply Qle_refl.
    + apply Qle_refl.
    + reflexivity.
  - destruct (Qltb (key best) (key x)) eqn:E.
    + apply Qltb_lt in E.
      destruct (IH x) as (H1 & H2 & H3 & H4). cbv zeta in *.
      split; [now right | split; [|split]].
      * intros q [<-|Hq]; [lra | now apply H2].
      * lra.
      * intro. lra.
    + apply Qltb_ge in E.
      destruct (IH best) as (H1 & H2 & H3 & H4). cbv zeta in *.
      split; [|split; [|split]].
      * destruct H1 as [H1|H1]; [now left | right; now right].
      * intros q [<-|[<-|Hq]]; [apply H2; now left | lra |].
        apply H2. now right.
      * exact H3.
      * exact H4.
Qed.

(** The first item of the stable descending sort is what [max] finds. *)
Lemma insert_desc_head (key : Player -> Q) (x : Player) (l : list Player) :
  hd_error (insert_desc key x l)
  = match hd_error l with
    | None => Some x
    | Some y => if Qltb (key x) (key y) then Some y else Some x
    end.
Proof. destruct l as [|y l]; cbn; [reflexivity|]. now destruct (Qltb _ _). Qed.

Lemma max_from_max_by (key : Player -> Q) (l : list Player) :
  forall x,
    max_from key x l
    = match max_by key l with
      | None => x
      | Some m => if Qltb (key x) (key m) then m else x
      end.
Proof.
  induction l as [|y l IH]; intro x; [reflexivity|].
  cbn [max_from max_by]. rewrite (IH x), (IH y).
  destruct (max_by key l) as [m'|].
  - destruct (Qltb (key y) (key m')) eqn:E1;
      destruct (Qltb (key x) (key y)) eqn:E2;
      destruct (Qltb (key x) (key m')) eqn:E3;
      try reflexivity;
      try apply Qltb_lt in E1; try apply Qltb_ge in E1;
      try apply Qltb_lt in E2; try apply Qltb_ge in E2;
      try apply Qltb_lt in E3; try apply Qltb_ge in E3;
      lra.
  - now destruct (Qltb (key x) (key y)).
Qed.

Lemma sorted_desc_head (key : Player -> Q) (l : list Player) :
  hd_error (sorted_desc key l) = max_by key l.
Proof.
  induction l as [|x l IH]; [reflexivity|].
  cbn [sorted_desc fold_right]. fold (sorted_desc key l).
  rewrite insert_desc_head, IH. cbn [max_by].
  rewrite max_from_max_by.
  destruct (max_by key l) as [m|]; [|reflexivity].
  now destruct (Qltb (key x) (key m)).
Qed.

Lemma max_from_first (key : Player -> Q) (l : list Player) :
  forall best,
    let m := max_from key best l in
    (m = best /\ forall q, In q l -> (key q <= key best)%Q) \/
    (exists l1 l2,
       l = l1 ++ m :: l2 /\ (key best < key m)%Q /\
       (forall q, In q l1 -> (key q < key m)%Q) /\
       (forall q, In q l2 -> (key q <= key m)%Q)).
Proof.
  induction l as [|x l IH]; intro best; cbn [max_from]; cbv zeta.
  - left. split; [reflexivity | easy].
  - destruct (Qltb (key best) (key x)) eqn:E.
    + apply Qltb_lt in E. right.
      destruct (IH x) as [[Hm Hle]|(l1 & l2 & Hl & Hlt & H1 & H2)];
        cbv zeta in *.
      * exists [], l. rewrite Hm. cbn [app].
        split; [reflexivity | split; [exact E | split; [easy | exact Hle]]].
      * exists (x :: l1), l2. cbn [app].
        split; [now rewrite <- Hl | split; [lra | split; [|exact H2]]].
        intros q [<-|Hq]; [exact Hlt | now apply H1].
    + apply Qltb_ge in E.
      destruct (IH best) as [[Hm Hle]|(l1 & l2 & Hl & Hlt & H1 & H2)];
        cbv zeta in *.
      * left. split; [exact Hm|]. intros q [<-|Hq]; [exact E | now apply Hle].
      * right. exists (x :: l1), l2. cbn [app].
        split; [now rewrite <- Hl | split; [exact Hlt | split; [|exact H2]]].
        intros q [<-|Hq]; [lra | now apply H1].
Qed.

Lemma max_by_In (key : Player -> Q) (l : list Player) (m : Player) :
  max_by key l = Some m -> In m l.
Proof.
  destruct l as [|x l]; [discriminate|]. intros [= <-].
  destruct (max_from_first key l x) as [[-> _]|(l1 & l2 & Hl & _)];
    cbv zeta in *; [now left|].
  right. rewrite Hl at 2. apply in_or_app. right. now left.
Qed.

(** [max(l, key=key)] raises on the empty list only, and otherwise
    returns the first item of [l] whose key is greatest. *)
Lemma max_by_first_maximum (key : Player -> Q) (l : list Player) :
  (max_by key l = None <-> l = []) /\
  forall m, max_by key l = Some m ->
    exists l1 l2,
      l = l1 ++ m :: l2 /\
      (forall q, In q l1 -> (key q < key m)%Q) /\
      (forall q, In q l2 -> (key q <= key m)%Q).
Proof.
  split.
  - destruct l; cbn [max_by]; split; congruence.
  - intros m H. destruct l as [|x l]; [discriminate|].
    injection H as <-.
    destruct (max_from_first key l x) as [[Hm Hle]|(l1 & l2 & Hl & Hlt & H1 & H2)];
      cbv zeta in *.
    + exists [], l. rewrite Hm. cbn [app].
      split; [reflexivity | split; [easy | exact Hle]].
    + exists (x :: l1), l2. cbn [app].
      split; [now rewrite <- Hl | split; [|exact H2]].
      intros q [<-|Hq]; [exact Hlt | now apply H1].
Qed.

(** An automatic draft is a manual draft in which every selection is
    the pick of [max]. *)
Lemma auto_positions_draft (positions : list Pos) :
  forall lineup avail lineup' avail',
    auto_positions positions lineup avail = Some (lineup', avail') ->
    exists picks,
      List.length picks = List.length positions /\
      draft_positions positions picks lineup avail = Some (lineup', avail').
Proof.
  induction positions as [|pos positions IH];
    intros lineup avail lineup' avail' H.
  - injection H as <- <-. now exists [].
  - cbn [auto_positions] in H.
    destruct (max_by overall_score (list_by_position pos avail))
      as [best|] eqn:Em; [|discriminate].
    destruct (list_remove best avail) as [avail1|] eqn:Er; [|discriminate].
    destruct (IH _ _ _ _ H) as (picks & Hlen & Hd).
    exists (best :: picks). split; [cbn [List.length]; now rewrite Hlen|].
    cbn [draft_positions].
    pose proof (max_by_In _ _ _ Em) as Hin.
    destruct (list_by_position pos avail) as [|c cs] eqn:Ec; [contradiction|].
    assert (Hx : existsb (is_obj best) (c :: cs) = true)
      by (apply (holds_In (c :: cs) best); exact Hin).
    rewrite Hx, Er. exact Hd.
Qed.

(** X20: [auto_pick] drafts like [draft_team]: the lineup and the pool
    it returns are those of the manual draft in which the players of the
    lineup are selected in order, so that what holds of every drafted
    team holds of an automatic one.  Its point guard is the first
    best-scoring point-guard candidate of the pool: every candidate
    listed before it scores strictly less and none after it scores
    more. *)
Theorem auto_pick_is_draft (avail : list Player) (lineup : dict Pos Player)
    (avail' : list Player) :
  auto_pick avail = Some (lineup, avail') ->
  draft_team (map snd lineup) avail = Some (lineup, avail') /\
  exists best l1 l2,
    dict_get Pos_eqb PG lineup = Some best /\
    list_by_position PG avail = l1 ++ best :: l2 /\
    (forall q, In q l1 -> (overall_score q < overall_score best)%Q) /\
    (forall q, In q l2 -> (overall_score q <= overall_score best)%Q).
Proof.
  intro H. unfold auto_pick in H. split.
  - destruct (auto_positions_draft _ _ _ _ _ H) as (picks & Hlen & Hd).
    change (List.length POSITIONS) with 5%nat in Hlen.
    destruct (draft_positions_spec _ _ _ _ _ _ Hd)
      as (picks' & _ & E1 & _ & E3 & _).
    change (List.length POSITIONS) with 5%nat in E1.
    destruct picks as [|p1 [|p2 [|p3 [|p4 [|p5 [|p6 picks]]]]]];
      try discriminate Hlen.
    cbn [firstn] in E1. subst picks'.
    unfold POSITIONS in E3. cbn in E3. subst lineup. exact Hd.
  - unfold POSITIONS in H. cbn [auto_positions] in H.
    destruct (max_by overall_score (list_by_position PG avail))
      as [best|] eqn:Em; [|discriminate].
    destruct (proj2 (max_by_first_maximum _ _) best Em)
      as (l1 & l2 & Hl & H1 & H2).
    exists best, l1, l2. split; [|now split].
    destruct (list_remove best avail) as [avail1|]; [|discriminate].
    cbn [dict_set] in H.
    repeat match type of H with
           | match max_by ?k ?l with _ => _ end = _ =>
               destruct (max_by k l); [|discriminate]
           | match list_remove ?b ?l with _ => _ end = _ =>
               destruct (list_remove b l); [|discriminate]
           end.
    cbn in H. injection H as <- _. reflexivity.
Qed.

Lemma auto_pick_is_draft_witness :
  draft_team (map snd [(PG, db 1); (SG, db 3); (SF, db 0); (PF, db 2);
                       (C, db 6)])
             [db 3; db 0; db 1; db 6; db 2]
  = Some ([(PG, db 1); (SG, db 3); (SF, db 0); (PF, db 2); (C, db 6)], []).
Proof.
  apply (auto_pick_is_draft [db 3; db 0; db 1; db 6; db 2]).
  vm_compute. reflexivity.
Defined.

(** ** Sorting the candidates *)

Lemma insert_desc_perm (key : Player -> Q) (x : Player) (l : list Player) :
  Permutation (insert_desc key x l) (x :: l).
Proof.
  induction l as [|y l IH]; cbn [insert_desc]; [reflexivity|].
  destruct (Qltb (key x) (key y)); [|reflexivity].
  rewrite IH. apply perm_swap.
Qed.

Lemma sorted_desc_perm (key : Player -> Q) (l : list Player) :
  Permutation (sorted_desc key l) l.
Proof.
  induction l as [|x l IH]; [reflexivity|].
  cbn [sorted_desc fold_right]. fold (sorted_desc key l).
  rewrite insert_desc_perm. now apply perm_skip.
Qed.

Lemma insert_desc_sorted (key : Player -> Q) (x : Player) (l : list Player) :
  StronglySorted (fun a b => (key b <= key a)%Q) l ->
  StronglySorted (fun a b => (key b <= key a)%Q) (insert_desc key x l).
Proof.
  induction 1 as [|y l Hs IH Hy]; cbn [insert_desc].
  - constructor; constructor.
  - destruct (Qltb (key x) (key y)) eqn:E.
    + apply Qltb_lt in E. constructor; [exact IH|].
      apply (Permutation_Forall (Permutation_sym (insert_desc_perm key x l))).
      constructor; [lra | exact Hy].
    + apply Qltb_ge in E. constructor; [now constructor|].
      constructor; [exact E|].
      eapply Forall_impl; [|exact Hy]. intros a Ha. cbv beta in *. lra.
Qed.

Lemma sorted_desc_sorted (key : Player -> Q) (l : list Player) :
  StronglySorted (fun a b => (key b <= key a)%Q) (sorted_desc key l).
Proof.
  induction l as [|x l IH]; [constructor|].
  cbn [sorted_desc fold_right]. now apply insert_desc_sorted.
Qed.

Lemma insert_desc_filter (key : Player -> Q) (v : Q) (x : Player)
    (l : list Player) :
  filter (fun p => Qeq_bool (key p) v) (insert_desc key x l)
  = filter (fun p => Qeq_bool (key p) v) (x :: l).
Proof.
  induction l as [|y l IH]; cbn [insert_desc]; [reflexivity|].
  destruct (Qltb (key x) (key y)) eqn:E; [|reflexivity].
  apply Qltb_lt in E. cbn [filter] in *. rewrite IH.
  destruct (Qeq_bool (key x) v) eqn:Ex; [|reflexivity].
  destruct (Qeq_bool (key y) v) eqn:Ey; [|reflexivity].
  apply Qeq_bool_iff in Ex, Ey. lra.
Qed.

Lemma sorted_desc_stable (key : Player -> Q) (v : Q) (l : list Player) :
  filter (fun p => Qeq_bool (key p) v) (sorted_desc key l)
  = filter (fun p => Qeq_bool (key p) v) l.
Proof.
  induction l as [|x l IH]; [reflexivity|].
  cbn [sorted_desc fold_right]. fold (sorted_desc key l).
  rewrite insert_desc_filter. cbn [filter]. now rewrite IH.
Qed.

(** X21: [pool_for_position] returns the candidates for the position,
    each once, by decreasing overall score; candidates with equal scores
    keep the order they have in the pool; and the list starts with the
    candidate [max] would pick. *)
Theorem pool_for_position_sorted (pool : list Player) (pos : Pos) :
  let cands := list_by_position pos pool in
  let sorted := pool_for_position pool pos in
  Permutation sorted cands /\
  StronglySorted (fun a b => (overall_score b <= overall_score a)%Q) sorted /\
  (forall v, filter (fun p => Qeq_bool (overall_score p) v) sorted
             = filter (fun p => Qeq_bool (overall_score p) v) cands) /\
  hd_error sorted = max_by overall_score cands.
Proof.
  cbv zeta. unfold pool_for_position.
  split; [apply sorted_desc_perm | split; [apply sorted_desc_sorted|]].
  split; [intro v; apply sorted_desc_stable | apply sorted_desc_head].
Qed.

(** X22: the [Auto-Pick] button does nothing when the position has no
    candidate; otherwise it drafts the first best-scoring of the options
    shown, by the same rule as [auto_pick], and the first candidate when
    no option is shown.  The options being a sample of the candidates,
    the player it drafts is a candidate. *)
Theorem best_from_shown_spec (shown cands : list Player) :
  (cands = [] -> best_from_shown shown cands = None) /\
  (cands <> [] -> shown = [] -> best_from_shown shown cands = hd_error cands) /\
  (cands <> [] -> shown <> [] ->
   exists best l1 l2,
     best_from_shown shown cands = Some best /\
     shown = l1 ++ best :: l2 /\
     (forall q, In q l1 -> (overall_score q < overall_score best)%Q) /\
     (forall q, In q l2 -> (overall_score q <= overall_score best)%Q)) /\
  (incl shown cands ->
   forall p, best_from_shown shown cands = Some p -> In p cands).
Proof.
  split; [intros ->; reflexivity | split; [|split]].
  - intros Hc ->. now destruct cands.
  - intros Hc Hs. destruct cands as [|c cs]; [congruence|].
    destruct shown as [|s0 ss]; [congruence|].
    cbn [best_from_shown]. rewrite sorted_desc_head.
    destruct (max_by overall_score (s0 :: ss)) as [best|] eqn:Em;
      [|discriminate Em].
    destruct (proj2 (max_by_first_maximum _ _) best Em)
      as (l1 & l2 & Hl & H1 & H2).
    now exists best, l1, l2.
  - intros Hincl p H. destruct cands as [|c cs]; [discriminate|].
    destruct shown as [|s0 ss].
    + injection H as <-. now left.
    + cbn [best_from_shown] in H. rewrite sorted_desc_head in H.
      apply Hincl. exact (max_by_In _ _ _ H).
Qed.

(** ** States of the web draft *)

Lemma Pos_eqb_refl (k : Pos) : Pos_eqb k k = true.
Proof. now apply Pos_eqb_eq. Qed.

Lemma Pos_eqb_neq (k k' : Pos) : k <> k' -> Pos_eqb k k' = false.
Proof. intro H. unfold Pos_eqb. now destruct (Pos_eq_dec k k'). Qed.

Lemma dict_get_set_same {V} (k : Pos) (v : V) (d : dict Pos V) :
  dict_get Pos_eqb k (dict_set Pos_eqb k v d) = Some v.
Proof.
  induction d as [|[k' v'] d IH]; cbn [dict_set dict_get].
  - now rewrite Pos_eqb_refl.
  - destruct (Pos_eqb k k') eqn:E; cbn [dict_get]; rewrite E;
      [reflexivity | exact IH].
Qed.

Lemma dict_get_set_other {V} (k k' : Pos) (v : V) (d : dict Pos V) :
  k' <> k ->
  dict_get Pos_eqb k' (dict_set Pos_eqb k v d) = dict_get Pos_eqb k' d.
Proof.
  intro Hne. induction d as [|[k0 v0] d IH]; cbn [dict_set dict_get].
  - now rewrite (Pos_eqb_neq _ _ Hne).
  - destruct (Pos_eqb k k0) eqn:E; cbn [dict_get].
    + apply Pos_eqb_eq in E. subst k0. now rewrite (Pos_eqb_neq _ _ Hne).
    + destruct (Pos_eqb k' k0); [reflexivity | exact IH].
Qed.

Lemma dict_set_keys {V} (k : Pos) (v : V) (d : dict Pos V) :
  In k (map fst d) -> map fst (dict_set Pos_eqb k v d) = map fst d.
Proof.
  induction d as [|[k' v'] d IH]; cbn [dict_set map fst]; [contradiction|].
  destruct (Pos_eqb k k') eqn:E.
  - apply Pos_eqb_eq in E. now subst.
  - intros [->|Hin]; [now rewrite Pos_eqb_refl in E|].
    cbn [map fst]. f_equal. now apply IH.
Qed.

Lemma dict_get_In {V} (k : Pos) (v : V) (d : dict Pos V) :
  dict_get Pos_eqb k d = Some v -> In (k, v) d.
Proof.
  induction d as [|[k' v'] d IH]; cbn [dict_get]; [discriminate|].
  destruct (Pos_eqb k k') eqn:E.
  - apply Pos_eqb_eq in E. subst. intros [= ->]. now left.
  - intro H. right. now apply IH.
Qed.

Lemma In_dict_get {V} (k : Pos) (v : V) (d : dict Pos V) :
  NoDup (map fst d) -> In (k, v) d -> dict_get Pos_eqb k d = Some v.
Proof.
  induction d as [|[k' v'] d IH]; intros Hnd Hin; [easy|].
  cbn [map fst] in Hnd. inversion Hnd as [|? ? Hk Hnd']; subst.
  cbn [dict_get]. destruct Hin as [[= -> ->]|Hin].
  - now rewrite Pos_eqb_refl.
  - destruct (Pos_eqb k k') eqn:E.
    + apply Pos_eqb_eq in E. subst. elim Hk.
      apply in_map_iff. now exists (k', v).
    + now apply IH.
Qed.

(** *** The fields after a pick and after an undo *)

Lemma team_name_cases (T : string) :
  In T ["Team A"; "Team B"]%string ->
  (T = "Team A"%string /\ String.eqb T "Team A" = true) \/
  (T = "Team B"%string /\ String.eqb T "Team A" = false).
Proof. intros [<-|[<-|[]]]; [left | right]; now split. Qed.

Lemma current_team_name_In (st : DraftState) :
  In (current_team_name st) ["Team A"; "Team B"]%string.
Proof.
  unfold current_team_name.
  destruct (Z.eqb (draft_round st mod 2) 1), (Z.eqb (draft_index st) 0);
    cbn; tauto.
Qed.

Lemma team_dict_set_same (T : string) (pos : Pos) (v : option Player)
    (st : DraftState) :
  team_dict T (set_team_slot T pos v st)
  = dict_set Pos_eqb pos v (team_dict T st).
Proof.
  unfold team_dict, set_team_slot.
  destruct (String.eqb T "Team A") eqn:E; cbn [team_a team_b]; reflexivity.
Qed.

Lemma team_dict_set_other (T T' : string) (pos : Pos) (v : option Player)
    (st : DraftState) :
  In T ["Team A"; "Team B"]%string -> In T' ["Team A"; "Team B"]%string ->
  T' <> T ->
  team_dict T' (set_team_slot T pos v st) = team_dict T' st.
Proof.
  intros HT HT' Hne. unfold team_dict, set_team_slot.
  destruct (team_name_cases T HT) as [[-> E]|[-> E]];
    destruct (team_name_cases T' HT') as [[-> E']|[-> E']];
    try congruence; rewrite E, E'; reflexivity.
Qed.

Lemma make_pick_fields (T : string) (pos : Pos) (player : Player)
    (st : DraftState) :
  let st' := make_pick T pos player st in
  pool st'
  = filter (fun p => negb (String.eqb (name p) (name player))) (pool st) /\
  history st' = history st ++ [(T, pos, player)] /\
  team_a st' = team_a (set_team_slot T pos (Some player) st) /\
  team_b st' = team_b (set_team_slot T pos (Some player) st).
Proof.
  cbv zeta. unfold make_pick, set_team_slot.
  destruct (String.eqb T "Team A");
    cbn [pool history team_a team_b draft_index draft_round];
    destruct (Z.eqb (draft_index st) 0);
    cbn [pool history team_a team_b]; repeat split.
Qed.

Lemma make_pick_team_dict (T T' : string) (pos : Pos) (player : Player)
    (st : DraftState) :
  team_dict T' (make_pick T pos player st)
  = team_dict T' (set_team_slot T pos (Some player) st).
Proof.
  destruct (make_pick_fields T pos player st) as (_ & _ & Ea & Eb).
  unfold team_dict. now rewrite Ea, Eb.
Qed.

Lemma undo_last_fields (st : DraftState) (h : list (string * Pos * Player))
    (T : string) (pos : Pos) (player : Player) :
  history st = h ++ [(T, pos, player)] ->
  let st' := undo_last st in
  history st' = h /\ pool st' = pool st ++ [player] /\
  team_a st' = team_a (set_team_slot T pos None st) /\
  team_b st' = team_b (set_team_slot T pos None st) /\
  (draft_round st', draft_index st')
  = (if Z.eqb (draft_index st) 1 then (draft_round st, 0)
     else (Z.max 1 (draft_round st - 1), 1)).
Proof.
  intro Hh. cbv zeta. unfold undo_last. rewrite Hh, rev_unit.
  rewrite rev_involutive. unfold set_team_slot.
  destruct (String.eqb T "Team A");
    destruct (Z.eqb (draft_index st) 1);
    cbn [pool history team_a team_b draft_index draft_round];
    repeat split.
Qed.

Lemma undo_last_team_dict (st : DraftState)
    (h : list (string * Pos * Player)) (T T' : string) (pos : Pos)
    (player : Player) :
  history st = h ++ [(T, pos, player)] ->
  team_dict T' (undo_last st) = team_dict T' (set_team_slot T pos None st).
Proof.
  intro Hh. destruct (undo_last_fields st h T pos player Hh)
    as (_ & _ & Ea & Eb & _).
  unfold team_dict. now rewrite Ea, Eb.
Qed.

Lemma set_team_slot_keys (T : string) (pos : Pos) (v : option Player)
    (st : DraftState) :
  map fst (team_a st) = POSITIONS -> map fst (team_b st) = POSITIONS ->
  map fst (team_a (set_team_slot T pos v st)) = POSITIONS /\
  map fst (team_b (set_team_slot T pos v st)) = POSITIONS.
Proof.
  intros Ha Hb. unfold set_team_slot.
  assert (Hp : In pos POSITIONS) by (destruct pos; cbn; tauto).
  destruct (String.eqb T "Team A"); cbn [team_a team_b]; split;
    try assumption; rewrite dict_set_keys; congruence.
Qed.

(** The team on the clock is the one the snake order names for the
    next pick. *)
Lemma clock_is_snake (st : DraftState) :
  draft_inv st -> draft_open st = true ->
  (List.length (history st) < 10)%nat /\
  firstn (S (List.length (history st))) SNAKE
  = firstn (List.length (history st)) SNAKE ++ [current_team_name st].
Proof.
  intros (Hi & Hr & Hp & _) Ho. unfold draft_open in Ho.
  apply Z.leb_le in Ho. unfold current_team_name.
  assert (Hc : exists n, List.length (history st) = n /\ (n < 10)%nat /\
                         draft_round st = Z.of_nat (n / 2) + 1 /\
                         draft_index st = Z.of_nat (n mod 2)).
  { exists (List.length (history st)).
    pose proof (Nat.div_mod_eq (List.length (history st)) 2).
    pose proof (Nat.mod_upper_bound (List.length (history st)) 2 ltac:(lia)).
    repeat split; lia. }
  destruct Hc as (n & -> & Hn & -> & ->). split; [exact Hn|].
  do 10 (destruct n as [|n]; [reflexivity|]). lia.
Qed.

Lemma NoDup_snoc {A} (l : list A) (x : A) :
  NoDup l -> ~ In x l -> NoDup (l ++ [x]).
Proof.
  intros Hl Hx. apply (Permutation_NoDup (Permutation_cons_append l x)).
  now constructor.
Qed.

Lemma NoDup_snoc_inv {A} (l : list A) (x : A) :
  NoDup (l ++ [x]) -> NoDup l /\ ~ In x l.
Proof.
  intro H.
  apply (Permutation_NoDup (Permutation_sym (Permutation_cons_append l x))) in H.
  inversion H; subst. now split.
Qed.

Lemma firstn_In_list {A} (n : nat) (l : list A) (x : A) :
  In x (firstn n l) -> In x l.
Proof.
  intro H. rewrite <- (firstn_skipn n l). apply in_or_app. now left.
Qed.

Lemma PLAYER_DB_NoDup : NoDup PLAYER_DB.
Proof.
  apply (NoDup_map_inv obj_id).
  replace (map obj_id PLAYER_DB) with (seq 0 103) by (vm_compute; reflexivity).
  apply seq_NoDup.
Qed.

Lemma empty_team_get (pos : Pos) : dict_get Pos_eqb pos empty_team = Some None.
Proof. now destruct pos. Qed.

Lemma draft_inv_init : draft_inv init_state.
Proof.
  unfold draft_inv, init_state.
  cbn [draft_index draft_round history pool team_a team_b List.length map
       firstn].
  split; [now left | split; [lia | split; [reflexivity | split; [lia|]]]].
  split; [reflexivity | split; [reflexivity | split; [reflexivity|]]].
  split; [constructor | split].
  - intros T pos p _. unfold team_dict. cbn [team_a team_b].
    destruct (String.eqb T "Team A"); rewrite empty_team_get;
      split; [discriminate | easy | discriminate | easy].
  - split; [constructor | split; [easy | split; [easy | split; [easy|]]]].
    split; [exact PLAYER_DB_NoDup | intros q Hq _; now left].
Qed.

Lemma unfilled_slot (T : string) (pos : Pos) (st : DraftState) :
  In pos (unfilled_positions T st) ->
  dict_get Pos_eqb pos (team_dict T st) = Some None.
Proof.
  unfold unfilled_positions. intro H. apply filter_In in H as [_ H].
  destruct (dict_get Pos_eqb pos (team_dict T st)) as [[p|]|];
    [discriminate | reflexivity | discriminate].
Qed.

Lemma draft_inv_pick (st : DraftState) (pos : Pos) (player : Player) :
  draft_inv st -> legal_pick st pos player ->
  draft_inv (click_pick st pos player).
Proof.
  intros Hinv (Ho & Hu & Hc).
  destruct (clock_is_snake st Hinv Ho) as [Hlen Hsnake].
  destruct Hinv as (Hi & Hr & Hp & _ & Hs & Ka & Kb & Hnd & Hh & Nn & Np
                    & Dp & Dh & Pn & Pu).
  unfold click_pick. set (T := current_team_name st) in *.
  pose proof (current_team_name_In st) as HT. fold T in HT.
  apply unfilled_slot in Hu.
  apply list_by_position_In in Hc as [Hc Hel].
  destruct (make_pick_fields T pos player st) as (Epool & Ehist & Ea & Eb).
  pose proof (make_pick_pointer T pos player st) as Eptr.
  assert (Hfree : forall p, ~ In (T, pos, p) (history st)).
  { intros p Hin. apply (Hh T pos p HT) in Hin. congruence. }
  unfold draft_inv. rewrite Epool, Ehist, Ea, Eb.
  rewrite !map_app, length_app. cbn [map List.length fst snd].
  rewrite Nat.add_1_r.
  split; [|split; [|split; [|split; [lia|]]]].
  - destruct (Z.eqb (draft_index st) 0); injection Eptr as _ ->; auto.
  - destruct (Z.eqb (draft_index st) 0); injection Eptr as -> _; lia.
  - destruct (Z.eqb_spec (draft_index st) 0); injection Eptr as -> ->; lia.
  - split; [now rewrite Hs, Hsnake|].
    destruct (set_team_slot_keys T pos (Some player) st Ka Kb) as [Ka' Kb'].
    split; [exact Ka' | split; [exact Kb'|]].
    split; [|split; [|split; [|split; [|split; [|split; [|split]]]]]].
    + apply NoDup_snoc; [exact Hnd|].
      intro Hin. apply in_map_iff in Hin as ([[T0 pos0] p0] & [= -> ->] & Hin).
      exact (Hfree p0 Hin).
    + intros T' pos' p HT'. rewrite make_pick_team_dict.
      rewrite in_app_iff. cbn [In].
      destruct (string_dec T' T) as [->|HneT].
      * rewrite team_dict_set_same.
        destruct (Pos_eq_dec pos' pos) as [->|Hnep].
        -- rewrite dict_get_set_same. split.
           ++ intros [= ->]. right. now left.
           ++ intros [Hin|[[= ->]|[]]]; [now elim (Hfree p) | reflexivity].
        -- rewrite dict_get_set_other by exact Hnep.
           rewrite (Hh T pos' p HT). split; [now left|].
           intros [Hin|[[= E _]|[]]]; [exact Hin | now elim Hnep].
      * rewrite team_dict_set_other by assumption.
        rewrite (Hh T' pos' p HT'). split; [now left|].
        intros [Hin|[[= E _ _]|[]]]; [exact Hin | now elim HneT].
    + apply NoDup_snoc; [exact Nn | exact (Np player Hc)].
    + intros q Hq. apply filter_In in Hq as [Hq Hne].
      apply negb_true_iff, String.eqb_neq in Hne.
      rewrite in_app_iff. cbn [In]. intros [Hin|[E|[]]];
        [exact (Np q Hq Hin) | now elim Hne].
    + intros q Hq. apply filter_In in Hq as [Hq _]. now apply Dp.
    + intros e He. apply in_app_or in He as [He|[<-|[]]]; [now apply Dh|].
      split; [now apply Dp | exact Hel].
    + now apply NoDup_filter.
    + intros q Hq Huq. rewrite in_app_iff. cbn [In].
      destruct (Pu q Hq Huq) as [Hin|Hin]; [|now right; left].
      destruct (String.eqb_spec (name q) (name player)) as [E|E].
      * right. right. left. apply (Huq player (Dp _ Hc)). now symmetry.
      * left. apply filter_In. split; [exact Hin|].
        now apply negb_true_iff, String.eqb_neq.
Qed.

Lemma history_teams (st : DraftState) (e : string * Pos * Player) :
  draft_inv st -> In e (history st) ->
  In (fst (fst e)) ["Team A"; "Team B"]%string.
Proof.
  intros (_ & _ & _ & _ & Hs & _) He.
  assert (H : In (fst (fst e)) SNAKE).
  { apply (firstn_In_list (List.length (history st))). rewrite <- Hs.
    now apply (in_map (fun e : string * Pos * Player => fst (fst e))). }
  vm_compute in H. cbn.
  repeat (destruct H as [H|H]; [tauto|]). contradiction.
Qed.

Lemma draft_inv_undo (st : DraftState) :
  draft_inv st -> history st <> [] -> draft_inv (undo_last st).
Proof.
  intros Hinv Hne.
  destruct (exists_last Hne) as (h & [[T pos] player] & Eh).
  assert (HT : In T ["Team A"; "Team B"]%string).
  { apply (history_teams st (T, pos, player) Hinv).
    rewrite Eh. apply in_or_app. right. now left. }
  destruct Hinv as (Hi & Hr & Hp & Hlen & Hs & Ka & Kb & Hnd & Hh & Nn & Np
                    & Dp & Dh & Pn & Pu).
  destruct (undo_last_fields st h T pos player Eh)
    as (Ehist & Epool & Ea & Eb & Eptr).
  rewrite Eh in Hp, Hlen, Hs, Hnd, Nn, Np, Dh.
  rewrite map_app in Hs. rewrite map_app in Hnd.
  rewrite !map_app in Nn. rewrite !map_app in Np.
  rewrite length_app in Hp, Hlen, Hs.
  cbn [map List.length fst snd] in Hp, Hlen, Hs, Hnd, Nn, Np.
  apply NoDup_snoc_inv in Hnd as [Hnd Hlast].
  apply NoDup_snoc_inv in Nn as [Nn Nlast].
  unfold draft_inv. rewrite Ehist, Epool, Ea, Eb.
  split; [|split; [|split; [|split; [lia|]]]].
  - destruct (Z.eqb (draft_index st) 1); injection Eptr as _ ->; auto.
  - destruct (Z.eqb (draft_index st) 1); injection Eptr as -> _; lia.
  - destruct (Z.eqb_spec (draft_index st) 1); injection Eptr as -> ->; lia.
  - split.
    + apply (f_equal (firstn (List.length h))) in Hs.
      rewrite firstn_firstn in Hs.
      replace (Nat.min (List.length h) (List.length h + 1))
        with (List.length h) in Hs by lia.
      rewrite <- Hs. rewrite firstn_app, length_map, Nat.sub_diag.
      cbn [firstn]. rewrite app_nil_r. symmetry. apply firstn_all2.
      now rewrite length_map.
    + destruct (set_team_slot_keys T pos None st Ka Kb) as [Ka' Kb'].
      split; [exact Ka' | split; [exact Kb'|]].
      split; [exact Hnd | split; [|split; [exact Nn|]]];
        [|split; [|split; [|split; [|split]]]].
      * intros T' pos' p HT'.
        rewrite (undo_last_team_dict st h T T' pos player Eh).
        specialize (Hh T' pos' p HT'). rewrite Eh, in_app_iff in Hh.
        cbn [In] in Hh.
        destruct (string_dec T' T) as [->|HneT].
        -- rewrite team_dict_set_same.
           destruct (Pos_eq_dec pos' pos) as [->|Hnep].
           ++ rewrite dict_get_set_same. split; [discriminate|].
              intro Hin. elim Hlast. apply in_map_iff.
              now exists (T, pos, p).
           ++ rewrite dict_get_set_other by exact Hnep. rewrite Hh.
              split; [|now left].
              intros [Hin|[[= E _]|[]]]; [exact Hin | now elim Hnep].
        -- rewrite team_dict_set_other by assumption. rewrite Hh.
           split; [|now left].
           intros [Hin|[[= E _ _]|[]]]; [exact Hin | now elim HneT].
      * intros q Hq Hin. apply in_app_or in Hq as [Hq|[<-|[]]].
        -- apply (Np q Hq). apply in_or_app. now left.
        -- exact (Nlast Hin).
      * intros q Hq. apply in_app_or in Hq as [Hq|[<-|[]]]; [now apply Dp|].
        apply (Dh (T, pos, player)). apply in_or_app. right. now left.
      * intros e He. apply Dh. apply in_or_app. now left.
      * apply NoDup_snoc; [exact Pn|].
        intro Hin. apply (Np player Hin). apply in_or_app. right. now left.
      * intros q Hq Huq. rewrite in_app_iff. cbn [In].
        destruct (Pu q Hq Huq) as [Hin|Hin]; [now left; left|].
        rewrite Eh, map_app in Hin. cbn [map snd] in Hin.
        apply in_app_or in Hin as [Hin|[<-|[]]];
          [now right | left; right; now left].
Qed.

Lemma reachable_inv (st : DraftState) : reachable st -> draft_inv st.
Proof.
  induction 1 as [|st pos player _ IH Hl|st _ IH Hne].
  - exact draft_inv_init.
  - exact (draft_inv_pick st pos player IH Hl).
  - exact (draft_inv_undo st IH Hne).
Qed.

(** X23: in every state the web draft reaches by picks and undos, the
    pointer is determined by the number of picks in the history:
    [draft_index] is 0 or 1, [draft_round] is between 1 and 6, round 6
    (the end of the draft) comes with index 0, and two picks make a
    round.  The teams of the history are the first slots of the snake
    order, and the draft is open exactly as long as fewer than ten picks
    are recorded. *)
Theorem draft_pointer_follows_history (st : DraftState) :
  reachable st ->
  (draft_index st = 0 \/ draft_index st = 1) /\
  1 <= draft_round st <= 6 /\
  (draft_round st = 6 -> draft_index st = 0) /\
  Z.of_nat (List.length (history st))
  = 2 * (draft_round st - 1) + draft_index st /\
  map (fun e : string * Pos * Player => fst (fst e)) (history st)
  = firstn (List.length (history st)) (map snd snake_order) /\
  (draft_open st = true <-> (List.length (history st) < 10)%nat).
Proof.
  intro H. destruct (reachable_inv st H) as (Hi & Hr & Hp & Hlen & Hs & _).
  split; [exact Hi | split; [lia | split; [lia | split; [lia|]]]].
  split; [exact Hs|].
  unfold draft_open. rewrite Z.leb_le. lia.
Qed.

Lemma reachable_two_picks :
  reachable (click_pick (click_pick init_state PG (db 3)) PG (db 9)).
Proof.
  apply reach_pick; [apply reach_pick; [apply reach_init|]|].
  - split; [reflexivity | split; [now left|]].
    apply list_by_position_In. split; [|reflexivity].
    unfold db. apply nth_In. vm_compute. lia.
  - split; [reflexivity | split; [vm_compute; now left|]].
    apply list_by_position_In. split; [|reflexivity].
    apply (proj1 (holds_In _ _)). vm_compute. reflexivity.
Qed.

Lemma draft_pointer_follows_history_witness :
  let st := click_pick (click_pick init_state PG (db 3)) PG (db 9) in
  Z.of_nat (List.length (history st))
  = 2 * (draft_round st - 1) + draft_index st.
Proof.
  exact (proj1 (proj2 (proj2 (proj2
           (draft_pointer_follows_history _ reachable_two_picks))))).
Defined.

(** X24: the two lineups are what the history says.  Both always have
    the five positions as keys; a slot holds a player exactly when the
    history records the pick of that player for that team and position;
    no team and position is picked twice; and every drafted player is a
    row of the database that plays the position, as primary or
    secondary. *)
Theorem lineups_follow_history (st : DraftState) :
  reachable st ->
  map fst (team_a st) = POSITIONS /\ map fst (team_b st) = POSITIONS /\
  NoDup (map fst (history st)) /\
  (forall pos p,
     dict_get Pos_eqb pos (team_a st) = Some (Some p)
     <-> In ("Team A"%string, pos, p) (history st)) /\
  (forall pos p,
     dict_get Pos_eqb pos (team_b st) = Some (Some p)
     <-> In ("Team B"%string, pos, p) (history st)) /\
  (forall T pos p,
     In (T, pos, p) (history st) ->
     In T ["Team A"; "Team B"]%string /\ In p PLAYER_DB /\
     (pos_primary p = pos \/ In pos (pos_secondary p))).
Proof.
  intro H. pose proof (reachable_inv st H) as Hinv.
  pose proof (history_teams st) as Ht.
  destruct Hinv as (_ & _ & _ & _ & _ & Ka & Kb & Hnd & Hh & _ & _ & _ & Dh & _).
  split; [exact Ka | split; [exact Kb | split; [exact Hnd|]]].
  split; [|split].
  - intros pos p. exact (Hh "Team A"%string pos p (or_introl eq_refl)).
  - intros pos p.
    exact (Hh "Team B"%string pos p (or_intror (or_introl eq_refl))).
  - intros T pos p Hin. destruct (Dh _ Hin) as [D1 D2].
    split; [exact (Ht _ (reachable_inv st H) Hin)|].
    split; [exact D1 | now apply eligible_spec].
Qed.

Lemma lineups_follow_history_witness :
  let st := click_pick (click_pick init_state PG (db 3)) PG (db 9) in
  NoDup (map fst (history st)).
Proof.
  exact (proj1 (proj2 (proj2
           (lineups_follow_history _ reachable_two_picks)))).
Defined.

(** *** Full lineups *)

Lemma team_dict_shape (d : TeamDict) :
  map fst d = POSITIONS ->
  exists v1 v2 v3 v4 v5,
    d = [(PG, v1); (SG, v2); (SF, v3); (PF, v4); (C, v5)].
Proof.
  unfold POSITIONS. intro H.
  destruct d as [|[k1 v1] [|[k2 v2] [|[k3 v3] [|[k4 v4] [|[k5 v5] [|? ?]]]]]];
    try discriminate H.
  cbn [map fst] in H. injection H as -> -> -> -> ->.
  now exists v1, v2, v3, v4, v5.
Qed.

Lemma full_team_filled (d : TeamDict) :
  map fst d = POSITIONS ->
  (forallb filled (map snd d) = true
   <-> forall pos, exists p, dict_get Pos_eqb pos d = Some (Some p)).
Proof.
  intro H. destruct (team_dict_shape d H) as (v1 & v2 & v3 & v4 & v5 & ->).
  cbn [map snd forallb]. split.
  - intro F. repeat (apply andb_true_iff in F as [? F]).
    destruct v1, v2, v3, v4, v5; try discriminate.
    intros []; eexists; reflexivity.
  - intro F.
    destruct (F PG) as (p1 & E1). destruct (F SG) as (p2 & E2).
    destruct (F SF) as (p3 & E3). destruct (F PF) as (p4 & E4).
    destruct (F C) as (p5 & E5).
    cbn in E1, E2, E3, E4, E5.
    injection E1 as ->. injection E2 as ->. injection E3 as ->.
    injection E4 as ->. injection E5 as ->. reflexivity.
Qed.

Lemma no_unfilled_filled (d : TeamDict) :
  map fst d = POSITIONS ->
  filter (fun pos => match dict_get Pos_eqb pos d with
                     | Some None => true
                     | _ => false
                     end) POSITIONS = [] ->
  forall pos, exists p, dict_get Pos_eqb pos d = Some (Some p).
Proof.
  intros H F. destruct (team_dict_shape d H) as (v1 & v2 & v3 & v4 & v5 & ->).
  unfold POSITIONS in F. cbn in F.
  destruct v1, v2, v3, v4, v5; try discriminate F.
  intros []; eexists; reflexivity.
Qed.

(** The ten slots of the two lineups. *)
Lemma all_slots_NoDup :
  NoDup (list_prod ["Team A"; "Team B"]%string POSITIONS).
Proof.
  cbn.
  repeat (constructor;
          [intro H; cbn in H;
           repeat (destruct H as [H|H]; [discriminate H|]); exact H|]).
  constructor.
Qed.

Lemma slot_in_history (st : DraftState) (T : string) (pos : Pos) :
  draft_inv st -> In T ["Team A"; "Team B"]%string ->
  ((exists p, dict_get Pos_eqb pos (team_dict T st) = Some (Some p))
   <-> In (T, pos) (map fst (history st))).
Proof.
  intros (_ & _ & _ & _ & _ & _ & _ & _ & Hh & _) HT. split.
  - intros (p & Hp). apply (Hh T pos p HT) in Hp.
    apply in_map_iff. now exists (T, pos, p).
  - intro Hin. apply in_map_iff in Hin as ([[T0 pos0] p] & [= -> ->] & Hin).
    exists p. now apply (Hh T pos p HT).
Qed.

Lemma count_team (l : list (string * Pos)) (T : string) :
  NoDup l -> (forall pos, In (T, pos) l) ->
  (5 <= count_occ string_dec (map fst l) T)%nat.
Proof.
  intros Hnd Hall.
  assert (E : count_occ string_dec (map fst l) T
              = List.length (filter (fun tp : string * Pos =>
                                       if string_dec (fst tp) T
                                       then true else false) l)).
  { clear. induction l as [|[t pos] l IH]; [reflexivity|].
    cbn [map fst count_occ filter].
    destruct (string_dec t T); cbn [List.length]; now rewrite IH. }
  rewrite E.
  change 5%nat with (List.length (map (pair T) POSITIONS)).
  apply NoDup_incl_length.
  - cbn.
    repeat (constructor;
            [intro H; cbn in H;
             repeat (destruct H as [H|H]; [discriminate H|]); exact H|]).
    constructor.
  - intros tp Hin. apply in_map_iff in Hin as (pos & <- & _).
    apply filter_In. split; [apply Hall|].
    cbn [fst]. now destruct (string_dec T T).
Qed.

(** X25: the [Simulate Game] button is enabled exactly when the draft is
    complete: in every reachable state both lineups are full if and only
    if the draft is no longer open, that is after the tenth pick; and
    while the draft is open the team on the clock still has a position
    to fill, so the list of positions offered is never empty. *)
Theorem ready_iff_draft_complete (st : DraftState) :
  reachable st ->
  (ready st = true <-> draft_open st = false) /\
  (draft_open st = true ->
   unfilled_positions (current_team_name st) st <> []).
Proof.
  intro H. pose proof (reachable_inv st H) as Hinv.
  pose proof (slot_in_history st) as Hslot.
  pose proof (history_teams st) as Hteams.
  pose proof (clock_is_snake st (reachable_inv st H)) as Hclock.
  destruct Hinv as (Hi & Hr & Hp & Hlen & Hs & Ka & Kb & Hnd & Hh & _).
  assert (HA : In "Team A"%string ["Team A"; "Team B"]%string) by now left.
  assert (HB : In "Team B"%string ["Team A"; "Team B"]%string)
    by (right; now left).
  assert (Hall : draft_open st = false ->
                 forall T pos, In T ["Team A"; "Team B"]%string ->
                   In (T, pos) (map fst (history st))).
  { intros Hc T pos HT. unfold draft_open in Hc. apply Z.leb_gt in Hc.
    apply (NoDup_length_incl Hnd (l' := list_prod ["Team A"; "Team B"]%string
                                                  POSITIONS)).
    - rewrite length_map. cbn. lia.
    - intros [T0 pos0] Hin.
      apply in_map_iff in Hin as ([[T1 pos1] p] & [= -> ->] & Hin).
      apply in_prod; [exact (Hteams _ (reachable_inv st H) Hin)|].
      destruct pos0; cbn; tauto.
    - apply in_prod; [exact HT | destruct pos; cbn; tauto]. }
  split; [split|].
  - intro Hready. unfold ready in Hready.
    apply andb_true_iff in Hready as [Fa Fb].
    pose proof (proj1 (full_team_filled _ Ka) Fa) as Fa'.
    pose proof (proj1 (full_team_filled _ Kb) Fb) as Fb'.
    assert (Hincl : incl (list_prod ["Team A"; "Team B"]%string POSITIONS)
                         (map fst (history st))).
    { intros [T pos] Hin. apply in_prod_iff in Hin as [HT _].
      apply (Hslot T pos (reachable_inv st H) HT).
      destruct HT as [<-|[<-|[]]]; [apply Fa' | apply Fb']. }
    apply (NoDup_incl_length all_slots_NoDup) in Hincl.
    rewrite length_map in Hincl.
    change (List.length (list_prod ["Team A"; "Team B"]%string POSITIONS))
      with 10%nat in Hincl.
    unfold draft_open. apply Z.leb_gt. lia.
  - intro Hc. unfold ready. apply andb_true_iff. split.
    + apply (full_team_filled _ Ka). intro pos.
      apply (Hslot "Team A"%string pos (reachable_inv st H) HA).
      now apply Hall.
    + apply (full_team_filled _ Kb). intro pos.
      apply (Hslot "Team B"%string pos (reachable_inv st H) HB).
      now apply Hall.
  - intros Ho Hnone. destruct (Hclock Ho) as [Hlt Hsnake].
    pose proof (current_team_name_In st) as HT.
    remember (current_team_name st) as T eqn:ET. clear ET.
    assert (Hkeys : map fst (team_dict T st) = POSITIONS).
    { unfold team_dict.
      destruct (team_name_cases T HT) as [[_ E]|[_ E]]; now rewrite E. }
    pose proof (no_unfilled_filled _ Hkeys Hnone) as Hfull.
    assert (Hcount : (5 <= count_occ string_dec
                              (map fst (map fst (history st))) T)%nat).
    { apply count_team; [exact Hnd|]. intro pos.
      apply (Hslot T pos (reachable_inv st H) HT). apply Hfull. }
    rewrite map_map, Hs in Hcount.
    remember (List.length (history st)) as n eqn:En. clear En.
    do 10 (destruct n as [|n];
           [vm_compute in Hsnake; injection Hsnake as <-;
            vm_compute in Hcount; lia|]).
    lia.
Qed.

Lemma ready_iff_draft_complete_witness :
  unfilled_positions
    (current_team_name
       (click_pick (click_pick init_state PG (db 3)) PG (db 9)))
    (click_pick (click_pick init_state PG (db 3)) PG (db 9)) <> [].
Proof.
  apply (ready_iff_draft_complete _ reachable_two_picks). reflexivity.
Defined.

(** *** Names on the rosters *)

Lemma NoDup_map_inj {A B} (f : A -> B) (l : list A) (a b : A) :
  NoDup (map f l) -> In a l -> In b l -> f a = f b -> a = b.
Proof.
  induction l as [|x l IH]; intros Hnd Ha Hb E; [easy|].
  cbn [map] in Hnd. inversion Hnd as [|? ? Hx Hnd']; subst.
  destruct Ha as [->|Ha], Hb as [->|Hb].
  - reflexivity.
  - elim Hx. rewrite E. now apply in_map.
  - elim Hx. rewrite <- E. now apply in_map.
  - now apply IH.
Qed.

Lemma NoDup_map_incl {A B} (f : A -> B) (l l' : list A) :
  NoDup l -> incl l l' -> NoDup (map f l') -> NoDup (map f l).
Proof.
  intros Hl Hincl Hf. induction Hl as [|x l Hx Hl IH]; [constructor|].
  cbn [map]. constructor.
  - intro Hin. apply in_map_iff in Hin as (y & E & Hy).
    assert (y = x).
    { apply (NoDup_map_inj f l'); [exact Hf | | | exact E].
      - apply Hincl. now right.
      - apply Hincl. now left. }
    subst y. contradiction.
  - apply IH. intros y Hy. apply Hincl. now right.
Qed.

(** The lineups of the two teams built from a state whose slots are all
    filled, as entries of the history. *)
Lemma built_teams_names (st : DraftState) :
  draft_inv st -> ready st = true ->
  NoDup (map name (all_players (build_team "Team A" (team_a st))
                   ++ all_players (build_team "Team B" (team_b st)))).
Proof.
  intros (_ & _ & _ & _ & _ & Ka & Kb & _ & Hh & Nn & _) Hready.
  unfold ready in Hready. apply andb_true_iff in Hready as [Fa Fb].
  destruct (team_dict_shape _ Ka) as (a1 & a2 & a3 & a4 & a5 & Ea).
  destruct (team_dict_shape _ Kb) as (b1 & b2 & b3 & b4 & b5 & Eb).
  pose proof (fun pos p => Hh "Team A"%string pos p (or_introl eq_refl)) as HA.
  pose proof (fun pos p =>
                Hh "Team B"%string pos p (or_intror (or_introl eq_refl))) as HB.
  unfold team_dict in HA, HB. cbn [String.eqb Ascii.eqb Bool.eqb] in HA, HB.
  rewrite Ea in Fa, HA |- *. rewrite Eb in Fb, HB |- *.
  cbn [map snd forallb] in Fa, Fb.
  destruct a1 as [a1|], a2 as [a2|], a3 as [a3|], a4 as [a4|], a5 as [a5|];
    try discriminate Fa.
  destruct b1 as [b1|], b2 as [b2|], b3 as [b3|], b4 as [b4|], b5 as [b5|];
    try discriminate Fb.
  change (map name (all_players (build_team "Team A" _)
                    ++ all_players (build_team "Team B" _)))
    with (map (fun e : string * Pos * Player => name (snd e))
              [("Team A"%string, PG, a1); ("Team A"%string, SG, a2);
               ("Team A"%string, SF, a3); ("Team A"%string, PF, a4);
               ("Team A"%string, C, a5); ("Team B"%string, PG, b1);
               ("Team B"%string, SG, b2); ("Team B"%string, SF, b3);
               ("Team B"%string, PF, b4); ("Team B"%string, C, b5)]).
  apply (NoDup_map_incl _ _ (history st)).
  - apply (NoDup_map_inv fst). exact all_slots_NoDup.
  - intros e He. cbn [In] in He.
    repeat (destruct He as [<-|He];
            [first [apply HA | apply HB]; reflexivity|]).
    contradiction.
  - now rewrite <- map_map.
Qed.

(** X26: no player is drafted twice.  In every reachable state the
    names on the roster slots are pairwise distinct and none of them is
    the name of a player still in the pool, even though the database has
    a duplicated row; so the ten players of the two teams built from a
    complete draft carry ten different names, which is what the box
    score, keyed by name, needs. *)
Theorem no_player_drafted_twice (st : DraftState) :
  reachable st ->
  (forall T pos p T' pos' p',
     In T ["Team A"; "Team B"]%string -> In T' ["Team A"; "Team B"]%string ->
     dict_get Pos_eqb pos (team_dict T st) = Some (Some p) ->
     dict_get Pos_eqb pos' (team_dict T' st) = Some (Some p') ->
     name p = name p' -> T = T' /\ pos = pos') /\
  (forall q T pos p,
     In q (pool st) -> In T ["Team A"; "Team B"]%string ->
     dict_get Pos_eqb pos (team_dict T st) = Some (Some p) ->
     name q <> name p) /\
  (ready st = true ->
   NoDup (map name (all_players (build_team "Team A" (team_a st))
                    ++ all_players (build_team "Team B" (team_b st))))).
Proof.
  intro H. pose proof (reachable_inv st H) as Hinv.
  split; [|split; [|exact (built_teams_names st Hinv)]];
    destruct Hinv as (_ & _ & _ & _ & _ & _ & _ & _ & Hh & Nn & Np & _).
  - intros T pos p T' pos' p' HT HT' Hp Hp' E.
    apply (Hh T pos p HT) in Hp. apply (Hh T' pos' p' HT') in Hp'.
    rewrite map_map in Nn.
    pose proof (NoDup_map_inj _ _ _ _ Nn Hp Hp' E) as [= -> ->].
    now split.
  - intros q T pos p Hq HT Hp E.
    apply (Hh T pos p HT) in Hp. apply (Np q Hq). rewrite E.
    apply in_map. apply in_map_iff. now exists (T, pos, p).
Qed.

Lemma no_player_drafted_twice_witness : name (db 0) <> name (db 3).
Proof.
  apply (proj1 (proj2 (no_player_drafted_twice _ reachable_two_picks))
           (db 0) "Team A"%string PG (db 3)).
  - apply (proj1 (holds_In _ _)). vm_compute. reflexivity.
  - now left.
  - vm_compute. reflexivity.
Defined.

(** X27: the game of a complete web draft.  From every reachable state
    with both lineups full, [simulate_game] on the two teams the page
    builds returns a result from every generator state, and in it the
    score of each team is the sum of the points that the box table of
    the team shows for its five players. *)
Theorem web_game_scores (rng_seed : Z -> tape) (st : DraftState)
    (seed : option Z) (g : tape) :
  reachable st -> ready st = true ->
  let ta := build_team "Team A" (team_a st) in
  let tb := build_team "Team B" (team_b st) in
  exists res g',
    simulate_game rng_seed ta tb seed g = Some (res, g') /\
    fst (score res) = team_total (box res) "pts" (all_players ta) /\
    snd (score res) = team_total (box res) "pts" (all_players tb).
Proof.
  intros H Hready ta tb.
  pose proof (built_teams_names st (reachable_inv st H) Hready) as Hnd.
  fold ta tb in Hnd.
  assert (Hobj : NoDup (all_players ta ++ all_players tb))
    by exact (NoDup_map_inv name _ Hnd).
  destruct (simulate_game_succeeds rng_seed ta tb seed
              (NoDup_app_l _ _ Hobj) (NoDup_app_r _ _ Hobj) g)
    as (res & g' & E).
  exists res, g'. split; [exact E|].
  exact (ensures_simulate_game rng_seed ta tb seed _
           (conj eq_refl eq_refl) (score_invariant_step _ _ Hnd)
           g res g' E).
Qed.

Lemma run_picks_reachable (picks : list (Pos * Player)) :
  forall st, reachable st -> legal_run picks st ->
             reachable (run_picks picks st).
Proof.
  induction picks as [|[pos player] picks IH]; intros st Hr Hl; [exact Hr|].
  cbn [run_picks]. destruct Hl as [Hl Hrest].
  apply IH; [now apply reach_pick | exact Hrest].
Qed.

Lemma full_draft_reachable :
  reachable (run_picks full_draft_picks init_state).
Proof.
  apply run_picks_reachable; [apply reach_init|].
  unfold full_draft_picks. cbn [legal_run].
  repeat (split;
          [split; [vm_compute; reflexivity
                  | split; [vm_compute; tauto
                           | apply (proj1 (holds_In _ _)); vm_compute;
                             reflexivity]]|]).
  exact I.
Qed.

Lemma web_game_scores_witness :
  exists res g',
    simulate_game example_seed
      (build_team "Team A" (team_a (run_picks full_draft_picks init_state)))
      (build_team "Team B" (team_b (run_picks full_draft_picks init_state)))
      (Some 42) (tape_of [])
    = Some (res, g').
Proof.
  destruct (web_game_scores example_seed
              (run_picks full_draft_picks init_state) (Some 42) (tape_of [])
              full_draft_reachable)
    as (res & g' & E & _).
  - vm_compute. reflexivity.
  - now exists res, g'.
Defined.

(** *** Conservation of the pool *)

Lemma obj_id_inj (p q : Player) :
  In p PLAYER_DB -> In q PLAYER_DB -> obj_id p = obj_id q -> p = q.
Proof.
  apply NoDup_map_inj.
  replace (map obj_id PLAYER_DB) with (seq 0 103) by (vm_compute; reflexivity).
  apply seq_NoDup.
Qed.

(** Every name of the database but one is carried by a single row. *)
Lemma db_unique_names (q : Player) :
  In q PLAYER_DB -> name q <> "Doug Christie"%string -> unique_name q.
Proof.
  assert (Hcheck :
    forallb (fun q =>
               String.eqb (name q) "Doug Christie"
               || forallb (fun q' =>
                             negb (String.eqb (name q') (name q))
                             || Nat.eqb (obj_id q') (obj_id q))
                          PLAYER_DB)
            PLAYER_DB = true) by (vm_compute; reflexivity).
  intros Hq Hname q' Hq' E.
  rewrite forallb_forall in Hcheck. specialize (Hcheck q Hq).
  apply orb_true_iff in Hcheck as [Hc|Hc];
    [now apply String.eqb_eq in Hc|].
  rewrite forallb_forall in Hc. specialize (Hc q' Hq').
  apply orb_true_iff in Hc as [Hc|Hc].
  - apply negb_true_iff, String.eqb_neq in Hc. contradiction.
  - apply Nat.eqb_eq in Hc. now apply obj_id_inj.
Qed.

(** X28: conservation of the pool, as far as it holds.  In every
    reachable state the pool has no entry twice and holds database rows
    only; and every row of the database other than the two Doug Christie
    rows is either in the pool or on a roster, never both and never
    lost. *)
Theorem unique_rows_conserved (st : DraftState) :
  reachable st ->
  NoDup (pool st) /\
  (forall q, In q (pool st) -> In q PLAYER_DB) /\
  forall q, In q PLAYER_DB -> name q <> "Doug Christie"%string ->
    (In q (pool st) \/ In q (map snd (history st))) /\
    ~ (In q (pool st) /\ In q (map snd (history st))).
Proof.
  intro H. destruct (reachable_inv st H)
    as (_ & _ & _ & _ & _ & _ & _ & _ & _ & _ & Np & Dp & _ & Pn & Pu).
  split; [exact Pn | split; [exact Dp|]].
  intros q Hq Hname. split.
  - apply Pu; [exact Hq | now apply db_unique_names].
  - intros [Hpool Hhist]. apply (Np q Hpool). now apply in_map.
Qed.

Lemma unique_rows_conserved_witness :
  NoDup (pool (run_picks full_draft_picks init_state)).
Proof.
  exact (proj1 (unique_rows_conserved _ full_draft_reachable)).
Defined.

(** *** Undo *)

Lemma filter_unique_perm (player : Player) (l : list Player) :
  NoDup l -> In player l ->
  (forall q, In q l -> name q = name player -> q = player) ->
  Permutation
    (player :: filter (fun p => negb (String.eqb (name p) (name player))) l) l.
Proof.
  induction l as [|x l IH]; intros Hnd Hin Hu; [easy|].
  inversion Hnd as [|? ? Hx Hnd']; subst. cbn [filter].
  destruct (String.eqb_spec (name x) (name player)) as [E|E]; cbn [negb].
  - assert (x = player) by (apply Hu; [now left | exact E]). subst x.
    apply perm_skip. rewrite forallb_filter_id; [reflexivity|].
    apply forallb_forall. intros p Hp. apply negb_true_iff, String.eqb_neq.
    intro E'. assert (p = player) by (apply Hu; [now right | exact E']).
    subst p. contradiction.
  - destruct Hin as [->|Hin]; [now elim E|].
    rewrite perm_swap. apply perm_skip.
    apply IH; [exact Hnd' | exact Hin|].
    intros q Hq. apply Hu. now right.
Qed.

(** X29: undo takes back a pick.  After any pick the page can send from
    a reachable state, [undo_last] restores the round, the index, both
    lineups and the history; the pool gets the player back at its end,
    and when no other row of the database carries the player's name the
    pool is the former one up to order. *)
Theorem undo_takes_back_pick (st : DraftState) (pos : Pos) (player : Player) :
  reachable st -> legal_pick st pos player ->
  let st' := undo_last (click_pick st pos player) in
  draft_round st' = draft_round st /\ draft_index st' = draft_index st /\
  team_a st' = team_a st /\ team_b st' = team_b st /\
  history st' = history st /\
  pool st'
  = filter (fun p => negb (String.eqb (name p) (name player))) (pool st)
    ++ [player] /\
  (unique_name player -> Permutation (pool st') (pool st)).
Proof.
  intros H Hl st'. subst st'. unfold click_pick.
  destruct (reachable_inv st H)
    as (Hi & Hr & _ & _ & _ & _ & _ & _ & _ & _ & _ & Dp & _ & Pn & _).
  destruct Hl as (_ & Hu & Hc).
  apply unfilled_slot in Hu. apply list_by_position_In in Hc as [Hc _].
  destruct (undo_make_pick (current_team_name st) pos player st Hi Hr Hu)
    as (E1 & E2 & E3 & E4 & E5 & E6).
  repeat (split; [assumption|]).
  intro Huq. rewrite E6.
  rewrite <- (filter_unique_perm player (pool st) Pn Hc) at 2.
  - rewrite Permutation_app_comm. reflexivity.
  - intros q Hq E. apply Huq; [now apply Dp | exact E].
Qed.

Lemma first_pick_legal : legal_pick init_state PG (db 3).
Proof.
  split; [reflexivity | split; [now left|]].
  apply list_by_position_In. split; [|reflexivity].
  unfold db. apply nth_In. vm_compute. lia.
Qed.

Lemma undo_takes_back_pick_witness :
  history (undo_last (click_pick init_state PG (db 3))) = history init_state.
Proof.
  exact (proj1 (proj2 (proj2 (proj2 (proj2
           (undo_takes_back_pick init_state PG (db 3) reach_init
              first_pick_legal)))))).
Defined.
